(** * cn_video: the GUI layer of the LAN collaboration client

    A shallow embedding of the bookkeeping found in
    [client/gui_manager.py] (and, where it differs, of
    [client/gui_manager_tabbed.py]): chat history capping, chat send
    validation, video slot assignment, the audio toggles, the presenter
    controls of the screen-share frame, its rescaling cache, the defensive
    widget checks and the rendering of the shared-file list.

    The toolkit is modelled only as far as the code observes it: a widget
    is a record of the options the code reads and writes ([state], [text],
    [foreground]) together with its liveness; what the window system
    decides (geometry, visibility, whether a widget still exists) is passed
    to the operations as an explicit environment.  Callbacks supplied by the
    external client object are functions returning a Python outcome. *)

From Stdlib Require Import ZArith List String Ascii Bool Lia Arith.
From Stdlib Require Import Decimal DecimalString DecimalZ.
From Stdlib Require Import SpecFloat.
From Stdlib Require Import Sorted Permutation.
Import ListNotations.

#[local] Open Scope string_scope.
#[local] Open Scope list_scope.
#[local] Open Scope nat_scope.

(* ================================================================== *)
(** * Python runtime pieces used by the code *)
(* ================================================================== *)

Module Py.

(** Exceptions that the modelled code raises or catches.  All of them are
    subclasses of [Exception]; each carries the text [str(e)] gives. *)
Inductive exn : Type :=
| TclError (msg : string)
| AttributeError (msg : string)
| OtherException (msg : string).

Definition str_of_exn (e : exn) : string :=
  match e with
  | TclError m | AttributeError m | OtherException m => m
  end.

Definition is_TclError (e : exn) : bool :=
  match e with TclError _ => true | _ => false end.

Definition is_AttributeError (e : exn) : bool :=
  match e with AttributeError _ => true | _ => false end.

(** Outcome of evaluating a Python expression or statement. *)
Inductive result (A : Type) : Type :=
| Ok (a : A)
| Raise (e : exn).
Arguments Ok {A} a.
Arguments Raise {A} e.

(** Statements that mutate an object: the mutation made before an
    exception is raised stays, so the state is returned on both paths. *)
Definition M (S A : Type) : Type := S -> S * result A.

Definition ret {S A} (a : A) : M S A := fun s => (s, Ok a).
Definition raise {S A} (e : exn) : M S A := fun s => (s, Raise e).
Definition bind {S A B} (m : M S A) (k : A -> M S B) : M S B :=
  fun s => match m s with
           | (s', Ok a) => k a s'
           | (s', Raise e) => (s', Raise e)
           end.
Definition get {S} : M S S := fun s => (s, Ok s).
Definition modify {S} (f : S -> S) : M S unit := fun s => (f s, Ok tt).
Definition lift {S A} (r : result A) : M S A := fun s => (s, r).

(** [try: body; except Exception as e: handler e] *)
Definition try_except {S A} (body : M S A) (handler : exn -> M S A) : M S A :=
  fun s => match body s with
           | (s', Ok a) => (s', Ok a)
           | (s', Raise e) => handler e s'
           end.

Definition when {S} (b : bool) (m : M S unit) : M S unit :=
  if b then m else ret tt.

Definition exec {S A} (m : M S A) (s : S) : S := fst (m s).
Definition outcome {S A} (m : M S A) (s : S) : result A := snd (m s).

Definition returns {A} (r : result A) : bool :=
  match r with Ok _ => true | Raise _ => false end.

(** [str(n)] for an [int]. *)
Definition str_of_Z (z : Z) : string := NilEmpty.string_of_int (Z.to_int z).

(** [str.strip()]: the characters [str.isspace] accepts, among the code
    points below 256 that [ascii] can hold. *)
Definition isspace (c : ascii) : bool :=
  let n := nat_of_ascii c in
  (((9 <=? n) && (n <=? 13)) || ((28 <=? n) && (n <=? 32))
   || (n =? 133) || (n =? 160))%nat.

Fixpoint lstrip (s : string) : string :=
  match s with
  | EmptyString => EmptyString
  | String c s' => if isspace c then lstrip s' else s
  end.

Fixpoint rstrip (s : string) : string :=
  match s with
  | EmptyString => EmptyString
  | String c s' =>
      match rstrip s' with
      | EmptyString => if isspace c then EmptyString else String c EmptyString
      | r => String c r
      end
  end.

Definition strip (s : string) : string := rstrip (lstrip s).

(** Truth value of a [str]: the empty string is falsy. *)
Definition str_truthy (s : string) : bool :=
  match s with EmptyString => false | _ => true end.

(** Truth value of an [Optional[str]]. *)
Definition opt_str_truthy (o : option string) : bool :=
  match o with None => false | Some s => str_truthy s end.

(** [a == b] on two [Optional[str]]. *)
Definition opt_string_eqb (a b : option string) : bool :=
  match a, b with
  | Some x, Some y => String.eqb x y
  | None, None => true
  | _, _ => false
  end.

(** [l[-n:]] for [n > 0]: the last [n] elements, all of [l] when it is
    shorter.  ([l[-0:]] is [l[0:]], the whole list.) *)
Definition slice_last {A} (n : nat) (l : list A) : list A :=
  match n with
  | O => l
  | _ => skipn (List.length l - n) l
  end.

(** A [dict] with [str] keys: insertion-ordered, keys unique.  Assigning
    to an existing key keeps its position. *)
Fixpoint dict_set {V} (d : list (string * V)) (k : string) (v : V)
  : list (string * V) :=
  match d with
  | [] => [(k, v)]
  | (k', v') :: d' =>
      if String.eqb k' k then (k, v) :: d' else (k', v') :: dict_set d' k v
  end.

Fixpoint dict_get {V} (d : list (string * V)) (k : string) : option V :=
  match d with
  | [] => None
  | (k', v') :: d' => if String.eqb k' k then Some v' else dict_get d' k
  end.

Definition dict_keys {V} (d : list (string * V)) : list string := map fst d.
Definition dict_values {V} (d : list (string * V)) : list V := map snd d.

(** ** binary64 arithmetic, as CPython's [float] *)

Definition prec : Z := 53.
Definition emax : Z := 1024.

(** [float(n)] for an [int] (correctly rounded; exact below [2^53]). *)
Definition float_of_int (n : Z) : spec_float :=
  binary_normalize prec emax n 0 false.

(** [a / b] on two [int]s with [b <> 0]: for operands below [2^53] CPython
    converts both exactly and divides once. *)
Definition truediv (a b : Z) : spec_float :=
  SFdiv prec emax (float_of_int a) (float_of_int b).

Definition fmul (x y : spec_float) : spec_float := SFmul prec emax x y.

(** [min(a, b)] and [max(a, b)] return the first argument unless the
    second compares strictly below (above) it. *)
Definition fmin (a b : spec_float) : spec_float :=
  if SFltb b a then b else a.
Definition fmax (a b : spec_float) : spec_float :=
  if SFltb a b then b else a.

(** The literals [0.99] and [0.3]: the doubles nearest to 99/100 and
    3/10, with 53-bit mantissas. *)
Definition f0_99 : spec_float := S754_finite false 8917127262193582 (-53).
Definition f0_3 : spec_float := S754_finite false 5404319552844595 (-54).

(** [int(x)]: truncation toward zero; infinities and NaN raise. *)
Definition int_of_float (x : spec_float) : result Z :=
  match x with
  | S754_zero _ => Ok 0%Z
  | S754_finite s m e =>
      let a := match e with
               | Zneg p => Z.shiftr (Zpos m) (Zpos p)
               | _ => Z.shiftl (Zpos m) e
               end in
      Ok (if s then Z.opp a else a)
  | S754_infinity _ =>
      Raise (OtherException "cannot convert float infinity to integer")
  | S754_nan =>
      Raise (OtherException "cannot convert float NaN to integer")
  end.

(** Round-half-even of [n / 2^k] for [n >= 0]. *)
Definition round_half_even_shr (n : Z) (k : Z) : Z :=
  let q := Z.shiftr n k in
  let r := (n - Z.shiftl q k)%Z in
  let half := Z.shiftl 1 (k - 1) in
  match Z.compare r half with
  | Lt => q
  | Gt => (q + 1)%Z
  | Eq => if Z.even q then q else (q + 1)%Z
  end.

(** [f"{x:.1f}"]: the exact binary value rounded half-even to one decimal
    place; the sign bit is printed even when the digits are [0.0]. *)
Definition format_1f (x : spec_float) : string :=
  match x with
  | S754_zero s => if s then "-0.0" else "0.0"
  | S754_finite s m e =>
      let t := match e with
               | Zneg p => round_half_even_shr (10 * Zpos m) (Zpos p)
               | _ => Z.shiftl (10 * Zpos m) e
               end in
      ((if s then "-" else "") ++ str_of_Z (t / 10)%Z ++ "."
         ++ str_of_Z (t mod 10)%Z)%string
  | S754_infinity s => if s then "-inf" else "inf"
  | S754_nan => "nan"
  end.

(** [a / b] on two [int]s whose divisor [b] is [2^k]: CPython rounds the
    exact quotient to the nearest double, ties to even, and raises
    OverflowError when that double would not be finite.  Rounding
    [a * 2^-k] is what [binary_normalize] does. *)
Definition truediv_pow2 (a k : Z) : result spec_float :=
  match binary_normalize prec emax a (- k) false with
  | S754_infinity _ =>
      Raise (OtherException "integer division result too large for a float")
  | x => Ok x
  end.

(** [str(n)] and [f"{n}"] as CPython runs them by default since 3.11: an
    [int] of more than 4300 decimal digits raises ValueError. *)
Definition int_max_str_digits : Z := 4300.

Definition str_int (n : Z) : result string :=
  if (10 ^ int_max_str_digits <=? Z.abs n)%Z
  then Raise (OtherException
                "Exceeds the limit (4300 digits) for integer string conversion; use sys.set_int_max_str_digits() to increase the limit")
  else Ok (str_of_Z n).

End Py.

Module PyNotations.
  Notation "x <- m ;; k" := (Py.bind m (fun x => k))
    (at level 61, m at next level, right associativity).
  Notation "m ;;; k" := (Py.bind m (fun _ => k))
    (at level 61, right associativity).
End PyNotations.

(* ================================================================== *)
(** * The toolkit, as far as the code observes it *)
(* ================================================================== *)

Module Tk.
Import Py.

(** Whether a widget can still be used.  After [destroy()] the widget's
    [winfo_exists()] is 0 and every other call on it raises [TclError];
    once the application itself is gone [winfo_exists()] raises too. *)
Inductive liveness : Type := Alive | Destroyed | AppDestroyed.

(** The options of a button or label that the code configures. *)
Record Widget : Type := mkWidget {
  live : liveness;
  state : string;
  text : string;
  foreground : string
}.

(** The keyword arguments of a [config] call. *)
Record Options : Type := mkOptions {
  opt_state : option string;
  opt_text : option string;
  opt_foreground : option string
}.

Definition no_options : Options := mkOptions None None None.

Definition with_default {A} (o : option A) (d : A) : A :=
  match o with Some a => a | None => d end.

Definition apply_options (w : Widget) (kw : Options) : Widget :=
  mkWidget (live w)
           (with_default (opt_state kw) (state w))
           (with_default (opt_text kw) (text w))
           (with_default (opt_foreground kw) (foreground w)).

Definition invalid_command : exn := TclError "invalid command name".
Definition app_destroyed : exn := TclError "application has been destroyed".

Definition winfo_exists (w : Widget) : result bool :=
  match live w with
  | Alive => Ok true
  | Destroyed => Ok false
  | AppDestroyed => Raise app_destroyed
  end.

(** Any other call on the widget ([config], [cget], [pack], ...). *)
Definition call {A} (l : liveness) (a : A) : result A :=
  match l with
  | Alive => Ok a
  | Destroyed => Raise invalid_command
  | AppDestroyed => Raise app_destroyed
  end.

Definition config (w : Widget) (kw : Options) : result Widget :=
  call (live w) (apply_options w kw).

Definition cget_text (w : Widget) : result string :=
  call (live w) (text w).

(** What a caller may pass where a widget is expected. *)
Inductive obj : Type :=
| ONone                 (* [None] *)
| OWidget (w : Widget)  (* a toolkit widget *)
| OOther.               (* a truthy object without [winfo_exists]/[config] *)

Definition obj_truthy (o : obj) : bool :=
  match o with ONone => false | _ => true end.

Definition obj_winfo_exists (o : obj) : result bool :=
  match o with
  | OWidget w => winfo_exists w
  | ONone => Raise (AttributeError "NoneType object has no attribute winfo_exists")
  | OOther => Raise (AttributeError "object has no attribute winfo_exists")
  end.

Definition obj_config (o : obj) (kw : Options) : result obj :=
  match o with
  | OWidget w =>
      match config w kw with
      | Ok w' => Ok (OWidget w')
      | Raise e => Raise e
      end
  | ONone => Raise (AttributeError "NoneType object has no attribute config")
  | OOther => Raise (AttributeError "object has no attribute config")
  end.

(** A call registered with [after(ms, f)]. *)
Definition after {F} (queue : list (Z * F)) (ms : Z) (f : F) : list (Z * F) :=
  queue ++ [(ms, f)].

End Tk.

(* ================================================================== *)
(** * ChatFrame *)
(* ================================================================== *)

Module ChatFrame.
Import Py PyNotations.

(** A chat message dict, with the keys [add_message] gives it. *)
Record Message : Type := mkMessage {
  username : string;
  message : string;
  timestamp : Z;            (* a [datetime]: the time since [datetime.min] *)
  is_own_message : bool;
  message_type : string
}.

(** A status label that is only ever configured with text and colour. *)
Record Label : Type := mkLabel { text : string; foreground : string }.

Inductive Deferred : Type :=
| StatusReady.  (* [lambda: self.status_label.config(text="Ready", foreground='black')] *)

Record State : Type := mkState {
  chat_history : list Message;
  max_history_size : nat;
  chat_display : list Message;   (* entries rendered in the text widget *)
  message_entry : string;        (* content of the entry widget *)
  char_counter : Label;
  status_label : Label;
  after_queue : list (Z * Deferred);
  message_callback : option (string -> result unit);
  sent : list string             (* calls made to [message_callback], in order *)
}.

(** [ChatFrame.__init__] *)
Definition init : State :=
  mkState [] 500 [] "" (mkLabel "0/1000" "") (mkLabel "Ready" "") [] None [].

Definition set_chat_history (h : list Message) (st : State) : State :=
  mkState h (max_history_size st) (chat_display st) (message_entry st)
          (char_counter st) (status_label st) (after_queue st)
          (message_callback st) (sent st).

Definition set_chat_display (d : list Message) (st : State) : State :=
  mkState (chat_history st) (max_history_size st) d (message_entry st)
          (char_counter st) (status_label st) (after_queue st)
          (message_callback st) (sent st).

Definition set_message_entry (e : string) (st : State) : State :=
  mkState (chat_history st) (max_history_size st) (chat_display st) e
          (char_counter st) (status_label st) (after_queue st)
          (message_callback st) (sent st).

Definition set_char_counter (l : Label) (st : State) : State :=
  mkState (chat_history st) (max_history_size st) (chat_display st)
          (message_entry st) l (status_label st) (after_queue st)
          (message_callback st) (sent st).

Definition set_status_label (l : Label) (st : State) : State :=
  mkState (chat_history st) (max_history_size st) (chat_display st)
          (message_entry st) (char_counter st) l (after_queue st)
          (message_callback st) (sent st).

Definition set_after_queue (q : list (Z * Deferred)) (st : State) : State :=
  mkState (chat_history st) (max_history_size st) (chat_display st)
          (message_entry st) (char_counter st) (status_label st) q
          (message_callback st) (sent st).

Definition set_sent (l : list string) (st : State) : State :=
  mkState (chat_history st) (max_history_size st) (chat_display st)
          (message_entry st) (char_counter st) (status_label st)
          (after_queue st) (message_callback st) l.

Definition set_message_callback (cb : string -> result unit) (st : State)
  : State :=
  mkState (chat_history st) (max_history_size st) (chat_display st)
          (message_entry st) (char_counter st) (status_label st)
          (after_queue st) (Some cb) (sent st).

Definition _show_status (msg : string) (is_error : bool) (st : State) : State :=
  let color := if is_error then "red" else "green" in
  let st := set_status_label (mkLabel msg color) st in
  set_after_queue (Tk.after (after_queue st) 3000 StatusReady) st.

Definition _update_char_counter (st : State) : State :=
  let current_length := String.length (message_entry st) in
  let txt := (str_of_Z (Z.of_nat current_length) ++ "/1000")%string in
  let color := if 900 <? current_length then "red"
               else if 800 <? current_length then "orange"
               else "black" in
  set_char_counter (mkLabel txt color) st.

(** Calling the registered callback: the call is recorded, and its
    exception, if any, is raised to the caller. *)
Definition call_message_callback (cb : string -> result unit) (arg : string)
  : M State unit :=
  modify (fun st => set_sent (sent st ++ [arg]) st) ;;;
  lift (cb arg).

Definition _send_message : M State unit :=
  st <- get ;;
  let message_text := strip (message_entry st) in
  if negb (str_truthy message_text) then
    modify (_show_status "Cannot send empty message" true)
  else if 1000 <? String.length message_text then
    modify (_show_status "Message too long (max 1000 characters)" true)
  else
    match message_callback st with
    | Some cb =>
        try_except
          (call_message_callback cb message_text ;;;
           modify (set_message_entry "") ;;;
           modify _update_char_counter ;;;
           modify (_show_status "Message sent" false))
          (fun e =>
             modify (_show_status
                       ("Failed to send message: " ++ str_of_exn e)%string
                       true))
    | None => modify (_show_status "Not connected" true)
    end.

(** [_display_message]: the entry is rendered at the end of the text
    widget. *)
Definition _display_message (message_entry : Message) (st : State) : State :=
  set_chat_display (chat_display st ++ [message_entry]) st.

(** [add_message]; [now] is what [datetime.now()] returns. *)
Definition add_message (now : Z) (username message : string)
    (timestamp : option Z) (is_own_message : bool) (message_type : string)
    (st : State) : State :=
  let timestamp := match timestamp with None => now | Some t => t end in
  let message_entry :=
    mkMessage username message timestamp is_own_message message_type in
  let st := set_chat_history (chat_history st ++ [message_entry]) st in
  let st :=
    if max_history_size st <? List.length (chat_history st)
    then set_chat_history
           (slice_last (max_history_size st) (chat_history st)) st
    else st in
  _display_message message_entry st.

Definition add_system_message (now : Z) (message : string)
    (timestamp : option Z) : State -> State :=
  add_message now "System" message timestamp false "system".

Definition add_error_message (now : Z) (message : string)
    (timestamp : option Z) : State -> State :=
  add_message now "Error" message timestamp false "error".

(** A dict of the list handed to [load_chat_history]: it comes from a
    caller, and any of the five keys may be missing. *)
Record Entry : Type := mkEntry {
  entry_username : option string;
  entry_message : option string;
  entry_timestamp : option Z;
  entry_is_own_message : option bool;
  entry_message_type : option string
}.

(** The dict [add_message] builds. *)
Definition entry_of_message (m : Message) : Entry :=
  mkEntry (Some (username m)) (Some (message m)) (Some (timestamp m))
          (Some (is_own_message m)) (Some (message_type m)).

(** The reads at the top of [_display_message]: ['username'], ['message']
    and ['timestamp'] raise KeyError on a dict without the key, before
    anything is drawn; 'is_own_message' and 'message_type' are read with
    [.get] and the defaults [False] and 'chat'.  The frame reads a stored
    dict in no other way, so a dict is kept here as what these reads give. *)
Definition read_message (message_entry : Entry) : result Message :=
  match entry_username message_entry with
  | None => Raise (OtherException "'username'")
  | Some username =>
      match entry_message message_entry with
      | None => Raise (OtherException "'message'")
      | Some message =>
          match entry_timestamp message_entry with
          | None => Raise (OtherException "'timestamp'")
          | Some timestamp =>
              Ok (mkMessage username message timestamp
                    (Tk.with_default (entry_is_own_message message_entry)
                                     false)
                    (Tk.with_default (entry_message_type message_entry)
                                     "chat"))
          end
      end
  end.

(** [datetime.min], from which timestamps are counted. *)
Definition datetime_min : Z := 0.

(** [lambda x: x.get('timestamp', datetime.min)] *)
Definition sort_key (x : Entry) : Z :=
  Tk.with_default (entry_timestamp x) datetime_min.

(** [sorted(history, key=...)]: a stable sort. *)
Fixpoint insert_by_timestamp (m : Entry) (l : list Entry) : list Entry :=
  match l with
  | [] => [m]
  | x :: l' =>
      if (sort_key m <? sort_key x)%Z then m :: l
      else x :: insert_by_timestamp m l'
  end.

Definition sorted_by_timestamp (l : list Entry) : list Entry :=
  fold_left (fun acc m => insert_by_timestamp m acc) l [].

(** The list object passed as [history]: the frame's own [chat_history]
    list, or another list. *)
Inductive HistoryArg : Type :=
| OwnHistory
| Entries (entries : list Entry).

(** What the list passed as [history] holds when the frame is in state
    [st]. *)
Definition contents (history : HistoryArg) (st : State) : list Entry :=
  match history with
  | OwnHistory => map entry_of_message (chat_history st)
  | Entries entries => entries
  end.

(** "Display each message": the loop of [load_chat_history]. *)
Fixpoint display_each (sorted_history : list Entry) : M State unit :=
  match sorted_history with
  | [] => ret tt
  | message_entry :: rest =>
      m <- lift (read_message message_entry) ;;
      modify (_display_message m) ;;;
      modify (fun st => set_chat_history (chat_history st ++ [m]) st) ;;;
      display_each rest
  end.

(** [load_chat_history]: the history is cleared in place before the list
    passed in is read, so the frame's own list arrives empty. *)
Definition load_chat_history (history : HistoryArg) : M State unit :=
  modify (set_chat_display []) ;;;
  modify (set_chat_history []) ;;;
  st <- get ;;
  let sorted_history := sorted_by_timestamp (contents history st) in
  display_each sorted_history ;;;
  st <- get ;;
  modify (_show_status
            ("Loaded "
               ++ str_of_Z (Z.of_nat (List.length (contents history st)))
               ++ " messages from history")%string
            false).

(** The operations that add messages, as the external layer calls them. *)
Inductive Op : Type :=
| OpAddMessage (now : Z) (username message : string) (timestamp : option Z)
    (is_own_message : bool) (message_type : string)
| OpAddSystemMessage (now : Z) (message : string) (timestamp : option Z)
| OpAddErrorMessage (now : Z) (message : string) (timestamp : option Z)
| OpLoadChatHistory (history : HistoryArg).

Definition run_op (op : Op) (st : State) : State :=
  match op with
  | OpAddMessage now u m t own ty => add_message now u m t own ty st
  | OpAddSystemMessage now m t => add_system_message now m t st
  | OpAddErrorMessage now m t => add_error_message now m t st
  | OpLoadChatHistory h => exec (load_chat_history h) st
  end.

Definition run_ops (ops : list Op) (st : State) : State :=
  fold_left (fun st op => run_op op st) ops st.

Definition is_load (op : Op) : bool :=
  match op with OpLoadChatHistory _ => true | _ => false end.

(** ** States used as examples *)

(** A history of 501 entries, all stamped 0. *)
Definition long_history : HistoryArg :=
  Entries (repeat (entry_of_message (mkMessage "alice" "hi" 0 false "chat"))
                  501).

(** A frame whose entry holds a padded text, with a callback that either
    accepts the message or fails. *)
Definition typing (cb : string -> result unit) : State :=
  set_message_entry "  hello " (set_message_callback cb init).

Definition accepting : string -> result unit := fun _ => Ok tt.
Definition failing : string -> result unit :=
  fun _ => Raise (OtherException "connection lost").

End ChatFrame.

(* ================================================================== *)
(** * VideoFrame *)
(* ================================================================== *)

Module VideoFrame.
Import Py PyNotations.

(** One entry of [self.video_slots].  Of the slot's frame widget only its
    liveness is observed; the labels packed into it are not modelled. *)
Record Slot : Type := mkSlot {
  frame : Tk.liveness;
  participant_id : option string;
  active : bool
}.

(** A value of the [participants] mapping; [None] is a missing key. *)
Record Participant : Type := mkParticipant {
  client_id : option string;
  username : option string;
  video_enabled : option bool
}.

(** A value of [self.participant_videos]. *)
Record ParticipantInfo : Type := mkInfo {
  info_username : option string;
  info_video_enabled : option bool
}.

Record State : Type := mkState {
  video_slots : list Slot;      (* keys 0 .. len-1, in this order *)
  participant_videos : list (string * ParticipantInfo)
}.

(** [_create_video_slots], on the empty dict of [__init__]. *)
Definition _create_video_slots : list Slot :=
  map (fun i => mkSlot Tk.Alive
                       (if i =? 0 then Some "local" else None) false)
      (seq 0 4).

Definition init : State := mkState _create_video_slots [].

Definition set_video_slots (v : list Slot) (st : State) : State :=
  mkState v (participant_videos st).

Definition set_participant_videos (p : list (string * ParticipantInfo))
    (st : State) : State :=
  mkState (video_slots st) p.

Definition frame_widget (s : Slot) : Tk.obj :=
  Tk.OWidget (Tk.mkWidget (frame s) "" "" "").

(** [_widget_exists]: both handlers return [False]. *)
Definition _widget_exists (widget : Tk.obj) : result bool :=
  let body :=
    match widget with
    | Tk.ONone => Ok false
    | _ => Tk.obj_winfo_exists widget
    end in
  match body with
  | Ok b => Ok b
  | Raise e =>
      if is_TclError e || is_AttributeError e then Ok false else Ok false
  end.

(** The truth value an [if self._widget_exists(...)] tests. *)
Definition widget_exists (widget : Tk.obj) : bool :=
  match _widget_exists widget with Ok b => b | Raise _ => false end.

Definition is_None {A} (o : option A) : bool :=
  match o with None => true | Some _ => false end.

(** [slots[i] = f(slots[i])] *)
Fixpoint update_slot (slots : list Slot) (i : nat) (f : Slot -> Slot)
  : list Slot :=
  match slots, i with
  | [], _ => []
  | s :: r, O => f s :: r
  | s :: r, S i' => s :: update_slot r i' f
  end.

(** [for slot_id, slot in self.video_slots.items():
       if slot.get('participant_id') == client_id: return slot_id],
    counting from [i]. *)
Fixpoint find_participant (slots : list Slot) (i : nat) (client_id : string)
  : option nat :=
  match slots with
  | [] => None
  | s :: r =>
      if opt_string_eqb (participant_id s) (Some client_id) then Some i
      else find_participant r (S i) client_id
  end.

(** [for slot_id in preferred_slots: ...] *)
Fixpoint first_preferred (slots : list Slot) (preferred_slots : list nat)
  : option nat :=
  match preferred_slots with
  | [] => None
  | slot_id :: rest =>
      match nth_error slots slot_id with
      | Some slot =>
          if negb (active slot) || is_None (participant_id slot)
          then Some slot_id
          else first_preferred slots rest
      | None => first_preferred slots rest
      end
  end.

(** [for slot_id in range(1, len(self.video_slots)): ...] *)
Fixpoint first_inactive (slots : list Slot) (range : list nat) : option nat :=
  match range with
  | [] => None
  | slot_id :: rest =>
      match nth_error slots slot_id with
      | Some slot =>
          if negb (active slot) then Some slot_id
          else first_inactive slots rest
      | None => None  (* [KeyError], turned into [None] by the handler *)
      end
  end.

(** [_get_video_slot_stable]; the result [None] is Python's [None]. *)
Definition _get_video_slot_stable (client_id : string) (slots : list Slot)
  : option nat :=
  match find_participant slots 0 client_id with
  | Some slot_id => Some slot_id
  | None =>
      let preferred :=
        if negb (String.eqb client_id "local")
        then first_preferred slots [1; 3; 2]
        else None in
      match preferred with
      | Some slot_id => Some slot_id
      | None => first_inactive slots (seq 1 (List.length slots - 1))
      end
  end.

(** [update_participant_info] *)
Definition update_participant_info (client_id : string)
    (username : option string) (video_enabled : option bool)
    (pv : list (string * ParticipantInfo)) : list (string * ParticipantInfo) :=
  let old := match dict_get pv client_id with
             | Some i => i
             | None => mkInfo None None
             end in
  let i1 := match username with
            | Some u => mkInfo (Some u) (info_video_enabled old)
            | None => old
            end in
  let i2 := match video_enabled with
            | Some v => mkInfo (info_username i1) (Some v)
            | None => i1
            end in
  dict_set pv client_id i2.

(** The first loop of [update_video_feeds]. *)
Definition record_participants (participants : list (string * Participant))
    (pv : list (string * ParticipantInfo)) : list (string * ParticipantInfo) :=
  fold_left
    (fun pv kv =>
       let '(participant_id, participant_info) := kv in
       let username := Tk.with_default (username participant_info) "" in
       let video_enabled :=
         Tk.with_default (video_enabled participant_info) false in
       update_participant_info participant_id (Some username)
                               (Some video_enabled) pv)
    participants pv.

(** "Clear all remote slots first to prevent duplicates", counting slot
    ids from [i]. *)
Fixpoint clear_remote_slots (slots : list Slot) (i : nat) : list Slot :=
  match slots with
  | [] => []
  | slot :: r =>
      (if (0 <? i) && widget_exists (frame_widget slot)
       then mkSlot (frame slot) None false
       else slot) :: clear_remote_slots r (S i)
  end.

Definition mem_id (p : option string) (assigned : list (option string))
  : bool :=
  existsb (opt_string_eqb p) assigned.

(** The assignment loop of [update_video_feeds], with its local variables
    [assigned_participants] and [slot_index]. *)
Fixpoint assign_loop (active_participants : list Participant)
    (assigned_participants : list (option string)) (slot_index : nat)
    (slots : list Slot) : list (option string) * nat * list Slot :=
  match active_participants with
  | [] => (assigned_participants, slot_index, slots)
  | participant :: rest =>
      let participant_id := client_id participant in
      if mem_id participant_id assigned_participants
         || (List.length slots <=? slot_index)
      then assign_loop rest assigned_participants slot_index slots
      else
        assign_loop rest (participant_id :: assigned_participants)
          (S slot_index)
          (update_slot slots slot_index
             (fun slot => mkSlot (frame slot) participant_id true))
  end.

Definition active_participants (participants : list (string * Participant))
  : list Participant :=
  filter (fun p => Tk.with_default (video_enabled p) false)
         (dict_values participants).

Definition update_video_feeds (participants : list (string * Participant))
    (st : State) : State :=
  let st := set_participant_videos
              (record_participants participants (participant_videos st)) st in
  let slots := clear_remote_slots (video_slots st) 0 in
  let '(_, _, slots) :=
    assign_loop (active_participants participants) [] 1 slots in
  set_video_slots slots st.

(** [update_remote_video]; drawing the frame does not touch the slot
    dicts. *)
Definition update_remote_video (client_id : string) (st : State) : State :=
  let video_enabled :=
    match dict_get (participant_videos st) client_id with
    | Some info => Tk.with_default (info_video_enabled info) true
    | None => true
    end in
  if negb video_enabled then st
  else
    match _get_video_slot_stable client_id (video_slots st) with
    | Some slot_id =>
        if slot_id <? List.length (video_slots st)
        then set_video_slots
               (update_slot (video_slots st) slot_id
                  (fun slot => mkSlot (frame slot) (Some client_id) true)) st
        else st
    | None => st
    end.

(** [_clear_local_video_slot] *)
Definition _clear_local_video_slot (st : State) : State :=
  match nth_error (video_slots st) 0 with
  | Some slot =>
      if widget_exists (frame_widget slot)
      then set_video_slots
             (update_slot (video_slots st) 0
                (fun slot => mkSlot (frame slot) (Some "local") false)) st
      else st
  | None => st
  end.

(** [clear_remote_video_slot] *)
Definition clear_remote_video_slot (client_id : string) (st : State) : State :=
  match find_participant (video_slots st) 0 client_id with
  | Some slot_id =>
      match nth_error (video_slots st) slot_id with
      | Some slot =>
          if widget_exists (frame_widget slot)
          then set_video_slots
                 (update_slot (video_slots st) slot_id
                    (fun slot => mkSlot (frame slot) None false)) st
          else st
      | None => st
      end
  | None => st
  end.

(** [clear_video_slot]; [managers_ok] tells whether the two calls into the
    external stability managers return. *)
Definition clear_video_slot (managers_ok : bool) (client_id : string)
    (st : State) : State :=
  if negb managers_ok then st
  else
    match find_participant (video_slots st) 0 client_id with
    | Some slot_id =>
        match nth_error (video_slots st) slot_id with
        | Some slot =>
            if widget_exists (frame_widget slot)
            then set_video_slots
                   (update_slot (video_slots st) slot_id
                      (fun slot =>
                         mkSlot (frame slot)
                                (if slot_id =? 0 then Some "local" else None)
                                false)) st
            else st
        | None => st
        end
    | None => st
    end.

(** Everything that changes [video_slots] after construction, the toolkit
    destroying a slot frame included. *)
Inductive Op : Type :=
| OpUpdateVideoFeeds (participants : list (string * Participant))
| OpUpdateRemoteVideo (client_id : string)
| OpUpdateParticipantInfo (client_id : string) (username : option string)
    (video_enabled : option bool)
| OpClearLocalVideoSlot
| OpClearRemoteVideoSlot (client_id : string)
| OpClearVideoSlot (managers_ok : bool) (client_id : string)
| OpFrameGone (slot_id : nat) (l : Tk.liveness).

Definition run_op (op : Op) (st : State) : State :=
  match op with
  | OpUpdateVideoFeeds p => update_video_feeds p st
  | OpUpdateRemoteVideo c => update_remote_video c st
  | OpUpdateParticipantInfo c u v =>
      set_participant_videos
        (update_participant_info c u v (participant_videos st)) st
  | OpClearLocalVideoSlot => _clear_local_video_slot st
  | OpClearRemoteVideoSlot c => clear_remote_video_slot c st
  | OpClearVideoSlot ok c => clear_video_slot ok c st
  | OpFrameGone i l =>
      set_video_slots
        (update_slot (video_slots st) i
           (fun slot => mkSlot l (participant_id slot) (active slot))) st
  end.

Inductive reachable : State -> Prop :=
| reach_init : reachable init
| reach_step : forall st op, reachable st -> reachable (run_op op st).

(** ** Vocabulary of the slot claims *)

(** Slot [i] holds client [c]. *)
Definition holds (slots : list Slot) (i : nat) (c : string) : Prop :=
  exists s, nth_error slots i = Some s /\ participant_id s = Some c.

(** Slot [i] is inactive or has no participant. *)
Definition available (slots : list Slot) (i : nat) : Prop :=
  exists s, nth_error slots i = Some s
            /\ (active s = false \/ participant_id s = None).

(** Slot [i] is occupied by a client other than [c]. *)
Definition occupied_by_other (slots : list Slot) (i : nat) (c : string)
  : Prop :=
  exists s p, nth_error slots i = Some s /\ active s = true
              /\ participant_id s = Some p /\ p <> c.

(** [s] is [l] with some elements left out, the order kept. *)
Inductive subseq {A : Type} : list A -> list A -> Prop :=
| subseq_nil : forall l, subseq [] l
| subseq_skip : forall x s l, subseq s l -> subseq s (x :: l)
| subseq_take : forall x s l, subseq s l -> subseq (x :: s) (x :: l).

(** The well-formedness that every reachable state has: four slots, the
    first of which holds 'local' or nobody. *)
Definition wf (slots : list Slot) : Prop :=
  List.length slots = 4
  /\ exists s0, nth_error slots 0 = Some s0
                /\ (participant_id s0 = None
                    \/ participant_id s0 = Some "local").

(** Two participants with their cameras on, one without. *)
Definition three_participants : list (string * Participant) :=
  [ ("a", mkParticipant (Some "a") (Some "Ann") (Some true));
    ("b", mkParticipant (Some "b") (Some "Bob") (Some false));
    ("c", mkParticipant (Some "c") (Some "Cy") (Some true)) ].

End VideoFrame.

(* ================================================================== *)
(** * AudioFrame *)
(* ================================================================== *)

Module AudioFrame.
Import Py PyNotations.

(** A [ttk.Button] of the status row; the frame never checks that its
    buttons still exist, and neither does the model. *)
Record Button : Type := mkButton { text : string; state : string }.

(** A call out of the frame into the external layer. *)
Inductive Call : Type :=
| AudioCallback (arg : bool)
| MuteCallback (arg : bool).

Record State : Type := mkState {
  enabled : bool;
  muted : bool;
  audio_button : Button;
  mute_button : Button;
  level_bar : spec_float;              (* [level_bar['value']] *)
  audio_callback : option (bool -> result unit);
  mute_callback : option (bool -> result unit);
  calls : list Call                    (* calls made so far, in order *)
}.

(** [AudioFrame.__init__] *)
Definition init : State :=
  mkState false false (mkButton "Enable Audio" "normal")
          (mkButton "Mute" "disabled") (S754_zero false) None None [].

Definition set_enabled (b : bool) (st : State) : State :=
  mkState b (muted st) (audio_button st) (mute_button st) (level_bar st)
          (audio_callback st) (mute_callback st) (calls st).

Definition set_muted (b : bool) (st : State) : State :=
  mkState (enabled st) b (audio_button st) (mute_button st) (level_bar st)
          (audio_callback st) (mute_callback st) (calls st).

Definition set_audio_button (w : Button) (st : State) : State :=
  mkState (enabled st) (muted st) w (mute_button st) (level_bar st)
          (audio_callback st) (mute_callback st) (calls st).

Definition set_mute_button (w : Button) (st : State) : State :=
  mkState (enabled st) (muted st) (audio_button st) w (level_bar st)
          (audio_callback st) (mute_callback st) (calls st).

Definition set_level_bar (v : spec_float) (st : State) : State :=
  mkState (enabled st) (muted st) (audio_button st) (mute_button st) v
          (audio_callback st) (mute_callback st) (calls st).

Definition set_calls (l : list Call) (st : State) : State :=
  mkState (enabled st) (muted st) (audio_button st) (mute_button st)
          (level_bar st) (audio_callback st) (mute_callback st) l.

Definition set_audio_callback (callback : bool -> result unit) (st : State)
  : State :=
  mkState (enabled st) (muted st) (audio_button st) (mute_button st)
          (level_bar st) (Some callback) (mute_callback st) (calls st).

Definition set_mute_callback (callback : bool -> result unit) (st : State)
  : State :=
  mkState (enabled st) (muted st) (audio_button st) (mute_button st)
          (level_bar st) (audio_callback st) (Some callback) (calls st).

(** [if cb: cb(arg)]: the call is recorded, its exception propagates. *)
Definition invoke (cb : option (bool -> result unit)) (tag : bool -> Call)
    (arg : bool) : M State unit :=
  match cb with
  | Some f =>
      modify (fun st => set_calls (calls st ++ [tag arg]) st) ;;;
      lift (f arg)
  | None => ret tt
  end.

Definition _toggle_audio : M State unit :=
  modify (fun st => set_enabled (negb (enabled st)) st) ;;;
  st <- get ;;
  let button_text := if enabled st then "Disable Audio" else "Enable Audio" in
  modify (fun st =>
            set_audio_button (mkButton button_text (state (audio_button st)))
                             st) ;;;
  let mute_state := if enabled st then "normal" else "disabled" in
  modify (fun st =>
            set_mute_button (mkButton (text (mute_button st)) mute_state) st) ;;;
  st <- get ;;
  invoke (audio_callback st) AudioCallback (enabled st && negb (muted st)).

Definition _toggle_mute : M State unit :=
  modify (fun st => set_muted (negb (muted st)) st) ;;;
  st <- get ;;
  let button_text := if muted st then "Unmute" else "Mute" in
  modify (fun st =>
            set_mute_button (mkButton button_text (state (mute_button st)))
                            st) ;;;
  st <- get ;;
  invoke (mute_callback st) MuteCallback (muted st) ;;;
  st <- get ;;
  invoke (audio_callback st) AudioCallback (enabled st && negb (muted st)).

(** [update_audio_level] *)
Definition update_audio_level (level : spec_float) (st : State) : State :=
  set_level_bar (fmul level (float_of_int 100)) st.

Inductive Op : Type :=
| OpSetAudioCallback (callback : bool -> result unit)
| OpSetMuteCallback (callback : bool -> result unit)
| OpToggleAudio
| OpToggleMute
| OpUpdateAudioLevel (level : spec_float).

Definition run_op (op : Op) (st : State) : State :=
  match op with
  | OpSetAudioCallback f => set_audio_callback f st
  | OpSetMuteCallback f => set_mute_callback f st
  | OpToggleAudio => exec _toggle_audio st
  | OpToggleMute => exec _toggle_mute st
  | OpUpdateAudioLevel level => update_audio_level level st
  end.

Inductive reachable : State -> Prop :=
| reach_init : reachable init
| reach_step : forall st op, reachable st -> reachable (run_op op st).

(** The mute button follows [enabled]. *)
Definition mute_button_follows (st : State) : Prop :=
  state (mute_button st) = if enabled st then "normal" else "disabled".

(** The first click on "Enable Audio", with a callback registered. *)
Definition listening : State := set_audio_callback (fun _ => Ok tt) init.

End AudioFrame.

(* ================================================================== *)
(** * FileTransferFrame *)
(* ================================================================== *)

Module FileTransferFrame.
Import Py PyNotations.

Record FileInfo : Type := mkFileInfo {
  filename : string;
  filesize : Z;
  uploader : string
}.

Record State : Type := mkState {
  shared_files : list (string * FileInfo);  (* file_id -> info *)
  file_listbox : list string                (* the lines of the listbox *)
}.

Definition init : State := mkState [] [].

(** [f"{filesize / 2**k:.1f}"] *)
Definition quotient_1f (filesize k : Z) : result string :=
  match truediv_pow2 filesize k with
  | Ok x => Ok (format_1f x)
  | Raise e => Raise e
  end.

(** "Format file size"; 1024 is [2^10] and 1024 * 1024 is [2^20]. *)
Definition size_str (filesize : Z) : result string :=
  if (filesize <? 1024)%Z then
    match str_int filesize with
    | Ok digits => Ok (digits ++ " B")%string
    | Raise e => Raise e
    end
  else if (filesize <? 1024 * 1024)%Z then
    match quotient_1f filesize 10 with
    | Ok tenths => Ok (tenths ++ " KB")%string
    | Raise e => Raise e
    end
  else
    match quotient_1f filesize 20 with
    | Ok tenths => Ok (tenths ++ " MB")%string
    | Raise e => Raise e
    end.

Definition display_text (file_info : FileInfo) : result string :=
  match size_str (filesize file_info) with
  | Ok size_str =>
      Ok (filename file_info ++ " (" ++ size_str ++ ") - "
            ++ uploader file_info)%string
  | Raise e => Raise e
  end.

Definition set_file_listbox (box : list string) (st : State) : State :=
  mkState (shared_files st) box.

Definition set_shared_files (d : list (string * FileInfo)) (st : State)
  : State :=
  mkState d (file_listbox st).

(** The loop of [_update_file_list]: a size that cannot be formatted ends
    it with the lines inserted so far. *)
Fixpoint insert_lines (items : list (string * FileInfo)) : M State unit :=
  match items with
  | [] => ret tt
  | (_, file_info) :: rest =>
      display_text <- lift (display_text file_info) ;;
      modify (fun st => set_file_listbox (file_listbox st ++ [display_text])
                                         st) ;;;
      insert_lines rest
  end.

Definition _update_file_list : M State unit :=
  modify (set_file_listbox []) ;;;
  st <- get ;;
  insert_lines (shared_files st).

Definition add_shared_file (file_id filename : string) (filesize : Z)
    (uploader : string) : M State unit :=
  modify (fun st =>
            set_shared_files
              (dict_set (shared_files st) file_id
                        (mkFileInfo filename filesize uploader)) st) ;;;
  _update_file_list.

Inductive reachable : State -> Prop :=
| reach_init : reachable init
| reach_add : forall st file_id filename filesize uploader,
    reachable st ->
    reachable (exec (add_shared_file file_id filename filesize uploader) st).

(** Number of entries of the mapping stored under [file_id]. *)
Definition count_id (file_id : string) (d : list (string * FileInfo)) : nat :=
  List.length (filter (fun kv => String.eqb (fst kv) file_id) d).

(** Position of [file_id] among the keys. *)
Fixpoint index_of (file_id : string) (d : list (string * FileInfo)) : nat :=
  match d with
  | [] => 0
  | (k, _) :: r => if String.eqb k file_id then 0 else S (index_of file_id r)
  end.

(** ** The size as the claim words it *)

(** [num / den] rounded to an integer, to the nearest one and to the even
    one of two that are equally near ([0 <= num], [0 < den]). *)
Definition round_half_even (num den : Z) : Z :=
  let q := (num / den)%Z in
  let r := (num mod den)%Z in
  match Z.compare (2 * r) den with
  | Lt => q
  | Gt => (q + 1)%Z
  | Eq => if Z.even q then q else (q + 1)%Z
  end.

(** "[num / den] to one decimal": the tenths, written with a point before
    the last digit. *)
Definition to_one_decimal (num den : Z) : string :=
  let tenths := round_half_even (10 * num) den in
  (str_of_Z (tenths / 10) ++ "." ++ str_of_Z (tenths mod 10))%string.

(** Sizes below [2^53] bytes (8 PiB) in absolute value: what a file can
    have. *)
Definition plausible (filesize : Z) : Prop := (Z.abs filesize < 2 ^ 53)%Z.

(** The lines of the files up to the first one whose size cannot be
    formatted. *)
Fixpoint rendered (d : list (string * FileInfo)) : list string :=
  match d with
  | [] => []
  | (_, file_info) :: r =>
      match display_text file_info with
      | Ok line => line :: rendered r
      | Raise _ => []
      end
  end.

(** Every file has its line. *)
Definition complete (st : State) : Prop :=
  List.length (file_listbox st) = List.length (shared_files st).

(** ** A frame used as example: one file, shared by "ann" *)

Definition one_file : State :=
  exec (add_shared_file "f1" "notes.txt" 900 "ann") init.

End FileTransferFrame.

(* ================================================================== *)
(** * ScreenShareFrame *)
(* ================================================================== *)

Module ScreenShareFrame.
Import Py PyNotations.

(** An instance attribute that may not have been assigned yet
    ([hasattr]). *)
Inductive Attr (A : Type) : Type :=
| Missing
| Present (a : A).
Arguments Missing {A}.
Arguments Present {A} a.

(** What is drawn on the canvas. *)
Inductive Item : Type :=
| ImageItem (x y width height : Z)
| TextItem (x y : Z) (text : string).

Record Canvas : Type := mkCanvas {
  cv_live : Tk.liveness;
  cv_packed : bool;
  cv_items : list (Z * Item);    (* item id -> item *)
  cv_next_id : Z
}.

(** The frame bytes, as far as [Image.open] tells them apart. *)
Inductive FrameData : Type :=
| Undecodable
| Picture (width height : Z).

(** The attributes that cache the scaling of incoming frames. *)
Record Cache : Type := mkCache {
  _cached_canvas_size : Attr (option (Z * Z));
  _cached_scale : Attr (option spec_float);
  _cached_scale_key : Attr (option string);
  _cached_dimensions : Attr (option (Z * Z));
  _last_image_id : Attr (option Z)
}.

Definition no_cache : Cache := mkCache Missing Missing Missing Missing Missing.

Definition reset_cache : Cache :=
  mkCache (Present None) (Present None) (Present None) (Present None)
          (Present None).

Definition set_cached_canvas_size (v : Attr (option (Z * Z))) (c : Cache)
  : Cache :=
  mkCache v (_cached_scale c) (_cached_scale_key c) (_cached_dimensions c)
          (_last_image_id c).

Definition set_cached_scale (v : Attr (option spec_float)) (c : Cache)
  : Cache :=
  mkCache (_cached_canvas_size c) v (_cached_scale_key c)
          (_cached_dimensions c) (_last_image_id c).

Definition set_cached_scale_key (v : Attr (option string)) (c : Cache)
  : Cache :=
  mkCache (_cached_canvas_size c) (_cached_scale c) v (_cached_dimensions c)
          (_last_image_id c).

Definition set_cached_dimensions (v : Attr (option (Z * Z))) (c : Cache)
  : Cache :=
  mkCache (_cached_canvas_size c) (_cached_scale c) (_cached_scale_key c) v
          (_last_image_id c).

Definition set_last_image_id (v : Attr (option Z)) (c : Cache) : Cache :=
  mkCache (_cached_canvas_size c) (_cached_scale c) (_cached_scale_key c)
          (_cached_dimensions c) v.

(** A call registered with [self.after]. *)
Inductive Deferred : Type :=
| ResetPresenterRequestTimeout
| StatusLabelUpdate (kw : Tk.Options).

(** What the window system reports during one call. *)
Record Env : Type := mkEnv {
  canvas_viewable : bool;   (* [screen_canvas.winfo_viewable()] *)
  label_viewable : bool;    (* [screen_label.winfo_viewable()] *)
  winfo_width : Z;          (* [screen_canvas.winfo_width()] *)
  winfo_height : Z;         (* [screen_canvas.winfo_height()] *)
  render_ok : bool          (* [resize] and [PhotoImage] succeed *)
}.

Record State : Type := mkState {
  enabled : bool;
  is_sharing : bool;
  current_presenter_name : option string;
  share_button : Tk.Widget;
  sharing_status : Tk.Widget;
  screen_label : Tk.Widget;
  screen_label_packed : bool;  (* the label is packed (shown) *)
  screen_canvas : Canvas;
  current_frame_data : option FrameData;
  current_presenter : option string;
  cache : Cache;  (* [_cached_*], [_last_image_id] *)
  local_cache : Cache;  (* [_cached_local_*], [_local_image_id] *)
  screen_share_callback : option (bool -> result unit);
  requests : list bool;  (* calls made to the callback, in order *)
  after_queue : list (Z * Deferred)
}.

Definition set_enabled (v : bool) (st : State) : State :=
  mkState v (is_sharing st) (current_presenter_name st) (share_button st)
          (sharing_status st) (screen_label st) (screen_label_packed st)
          (screen_canvas st) (current_frame_data st) (current_presenter st)
          (cache st) (local_cache st) (screen_share_callback st)
          (requests st) (after_queue st).

Definition set_is_sharing (v : bool) (st : State) : State :=
  mkState (enabled st) v (current_presenter_name st) (share_button st)
          (sharing_status st) (screen_label st) (screen_label_packed st)
          (screen_canvas st) (current_frame_data st) (current_presenter st)
          (cache st) (local_cache st) (screen_share_callback st)
          (requests st) (after_queue st).

Definition set_current_presenter_name (v : option string) (st : State) : State :=
  mkState (enabled st) (is_sharing st) v (share_button st)
          (sharing_status st) (screen_label st) (screen_label_packed st)
          (screen_canvas st) (current_frame_data st) (current_presenter st)
          (cache st) (local_cache st) (screen_share_callback st)
          (requests st) (after_queue st).

Definition set_share_button (v : Tk.Widget) (st : State) : State :=
  mkState (enabled st) (is_sharing st) (current_presenter_name st) v
          (sharing_status st) (screen_label st) (screen_label_packed st)
          (screen_canvas st) (current_frame_data st) (current_presenter st)
          (cache st) (local_cache st) (screen_share_callback st)
          (requests st) (after_queue st).

Definition set_sharing_status_label (v : Tk.Widget) (st : State) : State :=
  mkState (enabled st) (is_sharing st) (current_presenter_name st)
          (share_button st) v (screen_label st) (screen_label_packed st)
          (screen_canvas st) (current_frame_data st) (current_presenter st)
          (cache st) (local_cache st) (screen_share_callback st)
          (requests st) (after_queue st).

Definition set_screen_label (v : Tk.Widget) (st : State) : State :=
  mkState (enabled st) (is_sharing st) (current_presenter_name st)
          (share_button st) (sharing_status st) v (screen_label_packed st)
          (screen_canvas st) (current_frame_data st) (current_presenter st)
          (cache st) (local_cache st) (screen_share_callback st)
          (requests st) (after_queue st).

Definition set_screen_label_packed (v : bool) (st : State) : State :=
  mkState (enabled st) (is_sharing st) (current_presenter_name st)
          (share_button st) (sharing_status st) (screen_label st) v
          (screen_canvas st) (current_frame_data st) (current_presenter st)
          (cache st) (local_cache st) (screen_share_callback st)
          (requests st) (after_queue st).

Definition set_screen_canvas (v : Canvas) (st : State) : State :=
  mkState (enabled st) (is_sharing st) (current_presenter_name st)
          (share_button st) (sharing_status st) (screen_label st)
          (screen_label_packed st) v (current_frame_data st)
          (current_presenter st) (cache st) (local_cache st)
          (screen_share_callback st) (requests st) (after_queue st).

Definition set_current_frame_data (v : option FrameData) (st : State) : State :=
  mkState (enabled st) (is_sharing st) (current_presenter_name st)
          (share_button st) (sharing_status st) (screen_label st)
          (screen_label_packed st) (screen_canvas st) v
          (current_presenter st) (cache st) (local_cache st)
          (screen_share_callback st) (requests st) (after_queue st).

Definition set_current_presenter (v : option string) (st : State) : State :=
  mkState (enabled st) (is_sharing st) (current_presenter_name st)
          (share_button st) (sharing_status st) (screen_label st)
          (screen_label_packed st) (screen_canvas st)
          (current_frame_data st) v (cache st) (local_cache st)
          (screen_share_callback st) (requests st) (after_queue st).

Definition set_cache (v : Cache) (st : State) : State :=
  mkState (enabled st) (is_sharing st) (current_presenter_name st)
          (share_button st) (sharing_status st) (screen_label st)
          (screen_label_packed st) (screen_canvas st)
          (current_frame_data st) (current_presenter st) v (local_cache st)
          (screen_share_callback st) (requests st) (after_queue st).

Definition set_local_cache (v : Cache) (st : State) : State :=
  mkState (enabled st) (is_sharing st) (current_presenter_name st)
          (share_button st) (sharing_status st) (screen_label st)
          (screen_label_packed st) (screen_canvas st)
          (current_frame_data st) (current_presenter st) (cache st) v
          (screen_share_callback st) (requests st) (after_queue st).

Definition set_requests (v : list bool) (st : State) : State :=
  mkState (enabled st) (is_sharing st) (current_presenter_name st)
          (share_button st) (sharing_status st) (screen_label st)
          (screen_label_packed st) (screen_canvas st)
          (current_frame_data st) (current_presenter st) (cache st)
          (local_cache st) (screen_share_callback st) v (after_queue st).

Definition set_after_queue (v : list (Z * Deferred)) (st : State) : State :=
  mkState (enabled st) (is_sharing st) (current_presenter_name st)
          (share_button st) (sharing_status st) (screen_label st)
          (screen_label_packed st) (screen_canvas st)
          (current_frame_data st) (current_presenter st) (cache st)
          (local_cache st) (screen_share_callback st) (requests st) v.

Definition set_screen_share_callback (callback : bool -> result unit)
    (st : State) : State :=
  mkState (enabled st) (is_sharing st) (current_presenter_name st)
          (share_button st) (sharing_status st) (screen_label st)
          (screen_label_packed st) (screen_canvas st)
          (current_frame_data st) (current_presenter st) (cache st)
          (local_cache st) (Some callback) (requests st) (after_queue st).
(** [ScreenShareFrame.__init__]; the canvas is packed and hidden again. *)
Definition init : State :=
  mkState false false None
          (Tk.mkWidget Tk.Alive "normal" "Start Screen Share" "")
          (Tk.mkWidget Tk.Alive "normal" "Ready to share" "")
          (Tk.mkWidget Tk.Alive "normal" "No screen sharing active" "white")
          true (mkCanvas Tk.Alive false [] 1) None None
          no_cache no_cache None [] [].

(** [_safe_button_update(button, **kwargs)]; the result is the object
    [button] refers to afterwards. *)
Definition _safe_button_update (button : Tk.obj) (kwargs : Tk.Options)
  : result Tk.obj :=
  let body :=
    if Tk.obj_truthy button then
      match Tk.obj_winfo_exists button with
      | Ok true => Tk.obj_config button kwargs
      | Ok false => Ok button   (* "Attempted to update non-existent button" *)
      | Raise e => Raise e
      end
    else Ok button in
  match body with
  | Ok b => Ok b
  | Raise e => if is_TclError e then Ok button else Ok button
  end.

(** [_safe_label_update(label, **kwargs)] *)
Definition _safe_label_update (label : Tk.obj) (kwargs : Tk.Options)
  : result Tk.obj :=
  let body :=
    if Tk.obj_truthy label then
      match Tk.obj_winfo_exists label with
      | Ok true => Tk.obj_config label kwargs
      | Ok false => Ok label    (* "Attempted to update non-existent label" *)
      | Raise e => Raise e
      end
    else Ok label in
  match body with
  | Ok b => Ok b
  | Raise e => if is_TclError e then Ok label else Ok label
  end.

(** The safe updates applied to a widget attribute of the frame. *)
Definition safe_button (w : Tk.Widget) (kwargs : Tk.Options) : Tk.Widget :=
  match _safe_button_update (Tk.OWidget w) kwargs with
  | Ok (Tk.OWidget w') => w'
  | _ => w
  end.

Definition safe_label (w : Tk.Widget) (kwargs : Tk.Options) : Tk.Widget :=
  match _safe_label_update (Tk.OWidget w) kwargs with
  | Ok (Tk.OWidget w') => w'
  | _ => w
  end.

Definition button_update (state text : string) : M State unit :=
  modify (fun st =>
            set_share_button
              (safe_button (share_button st)
                           (Tk.mkOptions (Some state) (Some text) None)) st).

Definition status_update (text foreground : string) : M State unit :=
  modify (fun st =>
            set_sharing_status_label
              (safe_label (sharing_status st)
                          (Tk.mkOptions None (Some text) (Some foreground))) st).

Definition screen_label_update (text : string) : M State unit :=
  modify (fun st =>
            set_screen_label
              (safe_label (screen_label st)
                          (Tk.mkOptions None (Some text) None)) st).

(** Unguarded toolkit calls: they raise on a widget that is gone. *)
Definition canvas_call {A} (a : A) : M State A :=
  st <- get ;; lift (Tk.call (cv_live (screen_canvas st)) a).

Definition label_call {A} (a : A) : M State A :=
  st <- get ;; lift (Tk.call (Tk.live (screen_label st)) a).

Definition set_canvas_packed (b : bool) (st : State) : State :=
  let c := screen_canvas st in
  set_screen_canvas (mkCanvas (cv_live c) b (cv_items c) (cv_next_id c)) st.

Definition canvas_pack : M State unit :=
  canvas_call tt ;;; modify (set_canvas_packed true).
Definition canvas_pack_forget : M State unit :=
  canvas_call tt ;;; modify (set_canvas_packed false).
Definition label_pack : M State unit :=
  label_call tt ;;; modify (set_screen_label_packed true).
Definition label_pack_forget : M State unit :=
  label_call tt ;;; modify (set_screen_label_packed false).

Definition canvas_delete_all : M State unit :=
  canvas_call tt ;;;
  modify (fun st =>
            let c := screen_canvas st in
            set_screen_canvas
              (mkCanvas (cv_live c) (cv_packed c) [] (cv_next_id c)) st).

(** [create_image] / [create_text]: returns the id of the new item. *)
Definition canvas_create (item : Item) : M State Z :=
  canvas_call tt ;;;
  st <- get ;;
  let c := screen_canvas st in
  let id := cv_next_id c in
  modify (set_screen_canvas
            (mkCanvas (cv_live c) (cv_packed c) (cv_items c ++ [(id, item)])
                      (id + 1)%Z)) ;;;
  ret id.

(** [coords(id, x, y)] followed by [itemconfig(id, image=photo)]; an id
    that no longer names an item is ignored by the canvas. *)
Definition canvas_update_image (id x y width height : Z) : M State unit :=
  canvas_call tt ;;;
  modify (fun st =>
            let c := screen_canvas st in
            set_screen_canvas
              (mkCanvas (cv_live c) (cv_packed c)
                 (map (fun kv => if (fst kv =? id)%Z
                                 then (id, ImageItem x y width height)
                                 else kv)
                      (cv_items c))
                 (cv_next_id c)) st).

(** [if cb: cb(arg)]: the call is recorded, its exception propagates. *)
Definition invoke_callback (arg : bool) : M State unit :=
  st <- get ;;
  match screen_share_callback st with
  | Some f =>
      modify (fun st => set_requests (requests st ++ [arg]) st) ;;;
      lift (f arg)
  | None => ret tt
  end.

Definition has_callback (st : State) : bool :=
  match screen_share_callback st with Some _ => true | None => false end.

Definition schedule (ms : Z) (f : Deferred) : M State unit :=
  modify (fun st => set_after_queue (Tk.after (after_queue st) ms f) st).

Definition startswith (s prefix : string) : bool := String.prefix prefix s.

(** [_toggle_screen_share] *)
Definition _toggle_screen_share : M State unit :=
  try_except
    (st <- get ;;
     (* the inner [try] catches [TclError] only, which is all that can be
        raised there *)
     match Tk.winfo_exists (share_button st), Tk.cget_text (share_button st)
     with
     | Ok true, Ok button_text =>
         if String.eqb button_text "Request Presenter Role" then
           button_update "disabled" "Requesting..." ;;;
           status_update "Requesting presenter role..." "orange" ;;;
           if has_callback st then
             invoke_callback true ;;;
             schedule 10000 ResetPresenterRequestTimeout
           else ret tt
         else if startswith button_text "Start" then
           button_update "disabled" "Starting..." ;;;
           status_update "Starting screen share..." "orange" ;;;
           invoke_callback true
         else if startswith button_text "Stop" then
           invoke_callback false
         else ret tt   (* "Unknown button state" *)
     | _, _ => ret tt
     end)
    (fun _ =>
       button_update "normal" "Request Presenter Role" ;;;
       status_update "Error - try again" "red").

(** [_reset_presenter_request_timeout] *)
Definition _reset_presenter_request_timeout : M State unit :=
  st <- get ;;
  button_text <- lift (Tk.cget_text (share_button st)) ;;
  if String.eqb button_text "Requesting..." then
    button_update "normal" "Request Presenter Role" ;;;
    status_update "Request timed out - try again" "red" ;;;
    schedule 3000
      (StatusLabelUpdate
         (Tk.mkOptions None (Some "Ready to request presenter role")
                       (Some "black")))
  else ret tt.

(** Running a deferred call when its timer fires. *)
Definition run_deferred (f : Deferred) : M State unit :=
  match f with
  | ResetPresenterRequestTimeout => _reset_presenter_request_timeout
  | StatusLabelUpdate kw =>
      modify (fun st =>
                set_sharing_status_label (safe_label (sharing_status st) kw) st)
  end.

(** [update_presenter] *)
Definition update_presenter (env : Env) (presenter_name : option string)
  : M State unit :=
  modify (set_current_presenter_name presenter_name) ;;;
  st <- get ;;
  let name := Tk.with_default presenter_name "" in
  (if opt_str_truthy presenter_name && negb (is_sharing st) then
     button_update "disabled" (name ++ " is sharing")%string ;;;
     status_update (name ++ " is sharing")%string "blue" ;;;
     viewable <- canvas_call (canvas_viewable env) ;;
     if negb viewable then label_pack_forget ;;; canvas_pack else ret tt
   else if negb (opt_str_truthy presenter_name) && negb (is_sharing st) then
     button_update "normal" "Start Screen Share" ;;;
     status_update "Ready to share" "black" ;;;
     canvas_pack_forget ;;;
     label_pack
   else ret tt) ;;;
  if negb (is_sharing st) then
    if opt_str_truthy presenter_name
    then screen_label_update ("Waiting for " ++ name ++ " to share")%string
    else screen_label_update "No screen sharing active"
  else ret tt.

(** [set_presenter_status] *)
Definition set_presenter_status (is_presenter : bool)
    (presenter_name : option string) : M State unit :=
  let name := Tk.with_default presenter_name "" in
  if is_presenter then
    button_update "normal" "Start Screen Share" ;;;
    status_update "You are the presenter" "blue"
  else if opt_str_truthy presenter_name then
    button_update "disabled" (name ++ " is presenter")%string ;;;
    status_update (name ++ " is the presenter")%string "black"
  else
    button_update "normal" "Request Presenter Role" ;;;
    status_update "Ready to request presenter role" "black".

(** [reset_screen_sharing_button] *)
Definition reset_screen_sharing_button : M State unit :=
  button_update "normal" "Request Presenter Role" ;;;
  status_update "Ready to request presenter role" "black" ;;;
  modify (set_is_sharing false).

(** [_reset_screen_cache]: the ten assignments, then the canvas is
    cleared inside the same [try]. *)
Definition _reset_screen_cache : M State unit :=
  try_except
    (modify (set_cache reset_cache) ;;;
     modify (set_local_cache reset_cache) ;;;
     canvas_delete_all)
    (fun _ => ret tt).

(** [_show_black_screen] *)
Definition _show_black_screen (env : Env) : M State unit :=
  try_except
    (canvas_delete_all ;;;
     canvas_create (TextItem (winfo_width env / 2) (winfo_height env / 2)
                             "No screen sharing active") ;;;
     screen_label_update "No screen sharing active" ;;;
     modify (set_current_presenter_name None))
    (fun _ => ret tt).

(** [_show_local_sharing_preview] *)
Definition _show_local_sharing_preview (env : Env) : M State unit :=
  try_except
    (canvas_delete_all ;;;
     let small := ((winfo_width env <=? 10) || (winfo_height env <=? 10))%Z in
     let canvas_width := if small then 600%Z else winfo_width env in
     let canvas_height := if small then 400%Z else winfo_height env in
     let center_x := (canvas_width / 2)%Z in
     let center_y := (canvas_height / 2)%Z in
     canvas_create (TextItem center_x (center_y - 40)
                             " You are sharing your screen") ;;;
     canvas_create (TextItem center_x (center_y + 10)
                             "Other participants can see your screen") ;;;
     canvas_create (TextItem center_x (center_y + 40) " LIVE") ;;;
     ret tt)
    (fun _ => ret tt).

(** [set_sharing_status]; the status indicator of [ModuleFrame] is not
    part of the model. *)
Definition set_sharing_status (env : Env) (sharing : bool) : M State unit :=
  modify (set_is_sharing sharing) ;;;
  modify (set_enabled sharing) ;;;
  if sharing then
    button_update "normal" "Stop Screen Share" ;;;
    status_update "You are sharing" "green" ;;;
    label_pack_forget ;;;
    canvas_pack ;;;
    _show_local_sharing_preview env
  else
    button_update "normal" "Start Screen Share" ;;;
    status_update "Ready to share" "black" ;;;
    canvas_pack_forget ;;;
    label_pack ;;;
    _reset_screen_cache ;;;
    st <- get ;;
    if opt_str_truthy (current_presenter_name st)
    then screen_label_update
           (Tk.with_default (current_presenter_name st) "" ++ " is sharing")%string
    else screen_label_update "No screen sharing active".

(** [_store_current_frame] *)
Definition _store_current_frame (frame_data : FrameData)
    (presenter_name : string) (st : State) : State :=
  set_current_presenter (Some presenter_name)
    (set_current_frame_data (Some frame_data) st).

(** [Image.open(io.BytesIO(frame_data))], giving [image.size]. *)
Definition Image_open (frame_data : FrameData) : result (Z * Z) :=
  match frame_data with
  | Picture w h => Ok (w, h)
  | Undecodable => Raise (OtherException "cannot identify image file")
  end.

(** [f"{img_width}x{img_height}_{canvas_width}x{canvas_height}"] *)
Definition scale_key (img_width img_height canvas_width canvas_height : Z)
  : string :=
  (str_of_Z img_width ++ "x" ++ str_of_Z img_height ++ "_"
     ++ str_of_Z canvas_width ++ "x" ++ str_of_Z canvas_height)%string.

(** The scaling arithmetic of [display_screen_frame]: the scale and the
    new dimensions. *)
Definition compute_dimensions
    (img_width img_height canvas_width canvas_height : Z)
  : result (spec_float * (Z * Z)) :=
  let scale_w := truediv canvas_width img_width in
  let scale_h := truediv canvas_height img_height in
  let scale := fmul (fmin scale_w scale_h) f0_99 in
  let scale := fmax scale f0_3 in
  match int_of_float (fmul (float_of_int img_width) scale) with
  | Raise e => Raise e
  | Ok new_width =>
      match int_of_float (fmul (float_of_int img_height) scale) with
      | Raise e => Raise e
      | Ok new_height =>
          Ok (scale, (Z.max new_width 200, Z.max new_height 150))
      end
  end.

(** "Get canvas dimensions with caching to avoid repeated calls" *)
Definition canvas_size (env : Env) : M State (Z * Z) :=
  st <- get ;;
  match _cached_canvas_size (cache st) with
  | Present (Some size) => ret size
  | _ =>
      canvas_width <- canvas_call (winfo_width env) ;;
      canvas_height <- canvas_call (winfo_height env) ;;
      let small := ((canvas_width <=? 10) || (canvas_height <=? 10))%Z in
      let canvas_width :=
        if small then Z.max canvas_width 1000 else canvas_width in
      let canvas_height :=
        if small then Z.max canvas_height 650 else canvas_height in
      modify (fun st =>
                set_cache
                  (set_cached_canvas_size
                     (Present (Some (canvas_width, canvas_height)))
                     (cache st)) st) ;;;
      ret (canvas_width, canvas_height)
  end.

(** The branch that computes and caches. *)
Definition compute_and_cache
    (img_width img_height canvas_width canvas_height : Z) : M State (Z * Z) :=
  r <- lift (compute_dimensions img_width img_height
                                canvas_width canvas_height) ;;
  let '(scale, dims) := r in
  modify (fun st =>
            set_cache
              (set_cached_dimensions (Present (Some dims))
                 (set_cached_scale_key
                    (Present (Some (scale_key img_width img_height
                                              canvas_width canvas_height)))
                    (set_cached_scale (Present (Some scale)) (cache st))))
              st) ;;;
  ret dims.

(** "Cache scaling calculations to avoid repeated computation":
    [if not hasattr(self, '_cached_scale')
        or self._cached_scale_key != scale_key: ... else: ...] *)
Definition scaled_dimensions
    (img_width img_height canvas_width canvas_height : Z) : M State (Z * Z) :=
  st <- get ;;
  match _cached_scale (cache st) with
  | Missing =>
      compute_and_cache img_width img_height canvas_width canvas_height
  | Present _ =>
      match _cached_scale_key (cache st) with
      | Missing =>
          raise (AttributeError
                   "object has no attribute _cached_scale_key")
      | Present key =>
          if negb (opt_string_eqb key
                     (Some (scale_key img_width img_height
                                      canvas_width canvas_height)))
          then compute_and_cache img_width img_height
                                 canvas_width canvas_height
          else
            match _cached_dimensions (cache st) with
            | Present (Some dims) => ret dims
            | Present None =>
                raise (OtherException
                         "cannot unpack non-iterable NoneType object")
            | Missing =>
                raise (AttributeError
                         "object has no attribute _cached_dimensions")
            end
      end
  end.

(** "Optimized canvas update" *)
Definition draw_image (canvas_width canvas_height new_width new_height : Z)
  : M State unit :=
  let x := Z.max 0 ((canvas_width - new_width) / 2) in
  let y := Z.max 0 ((canvas_height - new_height) / 2) in
  st <- get ;;
  match _last_image_id (cache st) with
  | Present (Some id) => canvas_update_image id x y new_width new_height
  | _ =>
      canvas_delete_all ;;;
      id <- canvas_create (ImageItem x y new_width new_height) ;;
      modify (fun st =>
                set_cache (set_last_image_id (Present (Some id)) (cache st))
                          st)
  end.

(** [display_screen_frame] *)
Definition display_screen_frame (env : Env) (frame_data : option FrameData)
    (presenter_name : string) : M State unit :=
  try_except
    (match frame_data with
     | None => _show_black_screen env
     | Some data =>
         modify (_store_current_frame data presenter_name) ;;;
         st <- get ;;
         (if negb (opt_string_eqb (current_presenter_name st)
                                  (Some presenter_name))
          then update_presenter env (Some presenter_name)
          else ret tt) ;;;
         image <- lift (Image_open data) ;;
         viewable <- canvas_call (canvas_viewable env) ;;
         (if negb viewable
          then label_pack_forget ;;; canvas_pack ;;; canvas_call tt
          else ret tt) ;;;
         size <- canvas_size env ;;
         let '(canvas_width, canvas_height) := size in
         let '(img_width, img_height) := image in
         if ((img_width <=? 0) || (img_height <=? 0))%Z then ret tt
         else
           dims <- scaled_dimensions img_width img_height
                                     canvas_width canvas_height ;;
           let '(new_width, new_height) := dims in
           (if render_ok env then ret tt
            else raise (OtherException "cannot resize image")) ;;;
           draw_image canvas_width canvas_height new_width new_height
     end)
    (fun _ =>
       modify (fun st =>
                 set_cache
                   (set_last_image_id (Present None)
                      (set_cached_scale (Present None)
                         (set_cached_canvas_size (Present None) (cache st))))
                   st) ;;;
       screen_label_update
         ("Error displaying screen from " ++ presenter_name)%string ;;;
       viewable <- label_call (label_viewable env) ;;
       if negb viewable then canvas_pack_forget ;;; label_pack else ret tt).

(** Everything that changes the frame after construction, the toolkit
    destroying one of its widgets included. *)
Inductive Op : Type :=
| OpSetScreenShareCallback (callback : bool -> result unit)
| OpToggleScreenShare
| OpRunDeferred (f : Deferred)
| OpUpdatePresenter (env : Env) (presenter_name : option string)
| OpSetPresenterStatus (is_presenter : bool) (presenter_name : option string)
| OpResetScreenSharingButton
| OpSetSharingStatus (env : Env) (sharing : bool)
| OpResetScreenCache
| OpShowBlackScreen (env : Env)
| OpDisplayScreenFrame (env : Env) (frame_data : option FrameData)
    (presenter_name : string)
| OpShareButtonGone (l : Tk.liveness)
| OpSharingStatusGone (l : Tk.liveness)
| OpScreenLabelGone (l : Tk.liveness)
| OpCanvasGone (l : Tk.liveness).

Definition with_liveness (l : Tk.liveness) (w : Tk.Widget) : Tk.Widget :=
  Tk.mkWidget l (Tk.state w) (Tk.text w) (Tk.foreground w).

Definition run_op (op : Op) (st : State) : State :=
  match op with
  | OpSetScreenShareCallback f => set_screen_share_callback f st
  | OpToggleScreenShare => exec _toggle_screen_share st
  | OpRunDeferred f => exec (run_deferred f) st
  | OpUpdatePresenter env p => exec (update_presenter env p) st
  | OpSetPresenterStatus b p => exec (set_presenter_status b p) st
  | OpResetScreenSharingButton => exec reset_screen_sharing_button st
  | OpSetSharingStatus env b => exec (set_sharing_status env b) st
  | OpResetScreenCache => exec _reset_screen_cache st
  | OpShowBlackScreen env => exec (_show_black_screen env) st
  | OpDisplayScreenFrame env f p => exec (display_screen_frame env f p) st
  | OpShareButtonGone l => set_share_button (with_liveness l (share_button st)) st
  | OpSharingStatusGone l =>
      set_sharing_status_label (with_liveness l (sharing_status st)) st
  | OpScreenLabelGone l => set_screen_label (with_liveness l (screen_label st)) st
  | OpCanvasGone l =>
      let c := screen_canvas st in
      set_screen_canvas (mkCanvas l (cv_packed c) (cv_items c) (cv_next_id c)) st
  end.

Inductive reachable : State -> Prop :=
| reach_init : reachable init
| reach_step : forall st op, reachable st -> reachable (run_op op st).

(** ** Vocabulary of the cache claim *)

(** Neither separator of the cache key occurs in [s]. *)
Fixpoint clean (s : string) : bool :=
  match s with
  | EmptyString => true
  | String c s' =>
      negb (Ascii.eqb c "x") && negb (Ascii.eqb c "_") && clean s'
  end.

(** What is stored under a key is what the arithmetic gives for the sizes
    the key was made from. *)
Definition consistent (c : Cache) : Prop :=
  forall key, _cached_scale_key c = Present (Some key) ->
    exists iw ih cw ch scale dims,
      key = scale_key iw ih cw ch
      /\ compute_dimensions iw ih cw ch = Ok (scale, dims)
      /\ _cached_dimensions c = Present (Some dims).

Definition keeps {A} (m : M State A) : Prop :=
  forall st, consistent (cache st) -> consistent (cache (fst (m st))).

(** What a fresh computation produces for the display. *)
Definition fresh_dimensions (iw ih cw ch : Z) : result (Z * Z) :=
  match compute_dimensions iw ih cw ch with
  | Ok (_, dims) => Ok dims
  | Raise e => Raise e
  end.

(** [_cached_scale] has been assigned, [_cached_scale_key] never. *)
Definition key_attribute_missing (c : Cache) : bool :=
  match _cached_scale c, _cached_scale_key c with
  | Present _, Missing => true
  | _, _ => false
  end.

(** The canvas size that [display_screen_frame] takes from the window
    system, fallback included. *)
Definition window_size (env : Env) : Z * Z :=
  let small := ((winfo_width env <=? 10) || (winfo_height env <=? 10))%Z in
  (if small then Z.max (winfo_width env) 1000 else winfo_width env,
   if small then Z.max (winfo_height env) 650 else winfo_height env).

(** ** States and environments used as examples *)

Definition narrow_env : Env := mkEnv false false 1000 650 true.
Definition resized_env : Env := mkEnv true false 800 600 true.
Definition full_hd : option FrameData := Some (Picture 1920 1080).

(** A frame from "ann" shown on a fresh object. *)
Definition showing : State :=
  run_op (OpDisplayScreenFrame narrow_env full_hd "ann") init.

(** A client that is not the presenter, with its callback registered. *)
Definition may_request : State :=
  set_screen_share_callback (fun _ => Ok tt)
    (exec (set_presenter_status false None) init).

(** ... after clicking "Request Presenter Role" ... *)
Definition requesting : State := exec _toggle_screen_share may_request.

(** ... and after the role was granted before the timer fired. *)
Definition granted : State := exec (set_presenter_status true None) requesting.

End ScreenShareFrame.

(* ================================================================== *)
(** * Further code of the two GUI modules *)
(* ================================================================== *)

(** More of the Python runtime. *)
Module PyMore.
Import Py.

(** [s[n:]] *)
Fixpoint drop (n : nat) (s : string) : string :=
  match n, s with
  | O, _ => s
  | S _, EmptyString => EmptyString
  | S n', String _ s' => drop n' s'
  end.

(** [s[-n:]] for [n > 0]. *)
Definition last_chars (n : nat) (s : string) : string :=
  match n with
  | O => s
  | _ => drop (String.length s - n) s
  end.

(** [str.lower()] on the code points below 256: the letters A-Z and the
    accented capitals at 192-222 (215, the multiplication sign, apart). *)
Definition lower_char (c : ascii) : ascii :=
  let n := nat_of_ascii c in
  if ((65 <=? n) && (n <=? 90))
     || ((192 <=? n) && (n <=? 222) && negb (n =? 215))
  then ascii_of_nat (n + 32)
  else c.

Fixpoint lower (s : string) : string :=
  match s with
  | EmptyString => EmptyString
  | String c s' => String (lower_char c) (lower s')
  end.

(** A modal dialog of [tkinter.messagebox], as the user sees it. *)
Inductive Dialog : Type :=
| ShowWarning (title message : string)
| ShowError (title message : string)
| AskYesNo (title message : string).

End PyMore.

(** ** VideoFrame: display names *)

Module VideoNames.
Import Py PyMore VideoFrame.

(** [participant_info.get('username', '')] on an entry of
    [participant_videos]. *)
Definition stored_username (pv : list (string * ParticipantInfo))
    (client_id : string) : option string :=
  match dict_get pv client_id with
  | Some info => Some (Tk.with_default (info_username info) "")
  | None => None
  end.

(** [f"User {client_id[-8:]}"] or [f"User {client_id}"] *)
Definition fallback_name (client_id : string) : string :=
  if 8 <? String.length client_id
  then ("User " ++ last_chars 8 client_id)%string
  else ("User " ++ client_id)%string.

(** [_get_display_name]; nothing in its [try] block can raise. *)
Definition _get_display_name (client_id : string) (st : State) : string :=
  if String.eqb client_id "local" then
    match stored_username (participant_videos st) "local" with
    | Some username => if str_truthy username then username else "You"
    | None => "You"
    end
  else
    match stored_username (participant_videos st) client_id with
    | Some username =>
        if str_truthy username && negb (String.eqb username client_id)
        then username
        else fallback_name client_id
    | None => fallback_name client_id
    end.

(** [t] is what [s] ends with. *)
Definition ends_with (s t : string) : Prop :=
  exists pre, s = (pre ++ t)%string.

End VideoNames.

(** ** VideoFrame of gui_manager_tabbed.py: update_video_feeds *)

Module TabbedVideoFrame.
Import Py VideoFrame.

(** "Clear all slots first to prevent duplicates": here the participant
    is removed whether or not the slot's label still exists (the label is
    only consulted before its text is changed). *)
Fixpoint clear_remote_slots (slots : list Slot) (i : nat) : list Slot :=
  match slots with
  | [] => []
  | slot :: r =>
      (if 0 <? i then mkSlot (frame slot) None false else slot)
        :: clear_remote_slots r (S i)
  end.

(** [update_video_feeds]; the assignment loop is the one of
    gui_manager.py, and this version does not record the participants. *)
Definition update_video_feeds (participants : list (string * Participant))
    (slots : list Slot) : list Slot :=
  let slots := clear_remote_slots slots 0 in
  let '(_, _, slots) :=
    assign_loop (active_participants participants) [] 1 slots in
  slots.

End TabbedVideoFrame.

(** ** VideoFrame: what the reachable states have in common *)

Module VideoInvariants.
Import Py VideoFrame.

(** A remote slot that is not active has no participant. *)
Definition inactive_is_empty (slots : list Slot) : Prop :=
  forall i s, 0 < i -> nth_error slots i = Some s ->
              active s = false -> participant_id s = None.

(** Two camera-less participants and one with the camera on, keyed by
    their client ids. *)
Definition roster : list (string * Participant) :=
  [ ("a", mkParticipant (Some "a") (Some "Ann") (Some true));
    ("b", mkParticipant (Some "b") (Some "Bob") (Some false)) ].

End VideoInvariants.

(** ** ScreenShareFrame: the handlers of server events *)

Module ScreenShareHandlers.
Import Py PyNotations ScreenShareFrame.

(** [handle_screen_share_started] *)
Definition handle_screen_share_started (env : Env) (presenter_name : string)
  : M State unit :=
  if negb (String.eqb presenter_name "You") then
    update_presenter env (Some presenter_name) ;;;
    screen_label_update (presenter_name ++ " is sharing their screen")%string
  else ret tt.

(** [handle_screen_share_stopped] *)
Definition handle_screen_share_stopped (env : Env) : M State unit :=
  modify (set_current_presenter_name None) ;;;
  set_sharing_status env false ;;;
  set_presenter_status false None ;;;
  status_update "Ready to request presenter role" "black".

(** The widgets that the handlers touch without a guard. *)
Definition display_alive (st : State) : Prop :=
  Tk.live (screen_label st) = Tk.Alive
  /\ cv_live (screen_canvas st) = Tk.Alive.

Definition controls_alive (st : State) : Prop :=
  Tk.live (share_button st) = Tk.Alive
  /\ Tk.live (sharing_status st) = Tk.Alive.

(** [m] leaves the screen label and the canvas alive. *)
Definition stays_alive {A} (m : M State A) : Prop :=
  forall st, display_alive st -> display_alive (fst (m st)).

(** The sizes kept in the cache are usable: a cached canvas size exceeds
    10 in both directions, cached dimensions are at least 200 x 150. *)
Definition sizes_usable (c : Cache) : Prop :=
  (forall w h, _cached_canvas_size c = Present (Some (w, h)) ->
               (10 < w /\ 10 < h)%Z)
  /\ (forall w h, _cached_dimensions c = Present (Some (w, h)) ->
                  (200 <= w /\ 150 <= h)%Z).

Definition keeps_usable {A} (m : M State A) : Prop :=
  forall st, sizes_usable (cache st) -> sizes_usable (cache (fst (m st))).

(** A presenter whose callback fails. *)
Definition unplugged : State :=
  set_screen_share_callback
    (fun _ => Raise (OtherException "not connected")) init.

End ScreenShareHandlers.

(** ** FileTransferFrame: downloads *)

Module FileDownload.
Import Py PyNotations PyMore FileTransferFrame.

(** The frame with its callbacks, the listbox selection, and what came
    of its calls: the dialogs shown and the downloads requested. *)
Record Panel : Type := mkPanel {
  files : State;
  curselection : list nat;     (* [file_listbox.curselection()] *)
  file_download_callback : option (string -> result unit);
  dialogs : list Dialog;
  downloads : list string      (* calls to [file_download_callback] *)
}.

Definition show (d : Dialog) : M Panel unit :=
  modify (fun p => mkPanel (files p) (curselection p)
                           (file_download_callback p) (dialogs p ++ [d])
                           (downloads p)).

Definition call_download (cb : string -> result unit) (file_id : string)
  : M Panel unit :=
  modify (fun p => mkPanel (files p) (curselection p)
                           (file_download_callback p) (dialogs p)
                           (downloads p ++ [file_id])) ;;;
  lift (cb file_id).

(** [size_mb = filesize / (1024 * 1024)] *)
Definition size_mb (filesize : Z) : spec_float :=
  truediv filesize (1024 * 1024).

(** [size_mb > 10] *)
Definition is_large (filesize : Z) : bool :=
  SFltb (float_of_int 10) (size_mb filesize).

Definition newline : string := String (ascii_of_nat 10) EmptyString.

(** The question put before a large download. *)
Definition large_file_question (filename : string) (filesize : Z) : Dialog :=
  AskYesNo "Large File Download"
    ("Download '" ++ filename ++ "' (" ++ format_1f (size_mb filesize)
       ++ " MB)?" ++ newline ++ newline ++ "This may take some time.")%string.

(** [_download_file]; [answer] is what the user replies if asked. *)
Definition _download_file (answer : bool) : M Panel unit :=
  p <- get ;;
  match curselection p with
  | [] => show (ShowWarning "No Selection" "Please select a file to download.")
  | file_index :: _ =>
      match file_download_callback p with
      | None => show (ShowError "Error" "Download functionality not available.")
      | Some cb =>
          try_except
            (match nth_error (shared_files (files p)) file_index with
             | None => show (ShowError "Error" "Invalid file selection.")
             | Some (file_id, file_info) =>
                 if is_large (filesize file_info) then
                   show (large_file_question (filename file_info)
                                             (filesize file_info)) ;;;
                   if answer then call_download cb file_id else ret tt
                 else call_download cb file_id
             end)
            (fun e =>
               show (ShowError "Download Error"
                       ("Failed to start download: " ++ str_of_exn e)%string))
      end
  end.

(** A panel over the example frame, its only line selected. *)
Definition picking (cb : string -> result unit) : Panel :=
  mkPanel one_file [0] (Some cb) [] [].

End FileDownload.

(** ** TabbedGUIManager: connection controls *)

Module TabbedGUIManager.
Import Py PyNotations PyMore.

(** A call out of the manager into the external layer. *)
Inductive Call : Type :=
| Connect (username : string)
| Disconnect.

Record State : Type := mkState {
  server_entry : string;
  username_entry : string;
  status_label : string;
  connect_button : string;      (* its [state] option *)
  disconnect_button : string;
  connected : bool;
  connect_callback : option (string -> result unit);
  disconnect_callback : option (result unit);
  dialogs : list Dialog;
  calls : list Call;
  root_quit : bool;             (* [root.quit()] was called *)
  root_destroyed : bool         (* [root.destroy()] was called *)
}.

(** [__init__] with [_create_connection_section]. *)
Definition init : State :=
  mkState "localhost" "User" "Status: Disconnected" "normal" "disabled"
          false None None [] [] false false.

Definition set_connection_callbacks (connect : string -> result unit)
    (disconnect : result unit) (st : State) : State :=
  mkState (server_entry st) (username_entry st) (status_label st)
          (connect_button st) (disconnect_button st) (connected st)
          (Some connect) (Some disconnect) (dialogs st) (calls st)
          (root_quit st) (root_destroyed st).

Definition type_entries (server username : string) (st : State) : State :=
  mkState server username (status_label st)
          (connect_button st) (disconnect_button st) (connected st)
          (connect_callback st) (disconnect_callback st) (dialogs st)
          (calls st) (root_quit st) (root_destroyed st).

Definition show (d : Dialog) (st : State) : State :=
  mkState (server_entry st) (username_entry st) (status_label st)
          (connect_button st) (disconnect_button st) (connected st)
          (connect_callback st) (disconnect_callback st) (dialogs st ++ [d])
          (calls st) (root_quit st) (root_destroyed st).

Definition record_call (c : Call) (st : State) : State :=
  mkState (server_entry st) (username_entry st) (status_label st)
          (connect_button st) (disconnect_button st) (connected st)
          (connect_callback st) (disconnect_callback st) (dialogs st)
          (calls st ++ [c]) (root_quit st) (root_destroyed st).

(** A call on a widget of the window ([get], [config]); it raises once
    the window has been destroyed. *)
Definition widget_call {A} (a : A) : M State A :=
  st <- get ;;
  if root_destroyed st then raise Tk.app_destroyed else ret a.

(** [_connect_clicked]; an exception of the callback propagates. *)
Definition _connect_clicked : M State unit :=
  st <- get ;;
  server_text <- widget_call (server_entry st) ;;
  username_text <- widget_call (username_entry st) ;;
  let server := strip server_text in
  let username := strip username_text in
  if negb (str_truthy server) || negb (str_truthy username) then
    modify (show (ShowError "Error"
                            "Please enter server address and username"))
  else
    match connect_callback st with
    | Some cb => modify (record_call (Connect username)) ;;; lift (cb username)
    | None => ret tt
    end.

(** [_disconnect_clicked] *)
Definition _disconnect_clicked : M State unit :=
  st <- get ;;
  match disconnect_callback st with
  | Some r => modify (record_call Disconnect) ;;; lift r
  | None => ret tt
  end.

Definition set_status (status : string) (is_connected : bool) (st : State)
  : State :=
  mkState (server_entry st) (username_entry st)
          ("Status: " ++ status)%string
          (if is_connected then "disabled" else "normal")
          (if is_connected then "normal" else "disabled")
          is_connected
          (connect_callback st) (disconnect_callback st) (dialogs st)
          (calls st) (root_quit st) (root_destroyed st).

(** [update_connection_status]: the label and the two buttons belong to
    one window, so the first [config] decides whether any of them
    raises. *)
Definition update_connection_status (status : string) : M State unit :=
  widget_call tt ;;;
  modify (set_status status (String.eqb (lower status) "connected")).

(** [root.quit()] only asks the main loop to end. *)
Definition quit (st : State) : State :=
  mkState (server_entry st) (username_entry st) (status_label st)
          (connect_button st) (disconnect_button st) (connected st)
          (connect_callback st) (disconnect_callback st) (dialogs st)
          (calls st) true (root_destroyed st).

Definition destroy (st : State) : State :=
  mkState (server_entry st) (username_entry st) (status_label st)
          (connect_button st) (disconnect_button st) (connected st)
          (connect_callback st) (disconnect_callback st) (dialogs st)
          (calls st) (root_quit st) true.

(** [root.destroy()]; a window is destroyed once. *)
Definition root_destroy : M State unit :=
  widget_call tt ;;; modify destroy.

(** [_on_closing] *)
Definition _on_closing : M State unit :=
  try_except
    (st <- get ;;
     (match connected st, disconnect_callback st with
      | true, Some r => modify (record_call Disconnect) ;;; lift r
      | _, _ => ret tt
      end) ;;;
     modify quit ;;;
     root_destroy)
    (fun _ => root_destroy).

(** What happens to the manager after construction. *)
Inductive Op : Type :=
| OpSetConnectionCallbacks (connect : string -> result unit)
    (disconnect : result unit)
| OpTypeEntries (server username : string)
| OpConnectClicked
| OpDisconnectClicked
| OpUpdateConnectionStatus (status : string)
| OpOnClosing.

Definition run_op (op : Op) (st : State) : State :=
  match op with
  | OpSetConnectionCallbacks c d => set_connection_callbacks c d st
  | OpTypeEntries server username => type_entries server username st
  | OpConnectClicked => exec _connect_clicked st
  | OpDisconnectClicked => exec _disconnect_clicked st
  | OpUpdateConnectionStatus status => exec (update_connection_status status) st
  | OpOnClosing => exec _on_closing st
  end.

Inductive reachable : State -> Prop :=
| reach_init : reachable init
| reach_step : forall st op, reachable st -> reachable (run_op op st).

(** The buttons mirror the connection flag. *)
Definition buttons_follow (st : State) : Prop :=
  connect_button st = (if connected st then "disabled" else "normal")
  /\ disconnect_button st = (if connected st then "normal" else "disabled").

(** Nothing for [str.lstrip] to remove. *)
Definition no_leading_space (s : string) : Prop :=
  match s with
  | EmptyString => True
  | String c _ => isspace c = false
  end.

(** The usernames handed to the connect callback are non-empty and
    [strip] leaves them as they are. *)
Definition names_trimmed (st : State) : Prop :=
  forall u, In (Connect u) (calls st) -> u <> "" /\ strip u = u.

Definition inv (st : State) : Prop :=
  buttons_follow st /\ names_trimmed st
  /\ (root_quit st = true -> root_destroyed st = true).

(** A manager whose disconnect callback fails, told that the connection
    stands. *)
Definition flaky : State :=
  exec (update_connection_status "Connected")
    (set_connection_callbacks (fun _ => Ok tt)
       (Raise (OtherException "socket closed")) init).

(** A manager with callbacks, and entries as a user may leave them. *)
Definition filled : State :=
  type_entries " 10.0.0.7 " "  ann "
    (set_connection_callbacks (fun _ => Ok tt) (Ok tt) init).

End TabbedGUIManager.

(** ** ChatFrame: the order of a loaded history *)

Module ChatOrder.
Import Py ChatFrame.

(** The order [sorted(history, key=lambda x: x.get('timestamp',
    datetime.min))] sorts by, on dicts and on what is stored of them. *)
Definition le_key (a b : Entry) : Prop := (sort_key a <= sort_key b)%Z.
Definition le_time (a b : Message) : Prop := (timestamp a <= timestamp b)%Z.

(** The entries of [l] with the sort key [t], in their order. *)
Definition stamped {A} (key : A -> Z) (t : Z) (l : list A) : list A :=
  filter (fun m => (key m =? t)%Z) l.

(** [_display_message] can read the dict. *)
Definition readable (x : Entry) : bool :=
  match read_message x with Ok _ => true | Raise _ => false end.

(** What is kept of a dict that can be read. *)
Definition message_of (x : Entry) : Message :=
  mkMessage (Tk.with_default (entry_username x) "")
            (Tk.with_default (entry_message x) "")
            (sort_key x)
            (Tk.with_default (entry_is_own_message x) false)
            (Tk.with_default (entry_message_type x) "chat").

(** The dicts before the first one that cannot be read. *)
Fixpoint readable_prefix (l : list Entry) : list Entry :=
  match l with
  | [] => []
  | x :: r => if readable x then x :: readable_prefix r else []
  end.

(** An entry stamped 5, followed by one that has no timestamp. *)
Definition gappy : list Entry :=
  [ mkEntry (Some "ann") (Some "late") (Some 5%Z) None None;
    mkEntry (Some "bob") (Some "when?") None None None ].

End ChatOrder.

(* ================================================================== *)
(** * Facts about the Python runtime pieces *)
(* ================================================================== *)

Module PyFacts.
Import Py.

Lemma slice_last_length {A} (n : nat) (l : list A) :
  0 < n -> n <= List.length l -> List.length (slice_last n l) = n.
Proof.
  intros Hn Hl. destruct n as [|n]; [lia|].
  unfold slice_last. rewrite length_skipn. lia.
Qed.

Lemma slice_last_app {A} (n : nat) (l : list A) :
  0 < n -> exists dropped, l = dropped ++ slice_last n l
                           /\ List.length dropped = List.length l - n.
Proof.
  intros Hn. destruct n as [|n]; [lia|].
  exists (firstn (List.length l - S n) l). unfold slice_last. split.
  - symmetry. apply firstn_skipn.
  - rewrite length_firstn. lia.
Qed.

Lemma str_of_Z_inj (a b : Z) : str_of_Z a = str_of_Z b -> a = b.
Proof.
  unfold str_of_Z. intros H.
  apply DecimalZ.to_int_inj.
  assert (Hs : Some (Z.to_int a) = Some (Z.to_int b)).
  { rewrite <- (NilEmpty.isi (Z.to_int a)), <- (NilEmpty.isi (Z.to_int b)).
    now rewrite H. }
  now inversion Hs.
Qed.

Lemma opt_string_eqb_eq (a b : option string) :
  opt_string_eqb a b = true <-> a = b.
Proof.
  destruct a as [x|], b as [y|]; simpl; split; intros H;
    try discriminate; try reflexivity.
  - apply String.eqb_eq in H. now subst.
  - inversion H; subst. apply String.eqb_refl.
Qed.

Lemma opt_string_eqb_refl (a : option string) : opt_string_eqb a a = true.
Proof. now apply opt_string_eqb_eq. Qed.

Lemma dict_get_set_same {V} (d : list (string * V)) k v :
  dict_get (dict_set d k v) k = Some v.
Proof.
  induction d as [|[k' v'] d IH]; simpl.
  - now rewrite String.eqb_refl.
  - destruct (String.eqb k' k) eqn:E; simpl.
    + now rewrite String.eqb_refl.
    + now rewrite E.
Qed.

Lemma dict_keys_set {V} (d : list (string * V)) k v :
  dict_keys (dict_set d k v)
  = if existsb (String.eqb k) (dict_keys d) then dict_keys d
    else dict_keys d ++ [k].
Proof.
  unfold dict_keys. induction d as [|[k' v'] d IH]; simpl; [reflexivity|].
  rewrite (String.eqb_sym k k').
  destruct (String.eqb k' k) eqn:E; simpl.
  - apply String.eqb_eq in E. now subst.
  - rewrite IH. now destruct (existsb (String.eqb k) (map fst d)).
Qed.

End PyFacts.

(* ================================================================== *)
(** * ChatFrame: history cap and send validation *)
(* ================================================================== *)

Module ChatFrameFacts.
Import Py PyNotations ChatFrame ChatOrder PyFacts.

Lemma insert_by_timestamp_length m l :
  List.length (insert_by_timestamp m l) = S (List.length l).
Proof.
  induction l as [|x l IH]; simpl; [reflexivity|].
  destruct (sort_key m <? sort_key x)%Z; simpl; [reflexivity|].
  now rewrite IH.
Qed.

Lemma sorted_by_timestamp_length l :
  List.length (sorted_by_timestamp l) = List.length l.
Proof.
  unfold sorted_by_timestamp.
  assert (H : forall acc, List.length
                (fold_left (fun acc m => insert_by_timestamp m acc) l acc)
              = List.length l + List.length acc).
  { induction l as [|m l IH]; intros acc; simpl; [reflexivity|].
    rewrite IH, insert_by_timestamp_length. lia. }
  rewrite H. simpl. lia.
Qed.

Lemma read_message_readable x :
  readable x = true -> read_message x = Ok (message_of x).
Proof.
  unfold readable, read_message, message_of, sort_key.
  destruct x as [[u|] [m|] [t|] own ty]; simpl; intros H;
    try discriminate; reflexivity.
Qed.

Lemma read_message_unreadable x :
  readable x = false -> exists e, read_message x = Raise e.
Proof.
  unfold readable. destruct (read_message x) as [m|e]; [discriminate|].
  intros _. now exists e.
Qed.

Lemma readable_prefix_all l :
  forallb readable l = true -> readable_prefix l = l.
Proof.
  induction l as [|x l IH]; simpl; [reflexivity|].
  intros H. apply andb_prop in H. destruct H as [Hx Hl].
  now rewrite Hx, IH.
Qed.

Lemma display_each_cons_ok x l st :
  readable x = true ->
  display_each (x :: l) st
  = display_each l
      (set_chat_history
         (chat_history (_display_message (message_of x) st) ++ [message_of x])
         (_display_message (message_of x) st)).
Proof.
  intros Hx. simpl. unfold bind, lift, modify.
  now rewrite (read_message_readable x Hx).
Qed.

Lemma display_each_cons_raise x l st :
  readable x = false -> exists e, display_each (x :: l) st = (st, Raise e).
Proof.
  intros Hx. destruct (read_message_unreadable x Hx) as (e & He).
  exists e. simpl. unfold bind, lift. now rewrite He.
Qed.

(** The loop stores and displays the dicts up to the first one that
    cannot be read, and raises at that one. *)
Lemma display_each_spec l st :
  let st' := exec (display_each l) st in
  chat_history st' = chat_history st ++ map message_of (readable_prefix l)
  /\ chat_display st' = chat_display st ++ map message_of (readable_prefix l)
  /\ max_history_size st' = max_history_size st
  /\ status_label st' = status_label st
  /\ after_queue st' = after_queue st
  /\ (forallb readable l = true -> outcome (display_each l) st = Ok tt)
  /\ (forallb readable l = false ->
      exists e, outcome (display_each l) st = Raise e).
Proof.
  revert st. induction l as [|x l IH]; intros st; unfold exec, outcome.
  - simpl. rewrite !app_nil_r.
    repeat split; intros H; try discriminate H; reflexivity.
  - simpl forallb. simpl readable_prefix. destruct (readable x) eqn:Hx.
    + rewrite (display_each_cons_ok x l st Hx).
      set (st1 := set_chat_history _ _).
      destruct (IH st1) as (Hh & Hd & Hm & Hs & Hq & Hok & Hno).
      unfold exec, outcome in *.
      rewrite Hh, Hd, Hm, Hs, Hq. subst st1. simpl.
      rewrite <- !app_assoc. simpl.
      split; [reflexivity|]. split; [reflexivity|].
      split; [reflexivity|]. split; [reflexivity|].
      split; [reflexivity|]. split; [exact Hok|exact Hno].
    + destruct (display_each_cons_raise x l st Hx) as (e & He). rewrite He.
      simpl. rewrite !app_nil_r.
      split; [reflexivity|]. split; [reflexivity|].
      split; [reflexivity|]. split; [reflexivity|].
      split; [reflexivity|]. split; [discriminate|].
      intros _. now exists e.
Qed.

Lemma load_chat_history_steps history st :
  load_chat_history history st
  = let st0 := set_chat_history [] (set_chat_display [] st) in
    match display_each (sorted_by_timestamp (contents history st0)) st0 with
    | (st1, Ok _) =>
        (_show_status
           ("Loaded "
              ++ str_of_Z (Z.of_nat (List.length (contents history st1)))
              ++ " messages from history")%string
           false st1,
         Ok tt)
    | (st1, Raise e) => (st1, Raise e)
    end.
Proof.
  unfold load_chat_history, bind, modify, get. simpl.
  now destruct (display_each _ _) as [st1 [[]|e]].
Qed.

(** What [load_chat_history] leaves in the history and on display. *)
Lemma load_chat_history_history history st :
  let loaded :=
    map message_of
        (readable_prefix
           (sorted_by_timestamp
              (match history with
               | OwnHistory => []
               | Entries entries => entries
               end))) in
  chat_history (exec (load_chat_history history) st) = loaded
  /\ chat_display (exec (load_chat_history history) st) = loaded
  /\ max_history_size (exec (load_chat_history history) st)
     = max_history_size st.
Proof.
  unfold exec. rewrite load_chat_history_steps. cbv zeta.
  set (st0 := set_chat_history [] (set_chat_display [] st)).
  assert (Hc : contents history st0
               = match history with
                 | OwnHistory => []
                 | Entries entries => entries
                 end) by (destruct history; reflexivity).
  rewrite Hc.
  set (sorted_history := sorted_by_timestamp _).
  destruct (display_each_spec sorted_history st0)
    as (Hh & Hd & Hm & _ & _ & _ & _).
  unfold exec in *.
  destruct (display_each sorted_history st0) as [st1 [[]|e]]; simpl in *;
    now rewrite Hh, Hd, Hm.
Qed.

(** [load_chat_history] stores every entry of a list of dicts that can all
    be read. *)
Lemma load_chat_history_length entries st :
  forallb readable entries = true ->
  List.length (chat_history (exec (load_chat_history (Entries entries)) st))
  = List.length entries.
Proof.
  intros H.
  destruct (load_chat_history_history (Entries entries) st) as (-> & _).
  rewrite length_map, readable_prefix_all, sorted_by_timestamp_length;
    [reflexivity|].
  apply forallb_forall. intros x Hx.
  rewrite forallb_forall in H. apply H.
  revert Hx. unfold sorted_by_timestamp.
  assert (G : forall l acc,
             In x (fold_left (fun acc m => insert_by_timestamp m acc) l acc) ->
             In x acc \/ In x l).
  { induction l as [|m l IH]; intros acc Hin; simpl in *; [now left|].
    destruct (IH _ Hin) as [Ha|Hl]; [|now right; right].
    assert (I : forall l0, In x (insert_by_timestamp m l0) ->
                           x = m \/ In x l0).
    { induction l0 as [|y l0 IH0]; simpl.
      - intros [->|[]]. now left.
      - destruct (sort_key m <? sort_key y)%Z; simpl.
        + intros [->|[->|Hy]]; auto.
        + intros [->|Hy]; [now right; left|].
          destruct (IH0 Hy); auto. }
    destruct (I _ Ha) as [->|Hacc]; [right; now left|now left]. }
  intros Hin. destruct (G _ _ Hin) as [[]|Hl]. exact Hl.
Qed.

Lemma add_message_max_history_size now u m t own ty st :
  max_history_size (add_message now u m t own ty st) = max_history_size st.
Proof.
  unfold add_message. simpl.
  now destruct (max_history_size st <? List.length (chat_history st ++ _)).
Qed.

(** After [add_message] the history is the old one with the new entry
    appended, cut down to its last [max_history_size] entries. *)
Lemma add_message_history now u m t own ty st :
  0 < max_history_size st ->
  let entry := mkMessage u m (match t with None => now | Some x => x end)
                         own ty in
  exists dropped,
    chat_history st ++ [entry]
    = dropped ++ chat_history (add_message now u m t own ty st)
    /\ List.length dropped
       = List.length (chat_history st) + 1 - max_history_size st.
Proof.
  intros Hmax entry. unfold add_message. fold entry. simpl.
  destruct (max_history_size st <? List.length (chat_history st ++ [entry]))
    eqn:E; simpl.
  - destruct (slice_last_app (max_history_size st)
                             (chat_history st ++ [entry]) Hmax) as [d [H1 H2]].
    exists d. split; [exact H1|]. rewrite H2, length_app. simpl. lia.
  - apply Nat.ltb_ge in E. rewrite length_app in E. simpl in E.
    exists []. split; [reflexivity|]. simpl. lia.
Qed.

(** Whatever the length before, [add_message] leaves at most
    [max_history_size] entries. *)
Lemma add_message_within_cap now u m t own ty st :
  0 < max_history_size st ->
  List.length (chat_history (add_message now u m t own ty st))
  <= max_history_size st.
Proof.
  intros Hmax. unfold add_message. simpl.
  destruct (max_history_size st <? List.length (chat_history st ++ _)) eqn:E;
    simpl.
  - apply Nat.ltb_lt in E. rewrite slice_last_length; lia.
  - now apply Nat.ltb_ge in E.
Qed.

Lemma load_chat_history_max_history_size history st :
  max_history_size (exec (load_chat_history history) st)
  = max_history_size st.
Proof. now destruct (load_chat_history_history history st) as (_ & _ & H). Qed.

Lemma run_op_max_history_size op st :
  max_history_size (run_op op st) = max_history_size st.
Proof.
  destruct op; simpl;
    solve [ apply add_message_max_history_size
          | apply load_chat_history_max_history_size ].
Qed.

(** Sequences of [add_message], [add_system_message] and
    [add_error_message] keep the history within the cap. *)
Lemma add_ops_within_cap ops st :
  0 < max_history_size st ->
  List.length (chat_history st) <= max_history_size st ->
  forallb (fun op => negb (is_load op)) ops = true ->
  List.length (chat_history (run_ops ops st)) <= max_history_size st.
Proof.
  unfold run_ops. revert st.
  induction ops as [|op ops IH]; intros st Hmax Hlen Hops; simpl; [exact Hlen|].
  simpl in Hops. apply andb_prop in Hops. destruct Hops as [Hop Hops].
  rewrite <- (run_op_max_history_size op st).
  apply IH; [now rewrite run_op_max_history_size| |exact Hops].
  rewrite run_op_max_history_size.
  destruct op; simpl in *; try discriminate;
    now apply add_message_within_cap.
Qed.

(** C1 (evaluation at the failing input): [load_chat_history] given 501
    entries on a fresh frame leaves 501 entries in [chat_history] although
    [max_history_size] is 500; the next [add_message] cuts the history
    back to 500. *)
Theorem load_chat_history_exceeds_cap :
  let st := run_ops [OpLoadChatHistory long_history] init in
  List.length (chat_history st) = 501
  /\ max_history_size st = 500
  /\ List.length
       (chat_history (add_message 1 "bob" "late" None false "chat" st)) = 500.
Proof. vm_compute. repeat split. Qed.

(** ** [_send_message] *)

Lemma str_truthy_false s : str_truthy s = false <-> s = "".
Proof. destruct s; simpl; split; intros H; congruence. Qed.

Lemma app_one_neq {A} (l : list A) (x : A) : l ++ [x] <> l.
Proof.
  intros H. apply (f_equal (@List.length A)) in H.
  rewrite length_app in H. simpl in H. lia.
Qed.

(** C9: [_send_message] never raises; it calls the registered callback,
    once and with the stripped text, exactly when a callback is set and the
    stripped text is non-empty and at most 1000 characters long; the entry
    is cleared when the callback returns, and only then; an exception of the
    callback leaves the entry as it was and shows
    "Failed to send message: ..." as an error status. *)
Theorem send_message_gates_callback (st : State) :
  let message_text := strip (message_entry st) in
  let st' := exec _send_message st in
  outcome _send_message st = Ok tt
  /\ (sent st' = sent st ++ [message_text] \/ sent st' = sent st)
  /\ (sent st' = sent st ++ [message_text]
      <-> (message_callback st <> None /\ message_text <> ""
           /\ String.length message_text <= 1000))
  /\ (message_entry st' <> message_entry st ->
      exists cb, message_callback st = Some cb /\ cb message_text = Ok tt)
  /\ (forall cb, message_callback st = Some cb -> message_text <> "" ->
      String.length message_text <= 1000 -> cb message_text = Ok tt ->
      message_entry st' = ""
      /\ status_label st' = mkLabel "Message sent" "green")
  /\ (forall cb e, message_callback st = Some cb -> message_text <> "" ->
      String.length message_text <= 1000 -> cb message_text = Raise e ->
      message_entry st' = message_entry st
      /\ status_label st'
         = mkLabel ("Failed to send message: " ++ str_of_exn e)%string "red").
Proof.
  intros message_text st'. subst st'.
  unfold exec, outcome, _send_message, bind, get. simpl.
  fold message_text.
  destruct (str_truthy message_text) eqn:Et; simpl.
  2:{ apply str_truthy_false in Et.
      split; [reflexivity|]. split; [now right|].
      split; [split; [intros H; symmetry in H; now apply app_one_neq in H | tauto]|].
      split; [congruence|]. split; intros; congruence. }
  assert (Hne : message_text <> "").
  { intros H. apply str_truthy_false in H. congruence. }
  destruct (1000 <? String.length message_text) eqn:El; simpl.
  { apply Nat.ltb_lt in El.
    split; [reflexivity|]. split; [now right|].
    split; [split; [intros H; symmetry in H; now apply app_one_neq in H | lia]|].
    split; [congruence|]. split; intros; lia. }
  apply Nat.ltb_ge in El.
  destruct (message_callback st) as [cb|] eqn:Ecb; simpl.
  2:{ split; [reflexivity|]. split; [now right|].
      split; [split; [intros H; symmetry in H; now apply app_one_neq in H | tauto]|].
      split; [congruence|]. split; intros; congruence. }
  unfold try_except, call_message_callback, bind, modify, lift. simpl.
  destruct (cb message_text) as [[]|e] eqn:Er; simpl.
  - split; [reflexivity|]. split; [now left|].
    split; [split; [intros _; repeat split; [congruence|exact Hne|exact El] | reflexivity]|].
    split; [intros _; exists cb; now split|].
    split.
    + intros cb0 H0 _ _ _. now split.
    + intros cb0 e0 H0 _ _ H1. inversion H0; subst. congruence.
  - split; [reflexivity|]. split; [now left|].
    split; [split; [intros _; repeat split; [congruence|exact Hne|exact El] | reflexivity]|].
    split; [congruence|].
    split.
    + intros cb0 H0 _ _ H1. inversion H0; subst. congruence.
    + intros cb0 e0 H0 _ _ H1. inversion H0; subst.
      rewrite Er in H1. inversion H1; subst. now split.
Qed.

Lemma send_message_gates_callback_witness :
  (message_entry (exec _send_message (typing accepting)) = ""
   /\ sent (exec _send_message (typing accepting)) = ["hello"])
  /\ (message_entry (exec _send_message (typing failing)) = "  hello "
      /\ status_label (exec _send_message (typing failing))
         = mkLabel "Failed to send message: connection lost" "red").
Proof.
  assert (Hne : strip "  hello " <> "") by (vm_compute; discriminate).
  assert (Hle : String.length (strip "  hello ") <= 1000)
    by (apply Nat.leb_le; reflexivity).
  split.
  - destruct (send_message_gates_callback (typing accepting))
      as (_ & _ & Hiff & _ & Hok & _).
    split.
    + apply (Hok accepting); [reflexivity | exact Hne | exact Hle | reflexivity].
    + apply Hiff. split; [discriminate | split; [exact Hne | exact Hle]].
  - destruct (send_message_gates_callback (typing failing))
      as (_ & _ & _ & _ & _ & Hfail).
    apply (Hfail failing (OtherException "connection lost"));
      [reflexivity | exact Hne | exact Hle | reflexivity].
Defined.

End ChatFrameFacts.

(* ================================================================== *)
(** * VideoFrame: slot assignment *)
(* ================================================================== *)

Module VideoFrameFacts.
Import Py VideoFrame PyFacts.


Lemma update_slot_length slots i f :
  List.length (update_slot slots i f) = List.length slots.
Proof.
  revert i. induction slots as [|s r IH]; intros [|i]; simpl; auto.
Qed.

Lemma nth_error_update_slot slots i f j :
  nth_error (update_slot slots i f) j
  = if i =? j then option_map f (nth_error slots j) else nth_error slots j.
Proof.
  revert i j. induction slots as [|s r IH]; intros [|i] [|j]; simpl; auto;
    now destruct (i =? j).
Qed.

Lemma clear_remote_slots_length slots i :
  List.length (clear_remote_slots slots i) = List.length slots.
Proof.
  revert i. induction slots as [|s r IH]; intros i; simpl; auto.
Qed.

Lemma nth_error_clear_remote_slots slots i j :
  nth_error (clear_remote_slots slots i) j
  = option_map
      (fun slot => if (0 <? i + j) && widget_exists (frame_widget slot)
                   then mkSlot (frame slot) None false else slot)
      (nth_error slots j).
Proof.
  revert i j. induction slots as [|s r IH]; intros i [|j]; simpl; auto.
  - now rewrite Nat.add_0_r.
  - rewrite IH. now rewrite Nat.add_succ_comm.
Qed.

Lemma find_participant_Some slots k c j :
  find_participant slots k c = Some j ->
  k <= j /\ holds slots (j - k) c
  /\ forall i, i < j - k -> ~ holds slots i c.
Proof.
  revert k. induction slots as [|s r IH]; intros k; simpl; [discriminate|].
  destruct (opt_string_eqb (participant_id s) (Some c)) eqn:E.
  - intros H. inversion H; subst. split; [lia|]. rewrite Nat.sub_diag. split.
    + exists s. split; [reflexivity|]. now apply opt_string_eqb_eq.
    + intros i Hi. lia.
  - intros H. apply IH in H. destruct H as (Hk & Hh & Hmin).
    split; [lia|].
    replace (j - k) with (S (j - S k)) by lia. split.
    + destruct Hh as (s' & Hs' & Hp). exists s'. now split.
    + intros [|i] Hi.
      * intros (s' & Hs' & Hp). simpl in Hs'. inversion Hs'; subst.
        apply opt_string_eqb_eq in Hp. congruence.
      * intros (s' & Hs' & Hp). simpl in Hs'.
        apply (Hmin i); [lia|]. exists s'. now split.
Qed.

Lemma find_participant_None slots k c :
  find_participant slots k c = None -> forall i, ~ holds slots i c.
Proof.
  revert k. induction slots as [|s r IH]; intros k; simpl.
  - intros _ [|i] (s' & Hs' & _); discriminate.
  - destruct (opt_string_eqb (participant_id s) (Some c)) eqn:E;
      [discriminate|].
    intros H [|i] (s' & Hs' & Hp); simpl in Hs'.
    + inversion Hs'; subst. apply opt_string_eqb_eq in Hp. congruence.
    + apply (IH _ H i). exists s'. now split.
Qed.

Lemma first_preferred_in slots pref j :
  first_preferred slots pref = Some j -> In j pref.
Proof.
  induction pref as [|p pref IH]; simpl; [discriminate|].
  destruct (nth_error slots p) as [s|]; [|auto].
  destruct (negb (active s) || is_None (participant_id s)); [|auto].
  intros H. inversion H. now left.
Qed.

Lemma first_inactive_in slots range j :
  first_inactive slots range = Some j -> In j range.
Proof.
  induction range as [|p range IH]; simpl; [discriminate|].
  destruct (nth_error slots p) as [s|]; [|discriminate].
  destruct (negb (active s)); [|auto].
  intros H. inversion H. now left.
Qed.

(** Slot 0 is returned only to the client it already holds. *)
Lemma get_video_slot_stable_zero c slots :
  _get_video_slot_stable c slots = Some 0 -> holds slots 0 c.
Proof.
  unfold _get_video_slot_stable.
  destruct (find_participant slots 0 c) as [j|] eqn:Ef.
  - intros H. inversion H; subst. apply find_participant_Some in Ef.
    now destruct Ef as (_ & Hh & _).
  - destruct (negb (c =? "local")%string).
    + destruct (first_preferred slots [1; 3; 2]) as [j|] eqn:Ep.
      * intros H. inversion H; subst. apply first_preferred_in in Ep.
        simpl in Ep. lia.
      * intros H. apply first_inactive_in in H. apply in_seq in H. lia.
    + intros H. apply first_inactive_in in H. apply in_seq in H. lia.
Qed.


Lemma wf_update_slot slots i f :
  wf slots ->
  (i = 0 -> forall s, nth_error slots 0 = Some s ->
            participant_id (f s) = None
            \/ participant_id (f s) = Some "local") ->
  wf (update_slot slots i f).
Proof.
  intros [Hlen (s0 & Hs0 & Hp)] Hf. split.
  - now rewrite update_slot_length.
  - rewrite nth_error_update_slot, Hs0. destruct i as [|i]; simpl.
    + exists (f s0). split; [reflexivity|]. now apply Hf.
    + exists s0. now split.
Qed.

Lemma wf_clear_remote_slots slots : wf slots -> wf (clear_remote_slots slots 0).
Proof.
  intros [Hlen (s0 & Hs0 & Hp)]. split.
  - now rewrite clear_remote_slots_length.
  - rewrite nth_error_clear_remote_slots, Hs0. simpl. exists s0. now split.
Qed.

Lemma assign_loop_wf ps assigned k slots :
  0 < k -> wf slots -> wf (snd (assign_loop ps assigned k slots)).
Proof.
  revert assigned k slots.
  induction ps as [|p ps IH]; intros assigned k slots Hk Hwf; simpl;
    [exact Hwf|].
  destruct (mem_id (client_id p) assigned || (List.length slots <=? k)).
  - now apply IH.
  - apply IH; [lia|]. apply wf_update_slot; [exact Hwf|lia].
Qed.

Lemma wf_init : wf (video_slots init).
Proof.
  split; [reflexivity|]. eexists. split; [reflexivity|]. now right.
Qed.

Lemma wf_run_op op st : wf (video_slots st) -> wf (video_slots (run_op op st)).
Proof.
  intros Hwf.
  destruct op as [participants | c | c u v | | c | ok c | i l]; simpl.
  - (* update_video_feeds *)
    unfold update_video_feeds. simpl.
    pose proof (assign_loop_wf (active_participants participants) [] 1
                  (clear_remote_slots (video_slots st) 0) Nat.lt_0_1
                  (wf_clear_remote_slots _ Hwf)) as H.
    destruct (assign_loop _ _ _ _) as [[a k] slots']. exact H.
  - (* update_remote_video *)
    unfold update_remote_video.
    destruct (negb _); [exact Hwf|].
    destruct (_get_video_slot_stable c (video_slots st)) as [j|] eqn:E;
      [|exact Hwf].
    destruct (j <? List.length (video_slots st)); [|exact Hwf].
    simpl. apply wf_update_slot; [exact Hwf|].
    intros -> s Hs. simpl. apply get_video_slot_stable_zero in E.
    destruct E as (s' & Hs' & Hp').
    destruct Hwf as [_ (s0 & Hs0 & Hp)]. rewrite Hs0 in Hs'.
    inversion Hs'; subst. rewrite Hp' in Hp. destruct Hp as [Hp|Hp];
      [discriminate|]. now right.
  - exact Hwf.
  - (* _clear_local_video_slot *)
    unfold _clear_local_video_slot.
    destruct (nth_error (video_slots st) 0) as [s|]; [|exact Hwf].
    destruct (widget_exists _); [|exact Hwf].
    simpl. apply wf_update_slot; [exact Hwf|]. intros _ s' _. now right.
  - (* clear_remote_video_slot *)
    unfold clear_remote_video_slot.
    destruct (find_participant _ _ _) as [j|]; [|exact Hwf].
    destruct (nth_error (video_slots st) j) as [s|]; [|exact Hwf].
    destruct (widget_exists _); [|exact Hwf].
    simpl. apply wf_update_slot; [exact Hwf|]. intros _ s' _. now left.
  - (* clear_video_slot *)
    unfold clear_video_slot.
    destruct (negb ok); [exact Hwf|].
    destruct (find_participant _ _ _) as [j|]; [|exact Hwf].
    destruct (nth_error (video_slots st) j) as [s|]; [|exact Hwf].
    destruct (widget_exists _); [|exact Hwf].
    simpl. apply wf_update_slot; [exact Hwf|]. intros -> s' _. now right.
  - (* the toolkit destroys a frame *)
    apply wf_update_slot; [exact Hwf|]. intros _ s Hs. simpl.
    destruct Hwf as [_ (s0 & Hs0 & Hp)]. rewrite Hs0 in Hs.
    now inversion Hs; subst.
Qed.

Lemma reachable_wf st : reachable st -> wf (video_slots st).
Proof.
  induction 1 as [|st op _ IH]; [apply wf_init | now apply wf_run_op].
Qed.


Lemma available_nth slots i s :
  nth_error slots i = Some s ->
  (available slots i
   <-> negb (active s) || is_None (participant_id s) = true).
Proof.
  intros Hs. unfold available. split.
  - intros (s' & Hs' & H). rewrite Hs in Hs'. inversion Hs'; subst.
    destruct H as [H|H]; rewrite H; simpl; auto using orb_true_r.
  - intros H. exists s. split; [exact Hs|].
    destruct (active s); simpl in H; [right|now left].
    now destruct (participant_id s).
Qed.

Lemma occupied_nth slots i c s :
  nth_error slots i = Some s ->
  (occupied_by_other slots i c
   <-> active s = true
       /\ exists p, participant_id s = Some p /\ p <> c).
Proof.
  intros Hs. unfold occupied_by_other. split.
  - intros (s' & p & Hs' & Ha & Hp & Hne). rewrite Hs in Hs'.
    inversion Hs'; subst. split; [exact Ha|]. now exists p.
  - intros (Ha & p & Hp & Hne). now exists s, p.
Qed.

Lemma occupied_nth_bool slots i c s :
  nth_error slots i = Some s -> participant_id s <> Some c ->
  (occupied_by_other slots i c
   <-> active s && negb (is_None (participant_id s)) = true).
Proof.
  intros Hs Hne. rewrite (occupied_nth _ _ _ _ Hs). split.
  - intros (Ha & p & Hp & _). now rewrite Ha, Hp.
  - intros H. apply andb_prop in H. destruct H as [Ha Hp].
    split; [exact Ha|]. destruct (participant_id s) as [p|]; [|discriminate].
    exists p. split; [reflexivity|]. congruence.
Qed.

Lemma holds_nth slots i c s :
  nth_error slots i = Some s ->
  (holds slots i c <-> participant_id s = Some c).
Proof.
  intros Hs. unfold holds. split.
  - intros (s' & Hs' & H). rewrite Hs in Hs'. now inversion Hs'; subst.
  - intros H. now exists s.
Qed.

Lemma holds_lt slots i c : holds slots i c -> i < List.length slots.
Proof.
  intros (s & Hs & _). apply nth_error_Some. congruence.
Qed.

(** C2: in every reachable state and for every remote client id,
    [_get_video_slot_stable] returns the first slot that already holds the
    client if there is one; otherwise the first of the slots 1, 3, 2 (in
    this order) that is inactive or has no participant; it never returns
    slot 0; and it returns [None] exactly when the slots 1, 2 and 3 are all
    occupied by other clients. *)
Theorem get_video_slot_stable_spec (st : State) (client_id : string) :
  reachable st -> client_id <> "local" ->
  let slots := video_slots st in
  let r := _get_video_slot_stable client_id slots in
  (forall i, holds slots i client_id ->
             exists j, r = Some j /\ holds slots j client_id /\ j <= i)
  /\ ((forall i, ~ holds slots i client_id) ->
      (available slots 1 -> r = Some 1)
      /\ (~ available slots 1 -> available slots 3 -> r = Some 3)
      /\ (~ available slots 1 -> ~ available slots 3 -> available slots 2 ->
          r = Some 2))
  /\ r <> Some 0
  /\ (r = None
      <-> occupied_by_other slots 1 client_id
          /\ occupied_by_other slots 2 client_id
          /\ occupied_by_other slots 3 client_id).
Proof.
  intros Hreach Hremote slots r.
  pose proof (reachable_wf st Hreach) as Hwf. fold slots in Hwf.
  assert (Hzero : ~ holds slots 0 client_id).
  { destruct Hwf as [_ (s0 & Hs0 & Hp)]. intros H.
    apply (holds_nth _ _ _ _ Hs0) in H. rewrite H in Hp.
    destruct Hp as [Hp|Hp]; [discriminate|]. inversion Hp. contradiction. }
  assert (Hr0 : r <> Some 0).
  { intros H. now apply get_video_slot_stable_zero in H. }
  destruct Hwf as [Hlen _].
  subst r. unfold _get_video_slot_stable.
  destruct (find_participant slots 0 client_id) as [j|] eqn:Ef.
  - (* the client already has a slot *)
    apply find_participant_Some in Ef. destruct Ef as (_ & Hj & Hmin).
    rewrite Nat.sub_0_r in Hj, Hmin.
    split; [|split; [|split; [|split]]].
    + intros i Hi. exists j. repeat split; [exact Hj|].
      destruct (Nat.le_gt_cases j i) as [H|H]; [exact H|].
      now apply Hmin in H.
    + intros Hnone. now apply Hnone in Hj.
    + intros H. inversion H; subst. contradiction.
    + discriminate.
    + intros (H1 & H2 & H3). pose proof (holds_lt _ _ _ Hj) as Hlt.
      assert (Hj0 : j <> 0) by (intros ->; contradiction).
      destruct Hj as (s & Hs & Hp).
      assert (Hocc : occupied_by_other slots j client_id).
      { destruct j as [|[|[|[|j]]]]; try assumption; try lia. }
      apply (occupied_nth _ _ _ _ Hs) in Hocc.
      destruct Hocc as (_ & p & Hp' & Hne). congruence.
  - (* no slot holds the client *)
    pose proof (find_participant_None _ _ _ Ef) as Hnone.
    unfold _get_video_slot_stable in Hr0. rewrite Ef in Hr0.
    destruct (String.eqb_spec client_id "local") as [|_]; [contradiction|].
    simpl negb in *. cbv iota in *.
    destruct slots as [|s0 [|s1 [|s2 [|s3 [|]]]]]; try discriminate Hlen.
    assert (A1 := available_nth [s0; s1; s2; s3] 1 s1 eq_refl).
    assert (A2 := available_nth [s0; s1; s2; s3] 2 s2 eq_refl).
    assert (A3 := available_nth [s0; s1; s2; s3] 3 s3 eq_refl).
    assert (N1 := Hnone 1). assert (N2 := Hnone 2). assert (N3 := Hnone 3).
    rewrite (holds_nth [s0; s1; s2; s3] 1 client_id s1 eq_refl) in N1.
    rewrite (holds_nth [s0; s1; s2; s3] 2 client_id s2 eq_refl) in N2.
    rewrite (holds_nth [s0; s1; s2; s3] 3 client_id s3 eq_refl) in N3.
    assert (O1 := occupied_nth_bool [s0; s1; s2; s3] 1 client_id s1 eq_refl N1).
    assert (O2 := occupied_nth_bool [s0; s1; s2; s3] 2 client_id s2 eq_refl N2).
    assert (O3 := occupied_nth_bool [s0; s1; s2; s3] 3 client_id s3 eq_refl N3).
    clear N1 N2 N3.
    simpl in Hr0 |- *.
    split; [intros i Hi; now apply Hnone in Hi|].
    clear Hnone Hzero Ef Hlen.
    generalize dependent (available [s0; s1; s2; s3] 1).
    generalize dependent (available [s0; s1; s2; s3] 2).
    generalize dependent (available [s0; s1; s2; s3] 3).
    generalize dependent (occupied_by_other [s0; s1; s2; s3] 1 client_id).
    generalize dependent (occupied_by_other [s0; s1; s2; s3] 2 client_id).
    generalize dependent (occupied_by_other [s0; s1; s2; s3] 3 client_id).
    destruct s1 as [f1 p1 a1], s2 as [f2 p2 a2], s3 as [f3 p3 a3].
    simpl.
    destruct a1, a2, a3, p1 as [p1|], p2 as [p2|], p3 as [p3|]; simpl;
      intros; intuition (try congruence; try discriminate).
Qed.


Lemma mem_id_In p l : mem_id p l = true <-> In p l.
Proof.
  unfold mem_id. rewrite existsb_exists. split.
  - intros (x & Hx & E). apply opt_string_eqb_eq in E. now subst.
  - intros H. exists p. split; [exact H|apply opt_string_eqb_refl].
Qed.

Lemma mem_id_cons_false p x l :
  mem_id p (x :: l) = false -> p <> x /\ mem_id p l = false.
Proof.
  simpl. intros H. apply orb_false_elim in H. destruct H as [H1 H2].
  split; [|exact H2]. intros ->. now rewrite opt_string_eqb_refl in H1.
Qed.

(** What the assignment loop does, from any point of its run: [ids] are
    the ids it assigns, in order, to the slots [k], [k+1], ... *)
Lemma assign_loop_spec ps assigned k slots :
  k <= List.length slots ->
  exists ids slots',
    assign_loop ps assigned k slots
    = (List.rev ids ++ assigned, k + List.length ids, slots')
    /\ k + List.length ids <= List.length slots
    /\ List.length slots' = List.length slots
    /\ NoDup ids
    /\ (forall id, In id ids -> mem_id id assigned = false)
    /\ subseq ids (map client_id ps)
    /\ (forall i, i < List.length ids ->
                  nth_error slots' (k + i)
                  = option_map
                      (fun s => mkSlot (frame s) (nth i ids None) true)
                      (nth_error slots (k + i)))
    /\ (forall j, j < k \/ k + List.length ids <= j ->
                  nth_error slots' j = nth_error slots j)
    /\ (k + List.length ids = List.length slots
        \/ forall p, In p ps ->
                     In (client_id p) ids
                     \/ mem_id (client_id p) assigned = true).
Proof.
  revert assigned k slots.
  induction ps as [|p ps IH]; intros assigned k slots Hk.
  - exists [], slots. simpl. rewrite Nat.add_0_r.
    repeat split; auto; try constructor; try (intros; lia); try contradiction.
    all: try (right; intros ? []).
  - simpl.
    destruct (mem_id (client_id p) assigned) eqn:Em; simpl.
    + destruct (IH assigned k slots Hk)
        as (ids & slots' & E & Hle & Hlen & Hnd & Hfresh & Hsub & Hin & Hout
            & Hfull).
      exists ids, slots'. repeat split; auto.
      * now constructor.
      * destruct Hfull as [Hfull|Hfull]; [now left|right].
        intros q [<-|Hq]; [now right|now apply Hfull].
    + destruct (List.length slots <=? k) eqn:El.
      * apply Nat.leb_le in El.
        destruct (IH assigned k slots Hk)
          as (ids & slots' & E & Hle & Hlen & Hnd & Hfresh & Hsub & Hin
              & Hout & Hfull).
        exists ids, slots'. repeat split; auto.
        -- now constructor.
        -- left. lia.
      * apply Nat.leb_gt in El.
        set (f := fun slot => mkSlot (frame slot) (client_id p) true).
        assert (Hk' : S k <= List.length (update_slot slots k f))
          by (rewrite update_slot_length; lia).
        destruct (IH (client_id p :: assigned) (S k) (update_slot slots k f)
                     Hk')
          as (ids & slots' & E & Hle & Hlen & Hnd & Hfresh & Hsub & Hin
              & Hout & Hfull).
        rewrite update_slot_length in Hle, Hlen.
        exists (client_id p :: ids), slots'.
        split; [|split; [|split; [|split; [|split; [|split; [|split;
               [|split]]]]]]].
        -- rewrite E. simpl. rewrite <- app_assoc. simpl.
           now rewrite Nat.add_succ_r.
        -- simpl. lia.
        -- exact Hlen.
        -- constructor; [|exact Hnd]. intros Hc. apply Hfresh in Hc.
           apply mem_id_cons_false in Hc. now destruct Hc.
        -- intros id [<-|Hid]; [exact Em|].
           apply Hfresh in Hid. now apply mem_id_cons_false in Hid.
        -- now constructor.
        -- intros [|i] Hi.
           ++ rewrite Nat.add_0_r, Hout by lia.
              rewrite nth_error_update_slot, Nat.eqb_refl. reflexivity.
           ++ simpl in Hi. rewrite Nat.add_succ_r.
              change (S (k + i)) with (S k + i). rewrite Hin by lia.
              rewrite nth_error_update_slot.
              replace (k =? S k + i) with false
                by (symmetry; apply Nat.eqb_neq; lia).
              reflexivity.
        -- intros j Hj. simpl in Hj. rewrite Hout by lia.
           rewrite nth_error_update_slot.
           replace (k =? j) with false by (symmetry; apply Nat.eqb_neq; lia).
           reflexivity.
        -- destruct Hfull as [Hfull|Hfull];
             [left; rewrite update_slot_length in Hfull; simpl; lia|right].
           intros q [<-|Hq]; [left; now left|].
           destruct (Hfull q Hq) as [H|H]; [left; now right|].
           simpl in H. apply orb_prop in H. destruct H as [H|H].
           ++ apply opt_string_eqb_eq in H. left. left. now symmetry.
           ++ now right.
Qed.


Lemma widget_exists_alive s :
  frame s = Tk.Alive -> widget_exists (frame_widget s) = true.
Proof. intros H. unfold widget_exists, frame_widget. simpl. now rewrite H. Qed.

(** What [update_video_feeds] does keep: slot 0 is left as it was; the
    client ids it assigns ([ids], at most three, pairwise different, in
    the order in
    which the video-enabled participants are iterated, and all of them
    unless the slots run out) go to the slots 1, 2, ... in this order, each
    marked active; the slots after them are not assigned; and when the
    frames of the slots still exist no two active remote slots hold the
    same id afterwards. *)
Theorem update_video_feeds_assignment
    (participants : list (string * Participant)) (st : State) :
  reachable st ->
  let before := video_slots st in
  let after := video_slots (update_video_feeds participants st) in
  let candidates := map client_id (active_participants participants) in
  nth_error after 0 = nth_error before 0
  /\ exists ids,
      List.length ids <= 3
      /\ NoDup ids
      /\ subseq ids candidates
      /\ (List.length ids = 3 \/ forall id, In id candidates -> In id ids)
      /\ (forall i, i < List.length ids ->
                    exists s, nth_error after (S i) = Some s
                              /\ participant_id s = nth i ids None
                              /\ active s = true)
      /\ (forall j, List.length ids < j ->
                    nth_error after j
                    = nth_error (clear_remote_slots before 0) j)
      /\ ((forall s, In s before -> frame s = Tk.Alive) ->
          forall i j si sj,
            0 < i -> 0 < j -> i <> j ->
            nth_error after i = Some si -> nth_error after j = Some sj ->
            active si = true -> active sj = true ->
            participant_id si <> participant_id sj).
Proof.
  intros Hreach before after candidates.
  pose proof (reachable_wf st Hreach) as [Hlen _]. fold before in Hlen.
  set (cleared := clear_remote_slots before 0).
  assert (Hclen : List.length cleared = 4)
    by (unfold cleared; now rewrite clear_remote_slots_length).
  assert (H1 : 1 <= List.length cleared) by lia.
  destruct (assign_loop_spec (active_participants participants) [] 1 cleared H1)
    as (ids & slots' & E & Hle & Hlen' & Hnd & _ & Hsub & Hin & Hout & Hfull).
  assert (Hafter : after = slots').
  { unfold after, update_video_feeds. simpl. fold before. fold cleared.
    now rewrite E. }
  rewrite Hafter. clear Hafter after.
  assert (Hslot : forall i, i < List.length ids ->
             exists c, nth_error cleared (S i) = Some c
                       /\ nth_error slots' (S i)
                          = Some (mkSlot (frame c) (nth i ids None) true)).
  { intros i Hi. specialize (Hin i Hi). change (1 + i) with (S i) in Hin.
    destruct (nth_error cleared (S i)) as [c|] eqn:Ec.
    - exists c. split; [reflexivity|]. exact Hin.
    - apply nth_error_None in Ec. lia. }
  split.
  - rewrite Hout by (left; lia). unfold cleared.
    rewrite nth_error_clear_remote_slots.
    destruct (nth_error before 0); reflexivity.
  - exists ids. split; [lia|]. split; [exact Hnd|]. split; [exact Hsub|].
    split; [|split; [|split]].
    + destruct Hfull as [Hfull|Hfull]; [left; lia|right].
      intros id Hid. apply in_map_iff in Hid. destruct Hid as (p & <- & Hp).
      destruct (Hfull p Hp) as [H|H]; [exact H|discriminate].
    + intros i Hi. destruct (Hslot i Hi) as (c & _ & Hs).
      eexists. split; [exact Hs|]. now split.
    + intros j Hj. apply Hout. right. simpl. lia.
    + intros Halive i j si sj Hi Hj Hij Hsi Hsj Hai Haj.
      assert (Hinactive : forall n s, List.length ids < n ->
                 nth_error slots' n = Some s -> active s = false).
      { intros n s Hn Hs. rewrite Hout in Hs by (right; simpl; lia).
        unfold cleared in Hs. rewrite nth_error_clear_remote_slots in Hs.
        destruct (nth_error before n) as [b|] eqn:Eb; [|discriminate].
        simpl in Hs. rewrite widget_exists_alive in Hs
          by (apply Halive; eapply nth_error_In; exact Eb).
        destruct n as [|n]; [lia|]. simpl in Hs. now inversion Hs. }
      assert (Hi' : i <= List.length ids).
      { destruct (Nat.le_gt_cases i (List.length ids)) as [H|H]; [exact H|].
        rewrite (Hinactive i si H Hsi) in Hai. discriminate. }
      assert (Hj' : j <= List.length ids).
      { destruct (Nat.le_gt_cases j (List.length ids)) as [H|H]; [exact H|].
        rewrite (Hinactive j sj H Hsj) in Haj. discriminate. }
      destruct i as [|i]; [lia|]. destruct j as [|j]; [lia|].
      destruct (Hslot i) as (ci & _ & Hsi'); [lia|].
      destruct (Hslot j) as (cj & _ & Hsj'); [lia|].
      rewrite Hsi in Hsi'. rewrite Hsj in Hsj'.
      inversion Hsi'; subst. inversion Hsj'; subst. simpl.
      intros Heq. apply (NoDup_nth ids None) in Heq; [lia|exact Hnd|lia|lia].
Qed.


(** A remote client joining a fresh frame. *)
Lemma get_video_slot_stable_spec_witness :
  _get_video_slot_stable "alice" (video_slots init) = Some 1.
Proof.
  destruct (get_video_slot_stable_spec init "alice" reach_init)
    as (_ & Hfree & _ & _); [discriminate|].
  destruct Hfree as (H1 & _ & _).
  - intros i (s & Hs & Hp).
    destruct i as [|[|[|[|i]]]]; simpl in Hs; inversion Hs; subst;
      try discriminate.
    destruct i; discriminate.
  - apply H1. eexists. split; [reflexivity|]. now left.
Defined.

Lemma update_video_feeds_assignment_witness :
  nth_error (video_slots (update_video_feeds three_participants init)) 0
  = nth_error (video_slots init) 0.
Proof.
  destruct (update_video_feeds_assignment three_participants init reach_init)
    as [H _].
  exact H.
Defined.

Example update_video_feeds_three_participants :
  map participant_id (video_slots (update_video_feeds three_participants init))
  = [Some "local"; Some "a"; Some "c"; None].
Proof. reflexivity. Qed.

(** Without the frames the clearing is skipped: a slot whose frame is gone
    keeps its id while the same id is assigned again further up. *)
Example stale_slot_keeps_id :
  let st := update_video_feeds three_participants init in
  let cy := [("c", mkParticipant (Some "c") (Some "Cy") (Some true))] in
  map participant_id (video_slots st)
  = [Some "local"; Some "a"; Some "c"; None]
  /\ map participant_id
       (video_slots
          (update_video_feeds cy (run_op (OpFrameGone 2 Tk.Destroyed) st)))
     = [Some "local"; Some "c"; Some "c"; None]
  /\ map participant_id (video_slots (update_video_feeds cy st))
     = [Some "local"; Some "c"; None; None].
Proof. repeat split. Qed.

(** C3 (evaluation at the failing input): on a frame that shows "a" in
    slot 1 and "c" in slot 2 and whose slot 2 has lost its frame widget,
    [update_video_feeds] for the one participant "c" leaves "c" in two
    active slots, 1 and 2: the pass that is to "clear all remote slots
    first to prevent duplicates" clears a slot only where the frame still
    exists, while the assignment that follows is made either way.  With
    the frame in place the same call leaves "c" in slot 1 alone. *)
Theorem update_video_feeds_duplicates_participant :
  let shown := update_video_feeds three_participants init in
  let st := run_op (OpFrameGone 2 Tk.Destroyed) shown in
  let cy := [("c", mkParticipant (Some "c") (Some "Cy") (Some true))] in
  let after := video_slots (update_video_feeds cy st) in
  reachable st
  /\ map participant_id (video_slots st)
     = [Some "local"; Some "a"; Some "c"; None]
  /\ map participant_id after = [Some "local"; Some "c"; Some "c"; None]
  /\ map active (skipn 1 after) = [true; true; false]
  /\ map participant_id (video_slots (update_video_feeds cy shown))
     = [Some "local"; Some "c"; None; None].
Proof.
  split; [|repeat split].
  apply reach_step. apply (reach_step init (OpUpdateVideoFeeds _)).
  apply reach_init.
Qed.

End VideoFrameFacts.

(* ================================================================== *)
(** * AudioFrame: what the audio callback is told *)
(* ================================================================== *)

Module AudioFrameFacts.
Import Py PyNotations AudioFrame.

(** Case analysis on what a callback does with its argument. *)
Ltac case_call f :=
  match goal with
  | |- context [f ?x] => destruct (f x)
  end.

Lemma toggle_audio_exec st :
  let st' := exec _toggle_audio st in
  enabled st' = negb (enabled st)
  /\ muted st' = muted st
  /\ mute_button_follows st'
  /\ calls st'
     = calls st ++ match audio_callback st with
                   | Some _ => [AudioCallback (enabled st' && negb (muted st'))]
                   | None => []
                   end.
Proof.
  unfold exec, _toggle_audio, invoke, bind, modify, get, lift,
    mute_button_follows.
  simpl. destruct (audio_callback st) as [f|]; simpl.
  - try case_call f; simpl; destruct (enabled st); simpl; auto.
  - rewrite app_nil_r. destruct (enabled st); simpl; auto.
Qed.

Lemma toggle_mute_exec st :
  let st' := exec _toggle_mute st in
  enabled st' = enabled st
  /\ muted st' = negb (muted st)
  /\ state (mute_button st') = state (mute_button st)
  /\ exists new,
      calls st' = calls st ++ new
      /\ forall arg, In (AudioCallback arg) new ->
                     arg = enabled st' && negb (muted st').
Proof.
  unfold exec, _toggle_mute, invoke, bind, modify, get, lift. simpl.
  destruct (mute_callback st) as [g|]; simpl.
  - try case_call g; simpl.
    + destruct (audio_callback st) as [f|]; simpl.
      * repeat split; auto.
        exists [MuteCallback (negb (muted st));
                AudioCallback (enabled st && negb (negb (muted st)))].
        split.
        -- try case_call f; simpl; now rewrite <- app_assoc.
        -- intros arg [H|[H|[]]]; [discriminate|].
           try case_call f; simpl; now inversion H.
      * repeat split; auto. exists [MuteCallback (negb (muted st))].
        split; [reflexivity|]. intros arg [H|[]]. discriminate.
    + repeat split; auto. exists [MuteCallback (negb (muted st))].
      split; [reflexivity|]. intros arg [H|[]]. discriminate.
  - destruct (audio_callback st) as [f|]; simpl.
    + repeat split; auto.
      exists [AudioCallback (enabled st && negb (negb (muted st)))].
      split.
      * try case_call f; reflexivity.
      * intros arg [H|[]]. try case_call f; simpl; now inversion H.
    + repeat split; auto. exists []. split; [now rewrite app_nil_r|].
      intros arg [].
Qed.

Lemma reachable_mute_button st : reachable st -> mute_button_follows st.
Proof.
  induction 1 as [|st op _ IH]; [reflexivity|].
  destruct op; simpl; try exact IH.
  - apply toggle_audio_exec.
  - unfold mute_button_follows in *.
    destruct (toggle_mute_exec st) as (He & _ & Hs & _).
    now rewrite Hs, He.
Qed.

(** C10: from any reachable state, every call that [_toggle_audio] or
    [_toggle_mute] makes to the audio callback passes
    [enabled and not muted] (evaluated after the toggle), so [True] is
    passed only when audio is enabled and not muted; and afterwards the
    mute button's state is 'normal' exactly when audio is enabled. *)
Theorem audio_callback_enabled_and_unmuted (st : State) (op : Op) :
  reachable st ->
  op = OpToggleAudio \/ op = OpToggleMute ->
  let st' := run_op op st in
  (exists new,
      calls st' = calls st ++ new
      /\ forall arg, In (AudioCallback arg) new ->
                     arg = enabled st' && negb (muted st')
                     /\ (arg = true ->
                         enabled st' = true /\ muted st' = false))
  /\ (state (mute_button st') = "normal" <-> enabled st' = true).
Proof.
  intros Hreach Hop st'.
  assert (Hinv : mute_button_follows st')
    by (apply reachable_mute_button; now constructor).
  split.
  - assert (Hnew : exists new,
               calls st' = calls st ++ new
               /\ forall arg, In (AudioCallback arg) new ->
                              arg = enabled st' && negb (muted st')).
    { subst st'. destruct Hop as [-> | ->]; simpl.
      - destruct (toggle_audio_exec st) as (_ & _ & _ & Hc).
        eexists. split; [exact Hc|].
        destruct (audio_callback st); intros arg Hin; simpl in Hin;
          [destruct Hin as [H|[]]; now inversion H | contradiction].
      - now destruct (toggle_mute_exec st) as (_ & _ & _ & Hc). }
    destruct Hnew as (new & Hc & Hargs). exists new. split; [exact Hc|].
    intros arg Hin. split; [now apply Hargs|].
    intros ->. apply Hargs in Hin. symmetry in Hin.
    apply andb_prop in Hin. destruct Hin as [He Hm].
    split; [exact He|]. now destruct (muted st').
  - unfold mute_button_follows in Hinv. rewrite Hinv.
    destruct (enabled st'); split; intros H; congruence.
Qed.


Lemma audio_callback_enabled_and_unmuted_witness :
  reachable listening
  /\ calls (run_op OpToggleAudio listening) = [AudioCallback true]
  /\ (state (mute_button (run_op OpToggleAudio listening)) = "normal"
      <-> enabled (run_op OpToggleAudio listening) = true).
Proof.
  assert (Hreach : reachable listening)
    by (apply (reach_step init (OpSetAudioCallback (fun _ => Ok tt)));
        apply reach_init).
  split; [exact Hreach|].
  destruct (audio_callback_enabled_and_unmuted listening OpToggleAudio Hreach
              (or_introl eq_refl)) as [_ H].
  split; [reflexivity|exact H].
Defined.

End AudioFrameFacts.

(* ================================================================== *)
(** * ScreenShareFrame: widget checks, presenter controls, cache *)
(* ================================================================== *)

Module ScreenShareFrameFacts.
Import Py PyNotations ScreenShareFrame PyFacts.

(** ** Defensive widget checks *)

Lemma safe_button_alive w kw :
  Tk.live w = Tk.Alive -> safe_button w kw = Tk.apply_options w kw.
Proof.
  intros H. unfold safe_button, _safe_button_update. simpl.
  unfold Tk.winfo_exists, Tk.config, Tk.call. now rewrite H.
Qed.

Lemma safe_label_alive w kw :
  Tk.live w = Tk.Alive -> safe_label w kw = Tk.apply_options w kw.
Proof.
  intros H. unfold safe_label, _safe_label_update. simpl.
  unfold Tk.winfo_exists, Tk.config, Tk.call. now rewrite H.
Qed.

Lemma safe_button_live w kw : Tk.live (safe_button w kw) = Tk.live w.
Proof.
  unfold safe_button, _safe_button_update. simpl.
  unfold Tk.winfo_exists, Tk.config, Tk.call.
  destruct (Tk.live w) eqn:E; simpl; auto.
Qed.

Lemma safe_label_live w kw : Tk.live (safe_label w kw) = Tk.live w.
Proof.
  unfold safe_label, _safe_label_update. simpl.
  unfold Tk.winfo_exists, Tk.config, Tk.call.
  destruct (Tk.live w) eqn:E; simpl; auto.
Qed.

(** C7: [_widget_exists] returns a truth value on every input and raises
    nothing; it returns [False] for [None] and for a widget that has been
    destroyed.  [_safe_button_update] and [_safe_label_update] raise
    nothing either; they apply the options to a widget that exists and
    leave alone whatever [_widget_exists] rejects. *)
Theorem defensive_checks_never_raise :
  (forall widget, exists b, VideoFrame._widget_exists widget = Ok b)
  /\ VideoFrame._widget_exists Tk.ONone = Ok false
  /\ (forall w, Tk.live w <> Tk.Alive ->
                VideoFrame._widget_exists (Tk.OWidget w) = Ok false)
  /\ (forall button kwargs,
         exists b, _safe_button_update button kwargs = Ok b
                   /\ (VideoFrame.widget_exists button = false -> b = button))
  /\ (forall label kwargs,
         exists l, _safe_label_update label kwargs = Ok l
                   /\ (VideoFrame.widget_exists label = false -> l = label))
  /\ (forall w kwargs,
         Tk.live w = Tk.Alive ->
         _safe_button_update (Tk.OWidget w) kwargs
         = Ok (Tk.OWidget (Tk.apply_options w kwargs))
         /\ _safe_label_update (Tk.OWidget w) kwargs
            = Ok (Tk.OWidget (Tk.apply_options w kwargs))).
Proof.
  split; [|split; [|split; [|split; [|split]]]].
  - intros [|w|]; unfold VideoFrame._widget_exists; simpl.
    + now exists false.
    + unfold Tk.winfo_exists. destruct (Tk.live w); simpl; eauto.
    + now exists false.
  - reflexivity.
  - intros w Hw. unfold VideoFrame._widget_exists. simpl.
    unfold Tk.winfo_exists. destruct (Tk.live w); simpl; congruence.
  - intros [|w|] kw; unfold _safe_button_update, VideoFrame.widget_exists,
      VideoFrame._widget_exists; simpl; eauto.
    unfold Tk.winfo_exists, Tk.config, Tk.call.
    destruct (Tk.live w); simpl; eauto.
    eexists. split; [reflexivity|discriminate].
  - intros [|w|] kw; unfold _safe_label_update, VideoFrame.widget_exists,
      VideoFrame._widget_exists; simpl; eauto.
    unfold Tk.winfo_exists, Tk.config, Tk.call.
    destruct (Tk.live w); simpl; eauto.
    eexists. split; [reflexivity|discriminate].
  - intros w kw Hw. unfold _safe_button_update, _safe_label_update. simpl.
    unfold Tk.winfo_exists, Tk.config, Tk.call. now rewrite Hw.
Qed.

(** ** Presenter controls *)

(** C4: while [is_sharing] is false and the button and the status label
    exist, [update_presenter] with a non-empty name disables the share
    button and writes "<name> is sharing" on the button and on the status;
    with [None] it enables the button with "Start Screen Share", sets the
    status to "Ready to share" and, the canvas and the screen label
    existing too, writes "No screen sharing active" on the screen label
    and returns. *)
Theorem update_presenter_drives_controls
    (env : Env) (st : State) (presenter_name : option string) :
  is_sharing st = false ->
  Tk.live (share_button st) = Tk.Alive ->
  Tk.live (sharing_status st) = Tk.Alive ->
  let st' := exec (update_presenter env presenter_name) st in
  (forall name, presenter_name = Some name -> name <> "" ->
      Tk.state (share_button st') = "disabled"
      /\ Tk.text (share_button st') = (name ++ " is sharing")%string
      /\ Tk.text (sharing_status st') = (name ++ " is sharing")%string)
  /\ (presenter_name = None ->
      Tk.state (share_button st') = "normal"
      /\ Tk.text (share_button st') = "Start Screen Share"
      /\ Tk.text (sharing_status st') = "Ready to share"
      /\ (Tk.live (screen_label st) = Tk.Alive ->
          cv_live (screen_canvas st) = Tk.Alive ->
          Tk.text (screen_label st') = "No screen sharing active"
          /\ outcome (update_presenter env presenter_name) st = Ok tt)).
Proof.
  intros Hs Hb Hl st'. subst st'.
  destruct st as [en sh cpn [bl bs bt bf] [sl ss stx sf] [ll ls lt lf] lp
                     [cl cp ci cn] fd pr ca lca cb rq aq].
  destruct env as [cv lv ww wh ok].
  simpl in Hs, Hb, Hl. subst sh bl sl. split.
  - intros name -> Hne. destruct name as [|c name]; [contradiction|].
    destruct cl, ll, cv; repeat split; reflexivity.
  - intros ->.
    destruct cl, ll; repeat split; intros; try discriminate; reflexivity.
Qed.


(** C5 (as amended): a presenter-role request (the button reads "Request
    Presenter Role", a callback is registered and returns) leaves the
    button disabled with "Requesting..." and registers
    [_reset_presenter_request_timeout] to run after 10000 ms.  What that
    call does is decided by the button text at the moment it runs: if it
    reads "Requesting...", the button goes back to 'normal' with "Request
    Presenter Role" and the status to "Request timed out - try again"; if
    it reads anything else, the frame is left exactly as it was.  A
    response ([set_presenter_status], [reset_screen_sharing_button])
    changes the text and leaves the registered calls in place. *)
Theorem presenter_request_timeout (st : State) :
  Tk.live (share_button st) = Tk.Alive ->
  Tk.live (sharing_status st) = Tk.Alive ->
  (forall cb,
      Tk.text (share_button st) = "Request Presenter Role" ->
      screen_share_callback st = Some cb -> cb true = Ok tt ->
      let st1 := exec _toggle_screen_share st in
      Tk.text (share_button st1) = "Requesting..."
      /\ Tk.state (share_button st1) = "disabled"
      /\ requests st1 = requests st ++ [true]
      /\ after_queue st1
         = after_queue st ++ [(10000%Z, ResetPresenterRequestTimeout)])
  /\ (Tk.text (share_button st) = "Requesting..." ->
      let st' := exec (run_deferred ResetPresenterRequestTimeout) st in
      Tk.state (share_button st') = "normal"
      /\ Tk.text (share_button st') = "Request Presenter Role"
      /\ Tk.text (sharing_status st') = "Request timed out - try again")
  /\ (Tk.text (share_button st) <> "Requesting..." ->
      exec (run_deferred ResetPresenterRequestTimeout) st = st)
  /\ (forall is_presenter presenter_name,
        after_queue (exec (set_presenter_status is_presenter presenter_name)
                          st)
        = after_queue st)
  /\ (let st' := exec reset_screen_sharing_button st in
      after_queue st' = after_queue st
      /\ Tk.text (share_button st') = "Request Presenter Role").
Proof.
  intros Hb Hl.
  destruct st as [en sh cpn [bl bs bt bf] [sl ss stx sf] [ll ls lt lf] lp
                     [cl cp ci cn] fd pr ca lca cb0 rq aq].
  simpl in Hb, Hl. subst bl sl.
  split; [|split; [|split; [|split]]].
  - intros cb Ht Hcb Hok. simpl in Ht, Hcb. subst bt cb0.
    unfold exec, _toggle_screen_share, try_except, bind, get, has_callback,
      invoke_callback.
    cbn -[String.eqb].
    unfold bind, modify, lift, get. cbn. rewrite Hok. cbn.
    repeat split.
  - intros Ht. simpl in Ht. subst bt. repeat split.
  - intros Ht. simpl in Ht.
    unfold exec, run_deferred, _reset_presenter_request_timeout, bind, get,
      lift.
    cbn.
    destruct (String.eqb_spec bt "Requesting..."); [contradiction|].
    reflexivity.
  - intros [|] [[|c name]|]; reflexivity.
  - split; reflexivity.
Qed.

(** ** The rescaling cache *)

Lemma clean_string_of_uint d : clean (NilEmpty.string_of_uint d) = true.
Proof. induction d; simpl; auto. Qed.

Lemma clean_str_of_Z z : clean (str_of_Z z) = true.
Proof.
  unfold str_of_Z. destruct (Z.to_int z); simpl; apply clean_string_of_uint.
Qed.

(** Two clean strings followed by a separator agree up to it. *)
Lemma clean_prefix_inj (a a' : string) (c c' : ascii) (r r' : string) :
  clean a = true -> clean a' = true ->
  clean (String c "") = false -> clean (String c' "") = false ->
  (a ++ String c r)%string = (a' ++ String c' r')%string ->
  a = a' /\ r = r'.
Proof.
  revert a'. induction a as [|x a IH]; intros [|x' a'] Ha Ha' Hc Hc' E;
    simpl in *.
  - inversion E. now split.
  - inversion E; subst. rewrite andb_true_r in Hc.
    apply andb_prop in Ha'. destruct Ha' as [Ha' _]. congruence.
  - inversion E; subst. rewrite andb_true_r in Hc'.
    apply andb_prop in Ha. destruct Ha as [Ha _]. congruence.
  - inversion E; subst.
    apply andb_prop in Ha, Ha'. destruct Ha as [_ Ha], Ha' as [_ Ha'].
    destruct (IH a' Ha Ha' Hc Hc' H1) as [-> ->]. now split.
Qed.

(** The cache key determines the image size and the canvas size. *)
Lemma scale_key_inj iw ih cw ch iw' ih' cw' ch' :
  scale_key iw ih cw ch = scale_key iw' ih' cw' ch' ->
  iw = iw' /\ ih = ih' /\ cw = cw' /\ ch = ch'.
Proof.
  unfold scale_key. simpl. intros E.
  apply clean_prefix_inj in E; try apply clean_str_of_Z; try reflexivity.
  destruct E as [E1 E].
  apply clean_prefix_inj in E; try apply clean_str_of_Z; try reflexivity.
  destruct E as [E2 E].
  apply clean_prefix_inj in E; try apply clean_str_of_Z; try reflexivity.
  destruct E as [E3 E4].
  repeat split; now apply str_of_Z_inj.
Qed.

Lemma keeps_ret {A} (a : A) : keeps (ret a).
Proof. intros st H. exact H. Qed.

Lemma keeps_raise {A} e : keeps (@raise State A e).
Proof. intros st H. exact H. Qed.

Lemma keeps_lift {A} (r : result A) : keeps (lift r).
Proof. intros st H. exact H. Qed.

Lemma keeps_get : keeps get.
Proof. intros st H. exact H. Qed.

Lemma keeps_bind {A B} (m : M State A) (k : A -> M State B) :
  keeps m -> (forall a, keeps (k a)) -> keeps (bind m k).
Proof.
  intros Hm Hk st H. unfold bind. specialize (Hm st H).
  destruct (m st) as [s' [a|e]]; simpl in *; [now apply Hk|exact Hm].
Qed.

Lemma keeps_try_except {A} (body : M State A) handler :
  keeps body -> (forall e, keeps (handler e)) -> keeps (try_except body handler).
Proof.
  intros Hm Hk st H. unfold try_except. specialize (Hm st H).
  destruct (body st) as [s' [a|e]]; simpl in *; [exact Hm|now apply Hk].
Qed.

Lemma keeps_modify (f : State -> State) :
  (forall st, consistent (cache st) -> consistent (cache (f st))) ->
  keeps (modify f).
Proof. intros Hf st H. now apply Hf. Qed.

Lemma keeps_compute_and_cache iw ih cw ch :
  keeps (compute_and_cache iw ih cw ch).
Proof.
  intros st H. unfold compute_and_cache, bind, lift, modify.
  destruct (compute_dimensions iw ih cw ch) as [[scale dims]|e] eqn:E; simpl;
    [|exact H].
  intros key Hkey. inversion Hkey; subst.
  now exists iw, ih, cw, ch, scale, dims.
Qed.

Lemma consistent_reset : consistent reset_cache.
Proof. intros key H. discriminate. Qed.

(** Operations are taken apart along their syntax; an assignment that does
    not touch the key or the stored dimensions keeps the invariant by
    computation. *)
Ltac keeps_step :=
  match goal with
  | |- keeps (bind _ _) => apply keeps_bind
  | |- keeps (try_except _ _) => apply keeps_try_except
  | |- keeps (ret _) => apply keeps_ret
  | |- keeps (raise _) => apply keeps_raise
  | |- keeps (lift _) => apply keeps_lift
  | |- keeps get => apply keeps_get
  | |- keeps (compute_and_cache _ _ _ _) => apply keeps_compute_and_cache
  | |- keeps (modify _) =>
      apply keeps_modify;
      let st := fresh "st" in let H := fresh "H" in
      intros st H; first [exact H | exact consistent_reset]
  | |- keeps (if ?b then _ else _) => destruct b
  | |- keeps (match ?x with _ => _ end) => destruct x
  | |- forall _, _ => intro
  end.

Ltac keeps_tac := repeat keeps_step.

Lemma keeps_button_update s t : keeps (button_update s t).
Proof. unfold button_update. keeps_tac. Qed.
Lemma keeps_status_update s t : keeps (status_update s t).
Proof. unfold status_update. keeps_tac. Qed.
Lemma keeps_screen_label_update t : keeps (screen_label_update t).
Proof. unfold screen_label_update. keeps_tac. Qed.
Lemma keeps_canvas_call {A} (a : A) : keeps (canvas_call a).
Proof. unfold canvas_call. keeps_tac. Qed.
Lemma keeps_label_call {A} (a : A) : keeps (label_call a).
Proof. unfold label_call. keeps_tac. Qed.

Create HintDb keeps.

#[local] Hint Resolve keeps_button_update keeps_status_update
  keeps_screen_label_update keeps_canvas_call keeps_label_call : keeps.

Lemma keeps_canvas_pack : keeps canvas_pack.
Proof. unfold canvas_pack. keeps_tac; auto with keeps. Qed.
Lemma keeps_canvas_pack_forget : keeps canvas_pack_forget.
Proof. unfold canvas_pack_forget. keeps_tac; auto with keeps. Qed.
Lemma keeps_label_pack : keeps label_pack.
Proof. unfold label_pack. keeps_tac; auto with keeps. Qed.
Lemma keeps_label_pack_forget : keeps label_pack_forget.
Proof. unfold label_pack_forget. keeps_tac; auto with keeps. Qed.
Lemma keeps_canvas_delete_all : keeps canvas_delete_all.
Proof. unfold canvas_delete_all. keeps_tac; auto with keeps. Qed.
Lemma keeps_canvas_create item : keeps (canvas_create item).
Proof. unfold canvas_create. keeps_tac; auto with keeps. Qed.
Lemma keeps_canvas_update_image id x y w h :
  keeps (canvas_update_image id x y w h).
Proof. unfold canvas_update_image. keeps_tac; auto with keeps. Qed.
Lemma keeps_invoke_callback b : keeps (invoke_callback b).
Proof. unfold invoke_callback. keeps_tac. Qed.
Lemma keeps_schedule ms f : keeps (schedule ms f).
Proof. unfold schedule. keeps_tac. Qed.

#[local] Hint Resolve keeps_canvas_pack keeps_canvas_pack_forget
  keeps_label_pack keeps_label_pack_forget keeps_canvas_delete_all
  keeps_canvas_create keeps_canvas_update_image keeps_invoke_callback
  keeps_schedule : keeps.

Lemma keeps_toggle_screen_share : keeps _toggle_screen_share.
Proof. unfold _toggle_screen_share. keeps_tac; auto with keeps. Qed.

Lemma keeps_run_deferred f : keeps (run_deferred f).
Proof.
  destruct f; simpl; [unfold _reset_presenter_request_timeout|];
    keeps_tac; auto with keeps.
Qed.

Lemma keeps_update_presenter env p : keeps (update_presenter env p).
Proof. unfold update_presenter. keeps_tac; auto with keeps. Qed.

Lemma keeps_set_presenter_status b p : keeps (set_presenter_status b p).
Proof. unfold set_presenter_status. keeps_tac; auto with keeps. Qed.

Lemma keeps_reset_screen_sharing_button : keeps reset_screen_sharing_button.
Proof. unfold reset_screen_sharing_button. keeps_tac; auto with keeps. Qed.

Lemma keeps_reset_screen_cache : keeps _reset_screen_cache.
Proof. unfold _reset_screen_cache. keeps_tac; auto with keeps. Qed.

Lemma keeps_show_black_screen env : keeps (_show_black_screen env).
Proof. unfold _show_black_screen. keeps_tac; auto with keeps. Qed.

Lemma keeps_show_local_sharing_preview env :
  keeps (_show_local_sharing_preview env).
Proof. unfold _show_local_sharing_preview. keeps_tac; auto with keeps. Qed.

#[local] Hint Resolve keeps_update_presenter keeps_reset_screen_cache
  keeps_show_black_screen keeps_show_local_sharing_preview : keeps.

Lemma keeps_set_sharing_status env b : keeps (set_sharing_status env b).
Proof. unfold set_sharing_status. keeps_tac; auto with keeps. Qed.

Lemma keeps_canvas_size env : keeps (canvas_size env).
Proof. unfold canvas_size. keeps_tac; auto with keeps. Qed.

Lemma keeps_scaled_dimensions iw ih cw ch :
  keeps (scaled_dimensions iw ih cw ch).
Proof. unfold scaled_dimensions. keeps_tac; auto with keeps. Qed.

Lemma keeps_draw_image cw ch w h : keeps (draw_image cw ch w h).
Proof. unfold draw_image. keeps_tac; auto with keeps. Qed.

#[local] Hint Resolve keeps_canvas_size keeps_scaled_dimensions
  keeps_draw_image : keeps.

Lemma keeps_display_screen_frame env f p :
  keeps (display_screen_frame env f p).
Proof. unfold display_screen_frame. keeps_tac; auto with keeps. Qed.

Lemma reachable_consistent st : reachable st -> consistent (cache st).
Proof.
  induction 1 as [|st op _ IH].
  - intros key H. discriminate.
  - destruct op; unfold run_op, exec;
      first [ exact IH
            | now apply keeps_toggle_screen_share
            | now apply keeps_run_deferred
            | now apply keeps_update_presenter
            | now apply keeps_set_presenter_status
            | now apply keeps_reset_screen_sharing_button
            | now apply keeps_set_sharing_status
            | now apply keeps_reset_screen_cache
            | now apply keeps_show_black_screen
            | now apply keeps_display_screen_frame ].
Qed.


Lemma compute_and_cache_outcome iw ih cw ch st :
  outcome (compute_and_cache iw ih cw ch) st = fresh_dimensions iw ih cw ch.
Proof.
  unfold outcome, compute_and_cache, fresh_dimensions, bind, lift, modify, ret.
  now destruct (compute_dimensions iw ih cw ch) as [[scale dims]|e].
Qed.

Lemma canvas_size_uncached env st :
  _cached_canvas_size (cache st) = Missing
  \/ _cached_canvas_size (cache st) = Present None ->
  outcome (canvas_size env) st
  = Tk.call (cv_live (screen_canvas st)) (window_size env).
Proof.
  destruct st as [en sh cpn b s l lp [cl cp ci cn] fd pr
                     [ccs cs ck cd li] lca cb rq aq].
  simpl. intros [-> | ->]; destruct cl; reflexivity.
Qed.

Lemma reset_screen_cache_cache st :
  cache (exec _reset_screen_cache st) = reset_cache.
Proof.
  destruct st as [en sh cpn b s l lp [cl cp ci cn] fd pr ca lca cb rq aq].
  destruct cl; reflexivity.
Qed.



(** ** The claims at concrete frames *)

Lemma defensive_checks_never_raise_witness :
  VideoFrame._widget_exists
    (Tk.OWidget (Tk.mkWidget Tk.Destroyed "normal" "Send" "")) = Ok false
  /\ exists b,
      _safe_button_update
        (Tk.OWidget (Tk.mkWidget Tk.AppDestroyed "normal" "Send" ""))
        (Tk.mkOptions (Some "disabled") None None) = Ok b
      /\ b = Tk.OWidget (Tk.mkWidget Tk.AppDestroyed "normal" "Send" "").
Proof.
  destruct defensive_checks_never_raise as (_ & _ & Hgone & Hbutton & _).
  split.
  - apply Hgone. discriminate.
  - destruct (Hbutton
                (Tk.OWidget (Tk.mkWidget Tk.AppDestroyed "normal" "Send" ""))
                (Tk.mkOptions (Some "disabled") None None))
      as (b & Hb & Hsame).
    exists b. split; [exact Hb|]. apply Hsame. reflexivity.
Defined.

Lemma update_presenter_drives_controls_witness :
  Tk.state (share_button
              (exec (update_presenter narrow_env (Some "ann")) init))
  = "disabled"
  /\ Tk.text (share_button
                (exec (update_presenter narrow_env (Some "ann")) init))
     = "ann is sharing"
  /\ Tk.text (sharing_status
                (exec (update_presenter narrow_env (Some "ann")) init))
     = "ann is sharing".
Proof.
  destruct (update_presenter_drives_controls narrow_env init (Some "ann")
              eq_refl eq_refl eq_refl) as [Hname _].
  apply (Hname "ann"); [reflexivity|discriminate].
Defined.

Lemma presenter_request_timeout_witness :
  after_queue requesting = [(10000%Z, ResetPresenterRequestTimeout)]
  /\ Tk.text (share_button (exec _reset_presenter_request_timeout requesting))
     = "Request Presenter Role"
  /\ exec _reset_presenter_request_timeout granted = granted.
Proof.
  split; [|split].
  - destruct (presenter_request_timeout may_request eq_refl eq_refl)
      as (Hreq & _).
    destruct (Hreq (fun _ => Ok tt) eq_refl eq_refl eq_refl)
      as (_ & _ & _ & Hq).
    exact Hq.
  - destruct (presenter_request_timeout requesting eq_refl eq_refl)
      as (_ & Hfire & _).
    destruct (Hfire eq_refl) as (_ & Ht & _). exact Ht.
  - destruct (presenter_request_timeout granted eq_refl eq_refl)
      as (_ & _ & Hkeep & _).
    apply Hkeep. vm_compute. discriminate.
Defined.

(** C5 (counterexample to the claim as worded): the first request is
    answered ([reset_screen_sharing_button] puts "Request Presenter Role"
    back), so a response has changed the button text in the meantime; the
    user asks again; then the timer of the first request runs.  It finds
    "Requesting..." and resets the button and the status of the second
    request, which is still pending. *)
Lemma presenter_request_timeout_resets_later_request :
  let st1 := exec _toggle_screen_share may_request in
  let st2 := exec reset_screen_sharing_button st1 in
  let st3 := exec _toggle_screen_share st2 in
  let st4 := exec (run_deferred ResetPresenterRequestTimeout) st3 in
  after_queue st1 = [(10000%Z, ResetPresenterRequestTimeout)]
  /\ Tk.text (share_button st1) = "Requesting..."
  /\ Tk.text (share_button st2) = "Request Presenter Role"
  /\ Tk.text (share_button st3) = "Requesting..."
  /\ Tk.state (share_button st3) = "disabled"
  /\ after_queue st3
     = [(10000%Z, ResetPresenterRequestTimeout);
        (10000%Z, ResetPresenterRequestTimeout)]
  /\ Tk.state (share_button st4) = "normal"
  /\ Tk.text (share_button st4) = "Request Presenter Role"
  /\ Tk.text (sharing_status st4) = "Request timed out - try again"
  /\ after_queue st4
     = after_queue st3
       ++ [(3000%Z,
            StatusLabelUpdate
              (Tk.mkOptions None (Some "Ready to request presenter role")
                            (Some "black")))].
Proof. vm_compute. repeat split. Qed.

Lemma showing_reachable : reachable showing.
Proof. unfold showing. apply reach_step. apply reach_init. Qed.


(** The frame of the example is drawn 990 x 556, centred; a second frame
    reuses the cached sizes although the window has changed; after
    [_reset_screen_cache] the new window size is used. *)
Example display_screen_frame_full_hd :
  cv_items (screen_canvas showing) = [(1%Z, ImageItem 5 47 990 556)]
  /\ cv_items (screen_canvas
                 (exec (display_screen_frame resized_env full_hd "ann")
                       showing))
     = [(1%Z, ImageItem 5 47 990 556)]
  /\ cv_items (screen_canvas
                 (exec (display_screen_frame resized_env full_hd "ann")
                       (exec _reset_screen_cache showing)))
     = [(2%Z, ImageItem 4 77 792 445)].
Proof. vm_compute. repeat split. Qed.

(** A first frame that cannot be decoded leaves [_cached_scale] assigned
    and [_cached_scale_key] not: the caching block then fails on every
    later frame until [_reset_screen_cache] runs. *)
Example undecodable_first_frame :
  let st := exec (display_screen_frame narrow_env (Some Undecodable) "ann")
                 init in
  key_attribute_missing (cache st) = true
  /\ cv_items (screen_canvas
                 (exec (display_screen_frame narrow_env full_hd "ann") st))
     = []
  /\ cv_items (screen_canvas
                 (exec (display_screen_frame narrow_env full_hd "ann")
                       (exec _reset_screen_cache st)))
     = [(1%Z, ImageItem 5 47 990 556)].
Proof. vm_compute. repeat split. Qed.

End ScreenShareFrameFacts.

(* ================================================================== *)
(** * FileTransferFrame: the rendering of the file list *)
(* ================================================================== *)

Module FileTransferFrameFacts.
Import Py PyNotations FileTransferFrame PyFacts.

(** ** Sizes that are formatted exactly *)

(** The operations of [SpecFloat] are those of the core library; they
    are the ones of [ZArith] under another name. *)
Ltac zops :=
  change IntDef.Z.add with Z.add in *;
  change IntDef.Z.sub with Z.sub in *;
  change IntDef.Z.max with Z.max in *;
  change IntDef.Z.leb with Z.leb in *;
  change IntDef.Z.eqb with Z.eqb in *.

Lemma digits2_pos_iter_xO p n :
  digits2_pos (Pos.iter xO p n) = (digits2_pos p + n)%positive.
Proof.
  induction n as [|n IH] using Pos.peano_ind.
  - simpl. now rewrite Pos.add_1_r.
  - rewrite Pos.iter_succ. simpl. rewrite IH. lia.
Qed.

Lemma Zpos_iter_xO p n :
  Zpos (Pos.iter xO p n) = (Zpos p * 2 ^ Zpos n)%Z.
Proof.
  induction n as [|n IH] using Pos.peano_ind.
  - simpl. lia.
  - rewrite Pos.iter_succ, Pos2Z.inj_xO, IH, Pos2Z.inj_succ, Z.pow_succ_r
      by lia.
    lia.
Qed.

Lemma digits2_pos_lower p :
  (2 ^ (Zpos (digits2_pos p) - 1) <= Zpos p)%Z.
Proof.
  induction p as [p IH|p IH|]; simpl digits2_pos.
  - rewrite Pos2Z.inj_succ.
    replace (Z.succ (Zpos (digits2_pos p)) - 1)%Z
      with (Z.succ (Zpos (digits2_pos p) - 1)) by lia.
    rewrite Z.pow_succ_r by lia. lia.
  - rewrite Pos2Z.inj_succ.
    replace (Z.succ (Zpos (digits2_pos p)) - 1)%Z
      with (Z.succ (Zpos (digits2_pos p) - 1)) by lia.
    rewrite Z.pow_succ_r by lia. lia.
  - simpl. lia.
Qed.

Lemma digits2_pos_le p n :
  (0 <= n)%Z -> (Zpos p < 2 ^ n)%Z -> (Zpos (digits2_pos p) <= n)%Z.
Proof.
  intros Hn H. pose proof (digits2_pos_lower p) as L.
  destruct (Z_le_gt_dec (Zpos (digits2_pos p)) n) as [|G]; [assumption|].
  exfalso.
  assert (2 ^ n <= 2 ^ (Zpos (digits2_pos p) - 1))%Z
    by (apply Z.pow_le_mono_r; lia).
  lia.
Qed.

(** A mantissa of at most 53 bits with a moderate exponent is kept as it
    is: rounding only shifts it up to 53 bits. *)
Lemma binary_round_exact s p e :
  (Zpos (digits2_pos p) <= 53)%Z -> (-1000 <= e <= 900)%Z ->
  exists j m,
    (0 <= j)%Z /\ Zpos m = (Zpos p * 2 ^ j)%Z
    /\ binary_round prec emax s p e = S754_finite s m (e - j).
Proof.
  intros Hd He.
  remember (Zpos (digits2_pos p)) as d eqn:Ed.
  assert (Hd1 : (1 <= d)%Z) by (subst d; lia).
  unfold binary_round. zops. rewrite <- Ed.
  assert (Hf : fexp prec emax (d + e) = (d + e - 53)%Z).
  { unfold fexp, emin, prec, emax. change IntDef.Z.max with Z.max. lia. }
  rewrite Hf.
  assert (Haux : forall m ez,
            Zpos (digits2_pos m) = 53%Z -> (-1060 <= ez <= 900)%Z ->
            binary_round_aux prec emax s (Zpos m) ez loc_Exact
            = S754_finite s m ez).
  { intros m ez Hm Hez. unfold binary_round_aux, shr_fexp.
    simpl Zdigits2. zops. rewrite Hm.
    assert (Hf2 : fexp prec emax (53 + ez) = ez)
      by (unfold fexp, emin, prec, emax; change IntDef.Z.max with Z.max;
          lia).
    rewrite Hf2, Z.sub_diag.
    cbn [shr shr_record_of_loc loc_of_shr_record shr_m round_nearest_even
         Zdigits2].
    rewrite Hm, Hf2, Z.sub_diag.
    cbn [shr shr_m].
    assert (Hb : (ez <=? emax - prec)%Z = true)
      by (apply Z.leb_le; unfold emax, prec; lia).
    now rewrite Hb. }
  unfold shl_align. zops.
  destruct (d + e - 53 - e)%Z as [|q|q] eqn:E.
  - exists 0%Z, p. split; [lia|]. split; [lia|].
    rewrite Z.sub_0_r. apply Haux; lia.
  - exfalso. lia.
  - exists (Zpos q), (Pos.iter xO p q). split; [lia|].
    split; [apply Zpos_iter_xO|].
    replace (e - Zpos q)%Z with (d + e - 53)%Z by lia.
    apply Haux; [|lia].
    rewrite digits2_pos_iter_xO. lia.
Qed.

Lemma round_half_even_shr_spec n k :
  (0 <= n)%Z -> (1 <= k)%Z ->
  round_half_even_shr n k = round_half_even n (2 ^ k).
Proof.
  intros Hn Hk. unfold round_half_even_shr, round_half_even.
  rewrite Z.shiftr_div_pow2, Z.shiftl_mul_pow2, Z.shiftl_mul_pow2 by lia.
  assert (Hp : (0 < 2 ^ k)%Z) by (apply Z.pow_pos_nonneg; lia).
  assert (Hr : (n - n / 2 ^ k * 2 ^ k = n mod 2 ^ k)%Z).
  { rewrite Z.mod_eq by lia. lia. }
  rewrite Hr.
  assert (H2 : (2 ^ k = 2 * (1 * 2 ^ (k - 1)))%Z).
  { replace k with (Z.succ (k - 1)) at 1 by lia.
    rewrite Z.pow_succ_r by lia. lia. }
  assert (Hc : (n mod 2 ^ k ?= 1 * 2 ^ (k - 1))%Z
               = (2 * (n mod 2 ^ k) ?= 2 ^ k)%Z).
  { destruct (Z.compare_spec (n mod 2 ^ k) (1 * 2 ^ (k - 1))) as [E|E|E];
      symmetry.
    - apply Z.compare_eq_iff. lia.
    - apply Z.compare_lt_iff. lia.
    - apply Z.compare_gt_iff. lia. }
  now rewrite Hc.
Qed.

Lemma compare_mul_r a b c :
  (0 < c)%Z -> (a * c ?= b * c)%Z = (a ?= b)%Z.
Proof.
  intros Hc. destruct (Z.compare_spec a b) as [->|H|H].
  - apply Z.compare_refl.
  - apply Z.compare_lt_iff. nia.
  - apply Z.compare_gt_iff. nia.
Qed.

Lemma round_half_even_scale n d c :
  (0 < d)%Z -> (0 < c)%Z ->
  round_half_even (n * c) (d * c) = round_half_even n d.
Proof.
  intros Hd Hc. unfold round_half_even.
  rewrite Z.div_mul_cancel_r by lia.
  rewrite Zmult_mod_distr_r.
  rewrite Z.mul_assoc, compare_mul_r by lia. reflexivity.
Qed.

(** Below [2^53] the quotient by [2^k] is exact, and [:.1f] prints it to
    one decimal. *)
Lemma quotient_1f_exact a k :
  (0 < a < 2 ^ 53)%Z -> (1 <= k <= 100)%Z ->
  quotient_1f a k = Ok (to_one_decimal a (2 ^ k)).
Proof.
  intros Ha Hk. unfold quotient_1f, truediv_pow2, binary_normalize.
  destruct a as [|p|p]; try lia.
  destruct (binary_round_exact false p (- k)) as (j & m & Hj & Hm & ->).
  { apply digits2_pos_le; lia. }
  { lia. }
  f_equal. unfold format_1f, to_one_decimal.
  destruct (- k - j)%Z as [|q|q] eqn:E; try lia.
  rewrite round_half_even_shr_spec by lia.
  replace (Zpos q) with (k + j)%Z by lia.
  rewrite Z.pow_add_r, Hm by lia.
  replace (10 * (Zpos p * 2 ^ j))%Z with (10 * Zpos p * 2 ^ j)%Z by lia.
  rewrite round_half_even_scale
    by (try apply Z.pow_pos_nonneg; lia).
  reflexivity.
Qed.

Lemma str_int_plausible n : plausible n -> str_int n = Ok (str_of_Z n).
Proof.
  unfold plausible, str_int. intros H.
  assert (L : (2 ^ 53 <= 10 ^ int_max_str_digits)%Z)
    by (vm_compute; discriminate).
  assert (E : (10 ^ int_max_str_digits <=? Z.abs n)%Z = false)
    by (apply Z.leb_gt; lia).
  now rewrite E.
Qed.

(** The three formats, for the sizes a file can have. *)
Lemma size_str_plausible filesize :
  plausible filesize ->
  ((filesize < 1024)%Z ->
   size_str filesize = Ok (str_of_Z filesize ++ " B")%string)
  /\ ((1024 <= filesize < 1048576)%Z ->
      size_str filesize = Ok (to_one_decimal filesize 1024 ++ " KB")%string)
  /\ ((1048576 <= filesize)%Z ->
      size_str filesize
      = Ok (to_one_decimal filesize 1048576 ++ " MB")%string).
Proof.
  intros Hp. pose proof Hp as Hp'. unfold plausible in Hp'.
  unfold size_str. change (1024 * 1024)%Z with 1048576%Z.
  split; [|split].
  - intros H. apply Z.ltb_lt in H. rewrite H.
    now rewrite (str_int_plausible _ Hp).
  - intros [H1 H2]. apply Z.ltb_ge in H1. rewrite H1.
    pose proof H2 as H2'. apply Z.ltb_lt in H2. rewrite H2.
    apply Z.ltb_ge in H1.
    rewrite quotient_1f_exact by lia. reflexivity.
  - intros H.
    assert (H1 : (filesize <? 1024)%Z = false) by (apply Z.ltb_ge; lia).
    pose proof H as H'. apply Z.ltb_ge in H. rewrite H1, H.
    rewrite quotient_1f_exact by lia. reflexivity.
Qed.

Lemma display_text_plausible filename filesize uploader :
  plausible filesize ->
  exists size,
    size_str filesize = Ok size
    /\ display_text (mkFileInfo filename filesize uploader)
       = Ok (filename ++ " (" ++ size ++ ") - " ++ uploader)%string.
Proof.
  intros Hp. destruct (size_str_plausible filesize Hp) as (HB & HK & HM).
  unfold display_text. simpl.
  destruct (Z_lt_ge_dec filesize 1024) as [L|G].
  - rewrite (HB L). eexists. split; reflexivity.
  - destruct (Z_lt_ge_dec filesize 1048576) as [L|G'].
    + rewrite HK by lia. eexists. split; reflexivity.
    + rewrite HM by lia. eexists. split; reflexivity.
Qed.

(** ** The listbox *)

Lemma insert_lines_spec items st :
  let st' := exec (insert_lines items) st in
  shared_files st' = shared_files st
  /\ file_listbox st' = file_listbox st ++ rendered items
  /\ (List.length (rendered items) = List.length items ->
      outcome (insert_lines items) st = Ok tt)
  /\ (List.length (rendered items) <> List.length items ->
      exists e, outcome (insert_lines items) st = Raise e).
Proof.
  revert st. induction items as [|[k info] items IH]; intros st.
  - unfold exec, outcome. simpl. rewrite app_nil_r.
    repeat split. intros H. now elim H.
  - unfold exec, outcome in *. simpl. unfold bind, lift, modify.
    destruct (display_text info) as [line|e] eqn:Hline; simpl.
    + set (st1 := set_file_listbox (file_listbox st ++ [line]) st).
      destruct (IH st1) as (Hs & Hb & Hok & Hno).
      rewrite Hs, Hb. subst st1. simpl. rewrite <- app_assoc. simpl.
      split; [reflexivity|]. split; [reflexivity|]. split.
      * intros H. apply Hok. lia.
      * intros H. apply Hno. lia.
    + rewrite app_nil_r. split; [reflexivity|]. split; [reflexivity|].
      split; [discriminate|]. intros _. now exists e.
Qed.

Lemma add_shared_file_steps file_id filename filesize uploader st :
  add_shared_file file_id filename filesize uploader st
  = let d := dict_set (shared_files st) file_id
                      (mkFileInfo filename filesize uploader) in
    insert_lines d (set_file_listbox [] (set_shared_files d st)).
Proof. reflexivity. Qed.

Lemma add_shared_file_spec file_id filename filesize uploader st :
  let st' := exec (add_shared_file file_id filename filesize uploader) st in
  shared_files st'
  = dict_set (shared_files st) file_id (mkFileInfo filename filesize uploader)
  /\ file_listbox st' = rendered (shared_files st')
  /\ (complete st' ->
      outcome (add_shared_file file_id filename filesize uploader) st = Ok tt)
  /\ (~ complete st' ->
      exists e,
        outcome (add_shared_file file_id filename filesize uploader) st
        = Raise e).
Proof.
  unfold exec, outcome, complete. rewrite add_shared_file_steps. cbv zeta.
  set (d := dict_set _ _ _).
  set (st0 := set_file_listbox [] (set_shared_files d st)).
  destruct (insert_lines_spec d st0) as (Hs & Hb & Hok & Hno).
  unfold exec, outcome in *. simpl in Hs, Hb.
  rewrite Hs, Hb. split; [reflexivity|]. split; [reflexivity|].
  split; [exact Hok|exact Hno].
Qed.

(** In every state the listbox shows the files up to the first whose size
    cannot be formatted. *)
Lemma reachable_listbox st :
  reachable st -> file_listbox st = rendered (shared_files st).
Proof.
  destruct 1 as [|st file_id filename filesize uploader _]; [reflexivity|].
  now destruct (add_shared_file_spec file_id filename filesize uploader st)
    as (_ & H & _).
Qed.

Lemma dict_set_keys_NoDup {V} (d : list (string * V)) k v :
  NoDup (dict_keys d) -> NoDup (dict_keys (dict_set d k v)).
Proof.
  intros H. rewrite dict_keys_set.
  destruct (existsb (String.eqb k) (dict_keys d)) eqn:E; [exact H|].
  apply NoDup_app; [exact H|repeat constructor; intros []|].
  intros x Hx [Hk|[]]. subst x.
  assert (existsb (String.eqb k) (dict_keys d) = true); [|congruence].
  apply existsb_exists. exists k. split; [exact Hx|apply String.eqb_refl].
Qed.

Lemma reachable_keys_NoDup st :
  reachable st -> NoDup (dict_keys (shared_files st)).
Proof.
  induction 1 as [|st file_id filename filesize uploader _ IH].
  - constructor.
  - destruct (add_shared_file_spec file_id filename filesize uploader st)
      as (-> & _).
    now apply dict_set_keys_NoDup.
Qed.

Lemma count_id_absent k (d : list (string * FileInfo)) :
  ~ In k (dict_keys d) -> count_id k d = 0.
Proof.
  unfold count_id, dict_keys. induction d as [|[k' v'] d IH]; simpl;
    [reflexivity|].
  intros H. destruct (String.eqb_spec k' k) as [->|Hne]; simpl.
  - exfalso. apply H. now left.
  - apply IH. intros Hin. apply H. now right.
Qed.

Lemma count_id_dict_set k v (d : list (string * FileInfo)) :
  NoDup (dict_keys d) -> count_id k (dict_set d k v) = 1.
Proof.
  unfold dict_keys. induction d as [|[k' v'] d IH]; simpl; intros H.
  - unfold count_id. simpl. now rewrite String.eqb_refl.
  - inversion H as [|x l Hnotin Hnd]; subst.
    destruct (String.eqb_spec k' k) as [->|Hne].
    + unfold count_id. simpl. rewrite String.eqb_refl. simpl. f_equal.
      now apply count_id_absent.
    + unfold count_id in *. simpl.
      destruct (String.eqb_spec k' k) as [|_]; [contradiction|].
      now apply IH.
Qed.

Lemma nth_error_index_of k (d : list (string * FileInfo)) v :
  dict_get d k = Some v -> nth_error d (index_of k d) = Some (k, v).
Proof.
  induction d as [|[k' v'] d IH]; simpl; [discriminate|].
  destruct (String.eqb_spec k' k) as [->|Hne]; simpl.
  - intros H. now inversion H.
  - exact IH.
Qed.

Lemma dict_get_set_other {V} (d : list (string * V)) k k' v :
  k' <> k -> dict_get (dict_set d k v) k' = dict_get d k'.
Proof.
  intros Hne. induction d as [|[k0 v0] d IH]; simpl.
  - destruct (String.eqb_spec k k'); [congruence|reflexivity].
  - destruct (String.eqb_spec k0 k) as [->|Hk]; simpl.
    + destruct (String.eqb_spec k k'); [congruence|reflexivity].
    + now rewrite IH.
Qed.

Lemma dict_get_In {V} (d : list (string * V)) k :
  existsb (String.eqb k) (dict_keys d) = true <-> dict_get d k <> None.
Proof.
  unfold dict_keys. induction d as [|[k0 v0] d IH]; simpl.
  - split; [discriminate|congruence].
  - rewrite (String.eqb_sym k k0).
    destruct (String.eqb k0 k); simpl; [split; [discriminate|reflexivity]|].
    exact IH.
Qed.

Lemma rendered_length d : List.length (rendered d) <= List.length d.
Proof.
  induction d as [|[k info] d IH]; simpl; [lia|].
  destruct (display_text info); simpl; lia.
Qed.

(** A listbox with as many lines as there are files shows every file. *)
Lemma rendered_complete d :
  List.length (rendered d) = List.length d ->
  map Ok (rendered d) = map (fun kv => display_text (snd kv)) d.
Proof.
  induction d as [|[k info] d IH]; simpl; [reflexivity|].
  destruct (display_text info) as [line|e]; simpl; [|discriminate].
  intros H. f_equal. apply IH. lia.
Qed.

Lemma rendered_dict_set d k info line :
  List.length (rendered d) = List.length d ->
  display_text info = Ok line ->
  List.length (rendered (dict_set d k info))
  = List.length (dict_set d k info).
Proof.
  intros Hd Hline. induction d as [|[k0 info0] d IH]; simpl in *.
  - now rewrite Hline.
  - destruct (display_text info0) as [line0|e] eqn:E0; simpl in Hd;
      [|discriminate].
    destruct (String.eqb k0 k); simpl.
    + rewrite Hline. simpl. lia.
    + rewrite E0. simpl. f_equal. apply IH. lia.
Qed.

(** A line of the listbox is the line of the file at its position. *)
Lemma nth_error_rendered d i line :
  nth_error (rendered d) i = Some line ->
  exists k info, nth_error d i = Some (k, info)
                 /\ display_text info = Ok line.
Proof.
  revert i. induction d as [|[k info] d IH]; intros i; simpl.
  - destruct i; discriminate.
  - destruct (display_text info) as [l|e] eqn:E; [|destruct i; discriminate].
    destruct i as [|i]; simpl.
    + intros H. inversion H; subst. now exists k, info.
    + apply IH.
Qed.


Example size_str_examples :
  map size_str [0; 1023; 1024; 1280; 1536; 1048575; 1048576; 123456789]%Z
  = map Ok ["0 B"; "1023 B"; "1.0 KB"; "1.2 KB"; "1.5 KB"; "1024.0 KB";
            "1.0 MB"; "117.7 MB"].
Proof. vm_compute. reflexivity. Qed.

(** Where the division ends: the largest size whose quotient is a float
    is formatted, the next one raises OverflowError and leaves the listbox
    without the line. *)
Example size_str_overflow :
  returns (size_str (2 ^ 1044 - 2 ^ 990 - 1)) = true
  /\ size_str (2 ^ 1044 - 2 ^ 990)
     = Raise (OtherException "integer division result too large for a float")
  /\ outcome (add_shared_file "f2" "all.bin" (2 ^ 1044 - 2 ^ 990) "ann")
             one_file
     = Raise (OtherException "integer division result too large for a float")
  /\ file_listbox
       (exec (add_shared_file "f2" "all.bin" (2 ^ 1044 - 2 ^ 990) "ann")
             one_file)
     = ["notes.txt (900 B) - ann"]
  /\ dict_keys
       (shared_files
          (exec (add_shared_file "f2" "all.bin" (2 ^ 1044 - 2 ^ 990) "ann")
                one_file))
     = ["f1"; "f2"].
Proof.
  split; [vm_compute; reflexivity|].
  split; [vm_compute; reflexivity|].
  split; [vm_compute; reflexivity|].
  split; vm_compute; reflexivity.
Qed.

(** Where the digits end: a negative size of 4300 digits is formatted, one
    of 4301 digits raises ValueError. *)
Example size_str_digit_limit :
  returns (size_str (- (10 ^ int_max_str_digits - 1))) = true
  /\ returns (size_str (- 10 ^ int_max_str_digits)) = false.
Proof.
  unfold size_str, str_int.
  assert (H : (0 < 10 ^ int_max_str_digits)%Z)
    by (apply Z.pow_pos_nonneg; unfold int_max_str_digits; lia).
  remember (10 ^ int_max_str_digits)%Z as limit eqn:E. clear E.
  split.
  - replace (- (limit - 1) <? 1024)%Z with true
      by (symmetry; apply Z.ltb_lt; lia).
    replace (limit <=? Z.abs (- (limit - 1)))%Z with false
      by (symmetry; apply Z.leb_gt; lia).
    reflexivity.
  - replace (- limit <? 1024)%Z with true
      by (symmetry; apply Z.ltb_lt; lia).
    replace (limit <=? Z.abs (- limit))%Z with true
      by (symmetry; apply Z.leb_le; lia).
    reflexivity.
Qed.

Lemma one_file_reachable : reachable one_file.
Proof. unfold one_file. apply reach_add. apply reach_init. Qed.


End FileTransferFrameFacts.

(* ================================================================== *)
(** * ChatFrame: the cap restored, the oldest dropped, sorting, rejections *)
(* ================================================================== *)

Module ChatFrameMore.
Import Py PyNotations ChatFrame ChatOrder PyFacts ChatFrameFacts.

Lemma run_ops_max_history_size ops st :
  max_history_size (run_ops ops st) = max_history_size st.
Proof.
  unfold run_ops. revert st.
  induction ops as [|op ops IH]; intros st; simpl; [reflexivity|].
  now rewrite IH, run_op_max_history_size.
Qed.

(** X1: whatever happened before (an oversized [load_chat_history]
    included), the history holds at most [max_history_size] entries after
    [add_message], [add_system_message] or [add_error_message]. *)
Theorem add_restores_cap (ops : list Op) (op : Op) (st : State) :
  0 < max_history_size st ->
  is_load op = false ->
  List.length (chat_history (run_op op (run_ops ops st)))
  <= max_history_size st.
Proof.
  intros Hmax Hop.
  rewrite <- (run_ops_max_history_size ops st) in Hmax |- *.
  destruct op; simpl in *; try discriminate;
    now apply add_message_within_cap.
Qed.

Lemma add_restores_cap_witness :
  List.length
    (chat_history
       (run_op (OpAddSystemMessage 7 "bob joined" None)
               (run_ops [OpLoadChatHistory long_history] init)))
  <= max_history_size init.
Proof.
  apply add_restores_cap; [apply Nat.ltb_lt; reflexivity | reflexivity].
Defined.

(** X2: [add_message] appends the new entry and drops entries from the
    front only: the old history followed by the new entry is what was
    dropped followed by the new history, the number dropped being the
    excess over [max_history_size]; the entry is the last of the history
    and the last that is displayed. *)
Theorem add_message_drops_oldest
    (now : Z) (u m : string) (t : option Z) (own : bool) (ty : string)
    (st : State) :
  0 < max_history_size st ->
  let entry := mkMessage u m (match t with None => now | Some x => x end)
                         own ty in
  let st' := add_message now u m t own ty st in
  (exists dropped,
      chat_history st ++ [entry] = dropped ++ chat_history st'
      /\ List.length dropped
         = List.length (chat_history st) + 1 - max_history_size st)
  /\ (exists older, chat_history st' = older ++ [entry])
  /\ chat_display st' = chat_display st ++ [entry].
Proof.
  intros Hmax entry st'.
  destruct (add_message_history now u m t own ty st Hmax)
    as (dropped & Happ & Hlen).
  fold entry in Happ. fold st' in Happ.
  split; [now exists dropped|]. split.
  - pose proof (add_message_within_cap now u m t own ty st Hmax) as Hcap.
    fold st' in Hcap.
    destruct (chat_history st') as [|x h] eqn:Eh.
    + exfalso. rewrite app_nil_r in Happ. subst dropped.
      rewrite length_app in Hlen. simpl in Hlen. lia.
    + destruct (@exists_last _ (x :: h)) as (older & e & He); [discriminate|].
      rewrite He in Happ. rewrite app_assoc in Happ.
      apply app_inj_tail in Happ. destruct Happ as [_ <-].
      exists older. exact He.
  - subst st'. unfold add_message. fold entry. simpl.
    now destruct (max_history_size st <? _).
Qed.

Lemma add_message_drops_oldest_witness :
  exists older,
    chat_history (add_message 3 "ann" "hello" None true "chat" init)
    = older ++ [mkMessage "ann" "hello" 3 true "chat"].
Proof.
  destruct (add_message_drops_oldest 3 "ann" "hello" None true "chat" init)
    as (_ & H & _); [apply Nat.ltb_lt; reflexivity|].
  exact H.
Defined.

(** ** [load_chat_history] sorts *)

Lemma insert_perm m l : Permutation (m :: l) (insert_by_timestamp m l).
Proof.
  induction l as [|x l IH]; simpl; [reflexivity|].
  destruct (sort_key m <? sort_key x)%Z; [reflexivity|].
  rewrite perm_swap. now constructor.
Qed.

Lemma insert_Forall (P : Entry -> Prop) m l :
  P m -> Forall P l -> Forall P (insert_by_timestamp m l).
Proof.
  intros Hm Hl. induction Hl as [|x l Hx Hl IH]; simpl.
  - now constructor.
  - destruct (sort_key m <? sort_key x)%Z; repeat constructor; auto.
Qed.

Lemma insert_sorted m l :
  StronglySorted le_key l -> StronglySorted le_key (insert_by_timestamp m l).
Proof.
  induction 1 as [|x l Hs IH Hx]; simpl.
  - repeat constructor.
  - destruct (sort_key m <? sort_key x)%Z eqn:E.
    + apply Z.ltb_lt in E. constructor; [now constructor|].
      constructor; [unfold le_key; lia|].
      eapply Forall_impl; [|exact Hx]. unfold le_key. intros a Ha. lia.
    + apply Z.ltb_ge in E. constructor; [exact IH|].
      now apply insert_Forall.
Qed.

Lemma stamped_later t x l :
  (t < sort_key x)%Z -> Forall (le_key x) l -> stamped sort_key t l = [].
Proof.
  intros Ht Hx. induction Hx as [|y l Hy Hx IH]; simpl; [reflexivity|].
  unfold le_key in Hy.
  replace (sort_key y =? t)%Z with false
    by (symmetry; apply Z.eqb_neq; lia).
  exact IH.
Qed.

Lemma insert_stamped t m l :
  StronglySorted le_key l ->
  stamped sort_key t (insert_by_timestamp m l)
  = stamped sort_key t l ++ stamped sort_key t [m].
Proof.
  induction 1 as [|x l Hs IH Hx]; [reflexivity|].
  simpl insert_by_timestamp.
  destruct (sort_key m <? sort_key x)%Z eqn:E.
  - apply Z.ltb_lt in E. simpl.
    destruct (sort_key m =? t)%Z eqn:Em.
    + apply Z.eqb_eq in Em.
      replace (sort_key x =? t)%Z with false
        by (symmetry; apply Z.eqb_neq; lia).
      fold (stamped sort_key t l).
      rewrite (stamped_later t x l) by (auto; lia). reflexivity.
    + now rewrite app_nil_r.
  - simpl. fold (stamped sort_key t (insert_by_timestamp m l)).
    fold (stamped sort_key t l).
    rewrite IH. simpl. now destruct (sort_key x =? t)%Z.
Qed.

(** [sorted] gives a permutation, in the order of the keys, that keeps
    dicts with equal keys in the order of the input. *)
Lemma sorted_by_timestamp_spec l :
  let r := sorted_by_timestamp l in
  Permutation l r /\ StronglySorted le_key r
  /\ forall t, stamped sort_key t r = stamped sort_key t l.
Proof.
  unfold sorted_by_timestamp.
  assert (H : forall acc,
             StronglySorted le_key acc ->
             let r := fold_left (fun acc m => insert_by_timestamp m acc) l acc in
             Permutation (acc ++ l) r /\ StronglySorted le_key r
             /\ forall t, stamped sort_key t r
                          = stamped sort_key t acc ++ stamped sort_key t l).
  { induction l as [|m l IH]; intros acc Hacc; simpl.
    - rewrite app_nil_r. repeat split; auto. intros t.
      now rewrite app_nil_r.
    - destruct (IH (insert_by_timestamp m acc) (insert_sorted m acc Hacc))
        as (Hp & Hs & Hst).
      split; [|split; [exact Hs|]].
      + rewrite <- Hp. rewrite <- insert_perm.
        now rewrite <- Permutation_middle.
      + intros t. rewrite Hst, insert_stamped by exact Hacc.
        rewrite <- app_assoc. f_equal. simpl.
        now destruct (sort_key m =? t)%Z. }
  destruct (H [] (SSorted_nil _)) as (Hp & Hs & Hst).
  simpl in *. repeat split; auto.
Qed.

Lemma forallb_Permutation {A} (f : A -> bool) l l' :
  Permutation l l' -> forallb f l = forallb f l'.
Proof.
  induction 1 as [|x l l' _ IH|x y l|l l' l'' _ IH1 _ IH2]; simpl.
  - reflexivity.
  - now rewrite IH.
  - now destruct (f x), (f y).
  - now rewrite IH1.
Qed.

Lemma sorted_messages l :
  StronglySorted le_key l -> StronglySorted le_time (map message_of l).
Proof.
  induction 1 as [|x l Hs IH Hx]; simpl; constructor; [exact IH|].
  apply Forall_map. eapply Forall_impl; [|exact Hx].
  intros a Ha. exact Ha.
Qed.

Lemma stamped_messages t l :
  stamped timestamp t (map message_of l)
  = map message_of (stamped sort_key t l).
Proof.
  induction l as [|x l IH]; simpl; [reflexivity|].
  change (timestamp (message_of x)) with (sort_key x).
  destruct (sort_key x =? t)%Z; simpl; now rewrite IH.
Qed.

(** How [load_chat_history] ends: normally, with the "Loaded" status, when
    the loop does; with the loop's exception and the old status otherwise. *)
Lemma load_chat_history_outcome history st :
  let st0 := set_chat_history [] (set_chat_display [] st) in
  let sorted_history := sorted_by_timestamp (contents history st0) in
  (forallb readable sorted_history = true ->
   outcome (load_chat_history history) st = Ok tt
   /\ exists st1,
        exec (display_each sorted_history) st0 = st1
        /\ status_label (exec (load_chat_history history) st)
           = mkLabel ("Loaded "
                        ++ str_of_Z
                             (Z.of_nat (List.length (contents history st1)))
                        ++ " messages from history")%string
                     "green")
  /\ (forallb readable sorted_history = false ->
      exists e, outcome (load_chat_history history) st = Raise e
                /\ status_label (exec (load_chat_history history) st)
                   = status_label st).
Proof.
  intros st0 sorted_history. unfold outcome, exec.
  rewrite load_chat_history_steps. cbv zeta.
  fold st0. fold sorted_history.
  destruct (display_each_spec sorted_history st0)
    as (_ & _ & _ & Hs & _ & Hok & Hno).
  unfold exec, outcome in *.
  destruct (display_each sorted_history st0) as [st1 [[]|e]]; simpl in *.
  - split.
    + intros _. split; [reflexivity|]. now exists st1.
    + intros H. destruct (Hno H) as (e & He). discriminate.
  - split.
    + intros H. specialize (Hok H). discriminate.
    + intros _. exists e. split; [reflexivity|exact Hs].
Qed.

(** X3: [load_chat_history] replaces the history, and what is displayed,
    by what it can read of the list it is given, in the order of
    [sorted]: a permutation of the dicts, non-decreasing in their keys (a
    dict without 'timestamp' counts as [datetime.min]), dicts with equal
    keys in the order of the input; it stores them up to the first that
    [_display_message] cannot read.  When all can be read it returns
    normally and the history is that permutation, non-decreasing in time
    and stable; otherwise it raises the KeyError and shows no status.
    Given the frame's own [chat_history] list it loads nothing, since the
    list is cleared before it is read. *)
Theorem load_chat_history_sorts (history : HistoryArg) (st : State) :
  let st' := exec (load_chat_history history) st in
  chat_display st' = chat_history st'
  /\ match history with
     | OwnHistory =>
         outcome (load_chat_history history) st = Ok tt
         /\ chat_history st' = []
         /\ status_label st'
            = mkLabel "Loaded 0 messages from history" "green"
     | Entries entries =>
         let sorted_history := sorted_by_timestamp entries in
         Permutation entries sorted_history
         /\ StronglySorted le_key sorted_history
         /\ (forall t, stamped sort_key t sorted_history
                       = stamped sort_key t entries)
         /\ chat_history st'
            = map message_of (readable_prefix sorted_history)
         /\ (forallb readable entries = true ->
             outcome (load_chat_history history) st = Ok tt
             /\ Permutation (map message_of entries) (chat_history st')
             /\ StronglySorted le_time (chat_history st')
             /\ (forall t, stamped timestamp t (chat_history st')
                           = stamped timestamp t (map message_of entries)))
         /\ (forallb readable entries = false ->
             exists e,
               outcome (load_chat_history history) st = Raise e
               /\ status_label st' = status_label st)
     end.
Proof.
  intros st'. subst st'.
  destruct (load_chat_history_history history st) as (Hh & Hd & _).
  cbv zeta in Hh, Hd. split; [now rewrite Hh, Hd|].
  destruct (load_chat_history_outcome history st) as [Hok Hno].
  cbv zeta in Hok, Hno.
  destruct history as [|entries].
  - simpl in Hok. destruct (Hok eq_refl) as (Ho & st1 & E1 & Hs).
    split; [exact Ho|]. split; [exact Hh|].
    rewrite Hs. subst st1. reflexivity.
  - simpl contents in Hok, Hno.
    destruct (sorted_by_timestamp_spec entries) as (Hp & Hs & Hst).
    cbv zeta in Hp, Hs, Hst.
    split; [exact Hp|]. split; [exact Hs|]. split; [exact Hst|].
    split; [exact Hh|].
    rewrite <- (forallb_Permutation readable _ _ Hp) in Hok, Hno.
    split.
    + intros H. destruct (Hok H) as (Ho & _). split; [exact Ho|].
      rewrite Hh, readable_prefix_all
        by (now rewrite <- (forallb_Permutation readable _ _ Hp)).
      split; [now apply Permutation_map|].
      split; [now apply sorted_messages|].
      intros t. now rewrite !stamped_messages, Hst.
    + intros H. exact (Hno H).
Qed.

(** The dict without a timestamp is sorted to the front and stops the
    loading before anything is stored; the frame's own list loads nothing
    even when it holds 501 entries. *)
Example load_chat_history_gappy :
  outcome (load_chat_history (Entries gappy)) init
  = Raise (OtherException "'timestamp'")
  /\ chat_history (exec (load_chat_history (Entries gappy)) init) = []
  /\ chat_history
       (exec (load_chat_history OwnHistory)
             (run_ops [OpLoadChatHistory long_history] init))
     = [].
Proof. vm_compute. repeat split. Qed.

(** X4: a message that [_send_message] rejects leaves the entry and the
    call log as they were and shows its reason in red: an empty text
    (after stripping) is reported as such even when no callback is set,
    then an overlong one, then the missing callback; every call registers
    one reset of the status label after 3000 ms. *)
Theorem send_message_rejections (st : State) :
  let message_text := strip (message_entry st) in
  let st' := exec _send_message st in
  (message_text = "" ->
   status_label st' = mkLabel "Cannot send empty message" "red"
   /\ message_entry st' = message_entry st /\ sent st' = sent st)
  /\ (message_text <> "" -> 1000 < String.length message_text ->
      status_label st'
      = mkLabel "Message too long (max 1000 characters)" "red"
      /\ message_entry st' = message_entry st /\ sent st' = sent st)
  /\ (message_text <> "" -> String.length message_text <= 1000 ->
      message_callback st = None ->
      status_label st' = mkLabel "Not connected" "red"
      /\ message_entry st' = message_entry st /\ sent st' = sent st)
  /\ after_queue st' = after_queue st ++ [(3000%Z, StatusReady)].
Proof.
  intros message_text st'. subst st'.
  unfold exec, _send_message, bind, get. simpl. fold message_text.
  destruct (str_truthy message_text) eqn:Et; simpl.
  2:{ apply str_truthy_false in Et. repeat split; intros; congruence. }
  assert (Hne : message_text <> "")
    by (intros H; apply str_truthy_false in H; congruence).
  destruct (1000 <? String.length message_text) eqn:El; simpl.
  { apply Nat.ltb_lt in El. repeat split; intros; try congruence; lia. }
  apply Nat.ltb_ge in El.
  destruct (message_callback st) as [cb|] eqn:Ecb; simpl.
  2:{ repeat split; intros; try congruence; lia. }
  unfold try_except, call_message_callback, bind, modify, lift. simpl.
  destruct (cb message_text) as [[]|e]; simpl;
    repeat split; intros; try congruence; lia.
Qed.

End ChatFrameMore.

(* ================================================================== *)
(** * VideoFrame: slots of reachable frames, frames received, names *)
(* ================================================================== *)

Module VideoFrameMore.
Import Py PyMore VideoFrame PyFacts VideoFrameFacts VideoInvariants.

Lemma inactive_is_empty_update slots i f :
  inactive_is_empty slots ->
  (0 < i -> forall s, nth_error slots i = Some s ->
            active (f s) = false -> participant_id (f s) = None) ->
  inactive_is_empty (update_slot slots i f).
Proof.
  intros Hinv Hf j s Hj Hs Ha.
  rewrite nth_error_update_slot in Hs.
  destruct (Nat.eqb_spec i j) as [->|Hne].
  - destruct (nth_error slots j) as [s0|] eqn:E; [|discriminate].
    simpl in Hs. inversion Hs; subst. now apply (Hf Hj s0).
  - now apply (Hinv j s).
Qed.

Lemma inactive_is_empty_clear slots :
  inactive_is_empty slots -> inactive_is_empty (clear_remote_slots slots 0).
Proof.
  intros Hinv j s Hj Hs Ha. rewrite nth_error_clear_remote_slots in Hs.
  destruct (nth_error slots j) as [s0|] eqn:E; [|discriminate].
  simpl in Hs.
  destruct ((0 <? j) && widget_exists (frame_widget s0));
    inversion Hs; subst; [reflexivity|].
  now apply (Hinv j s).
Qed.

Lemma inactive_is_empty_assign ps slots :
  1 <= List.length slots ->
  inactive_is_empty slots ->
  inactive_is_empty (snd (assign_loop ps [] 1 slots)).
Proof.
  intros Hlen Hinv.
  destruct (assign_loop_spec ps [] 1 slots Hlen)
    as (ids & slots' & E & _ & _ & _ & _ & _ & Hin & Hout & _).
  rewrite E. simpl. intros j s Hj Hs Ha.
  destruct (Nat.lt_ge_cases j (1 + List.length ids)) as [Hlt|Hge].
  - replace j with (1 + (j - 1)) in Hs by lia.
    rewrite Hin in Hs by lia.
    destruct (nth_error slots (1 + (j - 1))); [|discriminate].
    simpl in Hs. inversion Hs; subst. discriminate.
  - rewrite Hout in Hs by (right; lia). now apply (Hinv j s).
Qed.

Lemma inactive_is_empty_run_op op st :
  wf (video_slots st) ->
  inactive_is_empty (video_slots st) ->
  inactive_is_empty (video_slots (run_op op st)).
Proof.
  intros Hwf Hinv.
  destruct op as [participants | c | c u v | | c | ok c | i l]; simpl.
  - unfold update_video_feeds. simpl.
    assert (Hlen : 1 <= List.length (clear_remote_slots (video_slots st) 0)).
    { rewrite clear_remote_slots_length. destruct Hwf as [-> _]. lia. }
    pose proof (inactive_is_empty_assign (active_participants participants)
                  _ Hlen (inactive_is_empty_clear _ Hinv)) as H.
    destruct (assign_loop _ _ _ _) as [[a k] slots']. exact H.
  - unfold update_remote_video.
    destruct (negb _); [exact Hinv|].
    destruct (_get_video_slot_stable c (video_slots st)) as [j|];
      [|exact Hinv].
    destruct (j <? List.length (video_slots st)); [|exact Hinv].
    simpl. apply inactive_is_empty_update; [exact Hinv|].
    intros _ s _ H. discriminate.
  - exact Hinv.
  - unfold _clear_local_video_slot.
    destruct (nth_error (video_slots st) 0) as [s|]; [|exact Hinv].
    destruct (widget_exists _); [|exact Hinv].
    simpl. apply inactive_is_empty_update; [exact Hinv|]. intros H. lia.
  - unfold clear_remote_video_slot.
    destruct (find_participant _ _ _) as [j|]; [|exact Hinv].
    destruct (nth_error (video_slots st) j) as [s|]; [|exact Hinv].
    destruct (widget_exists _); [|exact Hinv].
    simpl. apply inactive_is_empty_update; [exact Hinv|]. reflexivity.
  - unfold clear_video_slot.
    destruct (negb ok); [exact Hinv|].
    destruct (find_participant _ _ _) as [j|]; [|exact Hinv].
    destruct (nth_error (video_slots st) j) as [s|]; [|exact Hinv].
    destruct (widget_exists _); [|exact Hinv].
    simpl. apply inactive_is_empty_update; [exact Hinv|].
    intros Hj s' _ _. simpl. destruct j; [lia|reflexivity].
  - apply inactive_is_empty_update; [exact Hinv|].
    intros Hi s Hs Ha. simpl in *. now apply (Hinv i s).
Qed.

Lemma reachable_wf_inactive st :
  reachable st ->
  wf (video_slots st) /\ inactive_is_empty (video_slots st).
Proof.
  induction 1 as [|st op Hreach [Hwf Hinv]].
  - split; [apply wf_init|]. intros [|[|[|[|i]]]] s Hi Hs Ha;
      simpl in Hs; inversion Hs; subst; try reflexivity; try lia.
    destruct i; discriminate.
  - split; [now apply wf_run_op|now apply inactive_is_empty_run_op].
Qed.

(** X5: in every state the video frame can reach there are four slots,
    slot 0 holds 'local' or nobody, and a remote slot that is not active
    holds nobody. *)
Theorem reachable_slots_shape (st : State) :
  reachable st ->
  List.length (video_slots st) = 4
  /\ (exists s0, nth_error (video_slots st) 0 = Some s0
                 /\ (participant_id s0 = None
                     \/ participant_id s0 = Some "local"))
  /\ inactive_is_empty (video_slots st).
Proof.
  intros Hreach.
  destruct (reachable_wf_inactive st Hreach) as [[Hlen H0] Hinv].
  repeat split; assumption.
Qed.

Lemma reachable_slots_shape_witness :
  List.length (video_slots (update_video_feeds three_participants init)) = 4.
Proof.
  apply reachable_slots_shape.
  apply (reach_step init (OpUpdateVideoFeeds three_participants)).
  apply reach_init.
Defined.

(** ** [update_remote_video] *)

Lemma find_participant_first slots k c j :
  (forall i, i < j -> ~ holds slots i c) -> holds slots j c ->
  find_participant slots k c = Some (k + j).
Proof.
  revert k j. induction slots as [|s r IH]; intros k j Hmin Hj.
  - destruct Hj as (s' & Hs' & _). destruct j; discriminate.
  - simpl. destruct (opt_string_eqb (participant_id s) (Some c)) eqn:E.
    + destruct j as [|j]; [now rewrite Nat.add_0_r|].
      exfalso. apply (Hmin 0); [lia|]. exists s. split; [reflexivity|].
      now apply opt_string_eqb_eq.
    + destruct j as [|j].
      * destruct Hj as (s' & Hs' & Hp). simpl in Hs'. inversion Hs'; subst.
        apply opt_string_eqb_eq in Hp. congruence.
      * rewrite (IH (S k) j).
        -- f_equal. lia.
        -- intros i Hi (s' & Hs' & Hp). apply (Hmin (S i)); [lia|].
           exists s'. now split.
        -- destruct Hj as (s' & Hs' & Hp). exists s'. now split.
Qed.

Lemma first_preferred_slot slots pref j :
  first_preferred slots pref = Some j ->
  In j pref
  /\ exists s, nth_error slots j = Some s
               /\ (active s = false \/ participant_id s = None).
Proof.
  induction pref as [|p pref IH]; simpl; [discriminate|].
  destruct (nth_error slots p) as [s|] eqn:Es.
  - destruct (negb (active s) || is_None (participant_id s)) eqn:Ea.
    + intros H. inversion H; subst. split; [now left|].
      exists s. split; [exact Es|].
      apply orb_prop in Ea. destruct Ea as [Ea|Ea].
      * left. now destruct (active s).
      * right. now destruct (participant_id s).
    + intros H. destruct (IH H) as [Hin Hs]. split; [now right|exact Hs].
  - intros H. destruct (IH H) as [Hin Hs]. split; [now right|exact Hs].
Qed.

Lemma first_inactive_slot slots range j :
  first_inactive slots range = Some j ->
  In j range /\ exists s, nth_error slots j = Some s /\ active s = false.
Proof.
  induction range as [|p range IH]; simpl; [discriminate|].
  destruct (nth_error slots p) as [s|] eqn:Es; [|discriminate].
  destruct (negb (active s)) eqn:Ea.
  - intros H. inversion H; subst. split; [now left|].
    exists s. split; [exact Es|]. now destruct (active s).
  - intros H. destruct (IH H) as [Hin Hs]. split; [now right|exact Hs].
Qed.

(** The slot that [_get_video_slot_stable] returns either holds the
    client already, before any other slot does, or is a remote slot that
    is inactive or empty while no slot holds the client. *)
Lemma get_video_slot_stable_cases c slots j :
  _get_video_slot_stable c slots = Some j ->
  (forall i, i < j -> ~ holds slots i c)
  /\ (holds slots j c
      \/ (0 < j
          /\ exists s, nth_error slots j = Some s
                       /\ (active s = false \/ participant_id s = None))).
Proof.
  unfold _get_video_slot_stable.
  destruct (find_participant slots 0 c) as [j0|] eqn:Ef.
  - intros H. inversion H; subst. apply find_participant_Some in Ef.
    destruct Ef as (_ & Hh & Hmin). rewrite Nat.sub_0_r in Hh, Hmin.
    split; [exact Hmin|now left].
  - pose proof (find_participant_None _ _ _ Ef) as Hnone.
    intros H. split; [intros i _; apply Hnone|]. right.
    destruct (if negb (c =? "local")%string
              then first_preferred slots [1; 3; 2] else None) as [j1|] eqn:Ep.
    + inversion H; subst.
      destruct (negb (c =? "local")%string); [|discriminate].
      apply first_preferred_slot in Ep. destruct Ep as [Hin Hs].
      split; [simpl in Hin; lia|exact Hs].
    + apply first_inactive_slot in H. destruct H as [Hin (s & Hs & Ha)].
      apply in_seq in Hin. split; [lia|]. exists s. split; [exact Hs|now left].
Qed.

Lemma update_slot_idem slots j f :
  (forall s, f (f s) = f s) ->
  update_slot (update_slot slots j f) j f = update_slot slots j f.
Proof.
  intros Hf. revert j. induction slots as [|s r IH]; intros [|j]; simpl;
    try reflexivity.
  - now rewrite Hf.
  - now rewrite IH.
Qed.

Lemma get_video_slot_stable_after c slots j :
  _get_video_slot_stable c slots = Some j -> j < List.length slots ->
  _get_video_slot_stable c
    (update_slot slots j (fun slot => mkSlot (frame slot) (Some c) true))
  = Some j.
Proof.
  intros Hj Hlen. apply get_video_slot_stable_cases in Hj.
  destruct Hj as [Hmin _].
  unfold _get_video_slot_stable.
  rewrite (find_participant_first _ 0 c j); [reflexivity| |].
  - intros i Hi (s & Hs & Hp). rewrite nth_error_update_slot in Hs.
    replace (j =? i) with false in Hs by (symmetry; apply Nat.eqb_neq; lia).
    apply (Hmin i Hi). now exists s.
  - rewrite <- nth_error_Some in Hlen.
    destruct (nth_error slots j) as [s|] eqn:Es; [|congruence].
    exists (mkSlot (frame s) (Some c) true). split; [|reflexivity].
    now rewrite nth_error_update_slot, Nat.eqb_refl, Es.
Qed.

(** X6: a second [update_remote_video] for the same client changes
    nothing, and once a client has received a slot,
    [_get_video_slot_stable] keeps returning that slot, which holds the
    client and is active. *)
Theorem update_remote_video_settles (client_id : string) (st : State) :
  let st' := update_remote_video client_id st in
  update_remote_video client_id st' = st'
  /\ (forall j, st' <> st ->
                _get_video_slot_stable client_id (video_slots st) = Some j ->
                _get_video_slot_stable client_id (video_slots st') = Some j
                /\ exists s, nth_error (video_slots st') j = Some s
                             /\ participant_id s = Some client_id
                             /\ active s = true).
Proof.
  intros st'. subst st'. unfold update_remote_video.
  destruct (negb match dict_get (participant_videos st) client_id with
                 | Some info => Tk.with_default (info_video_enabled info) true
                 | None => true
                 end) eqn:Een.
  { rewrite Een. split; [reflexivity|]. intros j H. congruence. }
  destruct (_get_video_slot_stable client_id (video_slots st)) as [j|] eqn:Ej.
  2:{ rewrite Een, Ej. split; [reflexivity|]. intros j H. congruence. }
  destruct (j <? List.length (video_slots st)) eqn:El.
  2:{ rewrite Een, Ej, El. split; [reflexivity|]. intros j0 H. congruence. }
  apply Nat.ltb_lt in El. simpl. rewrite Een.
  rewrite (get_video_slot_stable_after _ _ _ Ej El).
  rewrite update_slot_length.
  replace (j <? List.length (video_slots st)) with true
    by (symmetry; now apply Nat.ltb_lt).
  split.
  - unfold set_video_slots. simpl. now rewrite update_slot_idem.
  - intros j0 _ H. inversion H; subst j0. split; [reflexivity|].
    rewrite <- nth_error_Some in El.
    destruct (nth_error (video_slots st) j) as [s|] eqn:Es; [|congruence].
    exists (mkSlot (frame s) (Some client_id) true).
    rewrite nth_error_update_slot, Nat.eqb_refl, Es. now repeat split.
Qed.

(** X7: in a reachable state [update_remote_video] for one client leaves
    every slot that holds another client exactly as it was. *)
Theorem update_remote_video_keeps_others
    (st : State) (client_id other : string) (i : nat) :
  reachable st -> other <> client_id ->
  holds (video_slots st) i other ->
  nth_error (video_slots (update_remote_video client_id st)) i
  = nth_error (video_slots st) i.
Proof.
  intros Hreach Hne Hi.
  destruct (reachable_wf_inactive st Hreach) as [_ Hinv].
  unfold update_remote_video.
  destruct (negb _); [reflexivity|].
  destruct (_get_video_slot_stable client_id (video_slots st)) as [j|] eqn:Ej;
    [|reflexivity].
  destruct (j <? List.length (video_slots st)); [|reflexivity].
  simpl. rewrite nth_error_update_slot.
  destruct (Nat.eqb_spec j i) as [->|_]; [exfalso|reflexivity].
  apply get_video_slot_stable_cases in Ej. destruct Ej as [_ [Hc|Hfree]].
  - destruct Hi as (s & Hs & Hp), Hc as (s' & Hs' & Hp').
    rewrite Hs in Hs'. inversion Hs'; subst. congruence.
  - destruct Hfree as (Hpos & s & Hs & Hfree).
    destruct Hi as (s' & Hs' & Hp). rewrite Hs in Hs'. inversion Hs'; subst.
    assert (participant_id s' = None)
      by (destruct Hfree as [Ha|Hn]; [now apply (Hinv i s')|exact Hn]).
    congruence.
Qed.

Lemma update_remote_video_keeps_others_witness :
  nth_error
    (video_slots
       (update_remote_video "z" (update_video_feeds three_participants init)))
    1
  = nth_error (video_slots (update_video_feeds three_participants init)) 1.
Proof.
  apply (update_remote_video_keeps_others _ "z" "a" 1).
  - apply (reach_step init (OpUpdateVideoFeeds three_participants)).
    apply reach_init.
  - discriminate.
  - eexists. split; reflexivity.
Defined.


(** ** Frames of a participant whose video is off *)

Lemma update_participant_info_other c u v pv k :
  k <> c ->
  dict_get (update_participant_info c u v pv) k = dict_get pv k.
Proof.
  intros Hne. unfold update_participant_info.
  now apply FileTransferFrameFacts.dict_get_set_other.
Qed.

Lemma record_participants_other ps pv k :
  ~ In k (dict_keys ps) ->
  dict_get (record_participants ps pv) k = dict_get pv k.
Proof.
  unfold record_participants. revert pv.
  induction ps as [|[k' p'] ps IH]; intros pv Hk; simpl; [reflexivity|].
  rewrite IH by (intros H; apply Hk; now right).
  apply update_participant_info_other. intros ->. apply Hk. now left.
Qed.

Lemma record_participants_get ps pv k p :
  NoDup (dict_keys ps) -> In (k, p) ps ->
  exists info,
    dict_get (record_participants ps pv) k = Some info
    /\ info_video_enabled info
       = Some (Tk.with_default (video_enabled p) false).
Proof.
  unfold record_participants. revert pv.
  induction ps as [|[k' p'] ps IH]; intros pv Hnd Hin; [contradiction|].
  simpl in Hnd. inversion Hnd as [|x l Hnotin Hnd']; subst.
  destruct Hin as [Heq|Hin].
  - inversion Heq; subst. simpl.
    change (fold_left _ ps ?a) with (record_participants ps a).
    rewrite record_participants_other by exact Hnotin.
    unfold update_participant_info. rewrite dict_get_set_same.
    eexists. split; reflexivity.
  - simpl. now apply IH.
Qed.

Lemma update_video_feeds_participant_videos ps st :
  participant_videos (update_video_feeds ps st)
  = record_participants ps (participant_videos st).
Proof.
  unfold update_video_feeds. simpl.
  now destruct (assign_loop _ _ _ _) as [[a k] slots'].
Qed.

(** X8: after [update_video_feeds], a frame that arrives through
    [update_remote_video] for a participant of the mapping whose video is
    off (or not stated) is dropped: nothing changes. *)
Theorem frames_of_disabled_video_ignored
    (participants : list (string * Participant)) (st : State)
    (key : string) (p : Participant) :
  NoDup (dict_keys participants) ->
  In (key, p) participants ->
  Tk.with_default (video_enabled p) false = false ->
  let st' := update_video_feeds participants st in
  update_remote_video key st' = st'.
Proof.
  intros Hnd Hin Hoff st'. subst st'. unfold update_remote_video.
  rewrite update_video_feeds_participant_videos.
  destruct (record_participants_get participants (participant_videos st)
              key p Hnd Hin) as (info & -> & Hv).
  now rewrite Hv, Hoff.
Qed.

Lemma frames_of_disabled_video_ignored_witness :
  update_remote_video "b" (update_video_feeds roster init)
  = update_video_feeds roster init.
Proof.
  apply (frames_of_disabled_video_ignored roster init "b"
           (mkParticipant (Some "b") (Some "Bob") (Some false))).
  - repeat constructor; simpl; intuition discriminate.
  - right. now left.
  - reflexivity.
Defined.

(** ** Display names *)

Import VideoNames.

Lemma drop_suffix n s : exists pre, s = (pre ++ drop n s)%string.
Proof.
  revert s. induction n as [|n IH]; intros s.
  - now exists "".
  - destruct s as [|c s]; [now exists ""|].
    destruct (IH s) as (pre & H). exists (String c pre). simpl.
    now rewrite <- H.
Qed.

Lemma drop_length n s : String.length (drop n s) = String.length s - n.
Proof.
  revert s. induction n as [|n IH]; intros s; simpl; [lia|].
  destruct s as [|c s]; simpl; [reflexivity|apply IH].
Qed.

Lemma fallback_name_shape c :
  exists tail,
    fallback_name c = ("User " ++ tail)%string
    /\ ends_with c tail
    /\ String.length tail = Nat.min 8 (String.length c).
Proof.
  unfold fallback_name. destruct (8 <? String.length c) eqn:E.
  - apply Nat.ltb_lt in E. exists (last_chars 8 c).
    split; [reflexivity|]. unfold last_chars. split.
    + apply drop_suffix.
    + rewrite drop_length. lia.
  - apply Nat.ltb_ge in E. exists c. split; [reflexivity|]. split.
    + now exists "".
    + lia.
Qed.

(** X9: [_get_display_name] never returns an empty name, and which name
    it returns is decided by what is stored for the client.  For 'local':
    the stored username when there is one and it is non-empty, "You" in
    every other case.  For any other client: the stored username when
    there is one, non-empty and different from the client id; in every
    other case "User " followed by the last 8 characters of the id (the
    whole id when it has at most 8). *)
Theorem display_name_shape (client_id : string) (st : State) :
  let name := _get_display_name client_id st in
  let stored := stored_username (participant_videos st) client_id in
  name <> ""
  /\ (client_id = "local" ->
      (forall u, stored = Some u -> u <> "" -> name = u)
      /\ (stored = None \/ stored = Some "" -> name = "You"))
  /\ (client_id <> "local" ->
      (forall u, stored = Some u -> u <> "" -> u <> client_id -> name = u)
      /\ (stored = None \/ stored = Some "" \/ stored = Some client_id ->
          exists tail,
            name = ("User " ++ tail)%string
            /\ ends_with client_id tail
            /\ String.length tail = Nat.min 8 (String.length client_id))).
Proof.
  intros name stored. subst name stored. unfold _get_display_name.
  destruct (String.eqb_spec client_id "local") as [->|Hne].
  - destruct (stored_username (participant_videos st) "local") as [u|];
      [destruct u as [|c u]|]; simpl;
      (split; [discriminate|]);
      (split; [intros _|intros H; congruence]);
      (split; [intros u' Hu Hne'; congruence
              |intros [H|H]; congruence]).
  - destruct (fallback_name_shape client_id) as (tail & Hf & He & Hl).
    assert (Hfb : fallback_name client_id <> "")
      by (rewrite Hf; discriminate).
    destruct (stored_username (participant_videos st) client_id) as [u|].
    + destruct (str_truthy u && negb (u =? client_id)%string) eqn:E.
      * apply andb_prop in E. destruct E as [Et En].
        assert (Hu : u <> "") by (intros ->; discriminate).
        assert (Hc : u <> client_id)
          by (intros ->; now rewrite String.eqb_refl in En).
        split; [exact Hu|]. split; [intros H; congruence|]. intros _.
        split; [intros u' H _ _; congruence|].
        intros [H|[H|H]]; congruence.
      * split; [exact Hfb|]. split; [intros H; congruence|]. intros _.
        split; [|intros _; now exists tail].
        intros u' H Hu Hc. inversion H; subst u'.
        apply andb_false_iff in E. destruct E as [E|E].
        -- destruct u; [congruence|discriminate].
        -- apply negb_false_iff, String.eqb_eq in E. congruence.
    + split; [exact Hfb|]. split; [intros H; congruence|]. intros _.
      split; [intros u' H; discriminate|intros _; now exists tail].
Qed.

(** ** The tabbed module's [update_video_feeds] *)

Lemma tabbed_clear_length slots i :
  List.length (TabbedVideoFrame.clear_remote_slots slots i)
  = List.length slots.
Proof.
  revert i. induction slots as [|s r IH]; intros i; simpl; auto.
Qed.

Lemma nth_error_tabbed_clear slots i j :
  nth_error (TabbedVideoFrame.clear_remote_slots slots i) j
  = option_map
      (fun slot => if 0 <? i + j then mkSlot (frame slot) None false
                   else slot)
      (nth_error slots j).
Proof.
  revert i j. induction slots as [|s r IH]; intros i [|j]; simpl; auto.
  - now rewrite Nat.add_0_r.
  - rewrite IH. now rewrite Nat.add_succ_comm.
Qed.

(** X10: in gui_manager_tabbed.py, [update_video_feeds] leaves slot 0 as
    it was and, whether or not the widgets still exist, leaves no two
    active remote slots with the same participant id and no inactive
    remote slot with a participant. *)
Theorem tabbed_update_video_feeds_distinct
    (participants : list (string * Participant)) (slots : list Slot) :
  1 <= List.length slots ->
  let after := TabbedVideoFrame.update_video_feeds participants slots in
  nth_error after 0 = nth_error slots 0
  /\ (forall i j si sj,
         0 < i -> 0 < j -> i <> j ->
         nth_error after i = Some si -> nth_error after j = Some sj ->
         active si = true -> active sj = true ->
         participant_id si <> participant_id sj)
  /\ inactive_is_empty after.
Proof.
  intros Hlen after.
  set (cleared := TabbedVideoFrame.clear_remote_slots slots 0).
  assert (Hclen : 1 <= List.length cleared)
    by (unfold cleared; now rewrite tabbed_clear_length).
  destruct (assign_loop_spec (active_participants participants) [] 1 cleared
              Hclen)
    as (ids & slots' & E & Hle & Hlen' & Hnd & _ & _ & Hin & Hout & _).
  assert (Hafter : after = slots').
  { unfold after, TabbedVideoFrame.update_video_feeds. fold cleared.
    now rewrite E. }
  rewrite Hafter. clear Hafter after.
  assert (Hrest : forall n s, List.length ids < n ->
             nth_error slots' n = Some s ->
             active s = false /\ participant_id s = None).
  { intros n s Hn Hs. rewrite Hout in Hs by (right; simpl; lia).
    unfold cleared in Hs. rewrite nth_error_tabbed_clear in Hs.
    destruct (nth_error slots n) as [b|]; [|discriminate].
    destruct n as [|n]; [lia|]. simpl in Hs. inversion Hs. now split. }
  assert (Hslot : forall i s, i < List.length ids ->
             nth_error slots' (S i) = Some s ->
             participant_id s = nth i ids None /\ active s = true).
  { intros i s Hi Hs. specialize (Hin i Hi). change (1 + i) with (S i) in Hin.
    rewrite Hin in Hs. destruct (nth_error cleared (S i)); [|discriminate].
    simpl in Hs. inversion Hs. now split. }
  split; [|split].
  - rewrite Hout by (left; lia). unfold cleared.
    rewrite nth_error_tabbed_clear. destruct (nth_error slots 0); reflexivity.
  - intros i j si sj Hi Hj Hij Hsi Hsj Hai Haj.
    assert (Hi' : i <= List.length ids).
    { destruct (Nat.le_gt_cases i (List.length ids)) as [H|H]; [exact H|].
      destruct (Hrest i si H Hsi) as [Hf _]. congruence. }
    assert (Hj' : j <= List.length ids).
    { destruct (Nat.le_gt_cases j (List.length ids)) as [H|H]; [exact H|].
      destruct (Hrest j sj H Hsj) as [Hf _]. congruence. }
    destruct i as [|i]; [lia|]. destruct j as [|j]; [lia|].
    destruct (Hslot i si) as [Hpi _]; [lia|exact Hsi|].
    destruct (Hslot j sj) as [Hpj _]; [lia|exact Hsj|].
    rewrite Hpi, Hpj. intros Heq.
    apply (NoDup_nth ids None) in Heq; [lia|exact Hnd|lia|lia].
  - intros n s Hn Hs Ha.
    destruct (Nat.le_gt_cases n (List.length ids)) as [H|H].
    + destruct n as [|n]; [lia|].
      destruct (Hslot n s) as [_ Hact]; [lia|exact Hs|]. congruence.
    + now destruct (Hrest n s H Hs).
Qed.

Lemma tabbed_update_video_feeds_distinct_witness :
  inactive_is_empty
    (TabbedVideoFrame.update_video_feeds three_participants
       (video_slots init)).
Proof.
  apply (tabbed_update_video_feeds_distinct three_participants
           (video_slots init)).
  apply Nat.leb_le. reflexivity.
Defined.

End VideoFrameMore.

(* ================================================================== *)
(** * ScreenShareFrame: cache key, toggling, stopping, failures, sizes *)
(* ================================================================== *)

Module ScreenShareFrameMore.
Import Py PyNotations ScreenShareFrame PyFacts ScreenShareFrameFacts
  ScreenShareHandlers.

(** X11: the cache key of [display_screen_frame] identifies the image
    size and the canvas size: two keys are equal exactly when all four
    numbers are. *)
Theorem cache_key_determines_sizes (iw ih cw ch iw' ih' cw' ch' : Z) :
  scale_key iw ih cw ch = scale_key iw' ih' cw' ch'
  <-> (iw, ih, cw, ch) = (iw', ih', cw', ch').
Proof.
  split.
  - intros H. apply scale_key_inj in H.
    destruct H as (-> & -> & -> & ->). reflexivity.
  - intros H. now inversion H.
Qed.

(** ** [_toggle_screen_share] *)

Ltac break_state st :=
  destruct st as [en sh cpn [bl bs bt bf] [sl ss stx sf] [ll ls lt lf] lp
                     [cl cp ci cn] fd pr ca lca cb0 rq aq].

(** X12: [_toggle_screen_share] never raises.  When the click reaches the
    callback and the callback raises, the button is put back to 'normal'
    with "Request Presenter Role", the status reads "Error - try again"
    in red and no timeout is registered; when the share button no longer
    exists the frame is left as it was. *)
Theorem toggle_screen_share_never_raises (st : State) :
  outcome _toggle_screen_share st = Ok tt
  /\ (forall cb,
         controls_alive st ->
         screen_share_callback st = Some cb ->
         (forall arg, exists e, cb arg = Raise e) ->
         Tk.text (share_button st) = "Request Presenter Role"
         \/ startswith (Tk.text (share_button st)) "Start" = true
         \/ startswith (Tk.text (share_button st)) "Stop" = true ->
         let st' := exec _toggle_screen_share st in
         Tk.state (share_button st') = "normal"
         /\ Tk.text (share_button st') = "Request Presenter Role"
         /\ Tk.text (sharing_status st') = "Error - try again"
         /\ Tk.foreground (sharing_status st') = "red"
         /\ after_queue st' = after_queue st)
  /\ (Tk.live (share_button st) <> Tk.Alive ->
      exec _toggle_screen_share st = st).
Proof.
  break_state st. split; [|split].
  - unfold outcome, _toggle_screen_share, try_except, bind, get, has_callback,
      invoke_callback, Tk.winfo_exists, Tk.cget_text, Tk.call.
    cbn -[String.eqb startswith].
    destruct bl; cbn -[String.eqb startswith]; try reflexivity.
    destruct (String.eqb bt "Request Presenter Role");
      [|destruct (startswith bt "Start"); [|destruct (startswith bt "Stop")]];
      destruct cb0 as [cb|]; cbn; try reflexivity;
      unfold bind, modify, lift, get; cbn;
      try (destruct (cb true) as [[]|?]); try (destruct (cb false) as [[]|?]);
      reflexivity.
  - intros cb [Hb Hs] Hcb Hfail Htext. simpl in Hb, Hs, Hcb, Htext.
    subst bl sl cb0.
    destruct (Hfail true) as (e1 & He1), (Hfail false) as (e2 & He2).
    unfold exec, _toggle_screen_share, try_except, bind, get, has_callback,
      invoke_callback, Tk.winfo_exists, Tk.cget_text, Tk.call.
    cbn -[String.eqb startswith].
    destruct (String.eqb bt "Request Presenter Role") eqn:E1.
    + cbn. unfold bind, modify, lift, get. cbn. rewrite He1. cbn.
      repeat split.
    + destruct (startswith bt "Start") eqn:E2.
      * cbn. unfold bind, modify, lift, get. cbn. rewrite He1. cbn.
        repeat split.
      * destruct (startswith bt "Stop") eqn:E3.
        -- cbn. unfold bind, modify, lift, get. cbn. rewrite He2. cbn.
           repeat split.
        -- exfalso. destruct Htext as [H|[H|H]]; try discriminate.
           subst bt. discriminate.
  - intros Hb. simpl in Hb.
    destruct bl; [contradiction| |]; reflexivity.
Qed.

Lemma toggle_screen_share_never_raises_witness :
  Tk.text (share_button (exec _toggle_screen_share unplugged))
  = "Request Presenter Role"
  /\ Tk.text (sharing_status (exec _toggle_screen_share unplugged))
     = "Error - try again"
  /\ after_queue (exec _toggle_screen_share unplugged) = after_queue unplugged.
Proof.
  destruct (toggle_screen_share_never_raises unplugged) as (_ & Hreset & _).
  destruct (Hreset (fun _ => Raise (OtherException "not connected")))
    as (_ & Ht & Hs & _ & Hq).
  - split; reflexivity.
  - reflexivity.
  - intros arg. eexists. reflexivity.
  - right. left. reflexivity.
  - repeat split; assumption.
Defined.

(** ** [handle_screen_share_stopped] *)

(** X13: when the widgets exist, [handle_screen_share_stopped] returns
    and leaves the frame ready for a new request: not sharing, no
    presenter, the button enabled with "Request Presenter Role", the
    status "Ready to request presenter role", the screen label shown with
    "No screen sharing active", the canvas hidden and emptied, and both
    scaling caches reset. *)
Theorem handle_screen_share_stopped_resets (env : Env) (st : State) :
  controls_alive st -> display_alive st ->
  let st' := exec (handle_screen_share_stopped env) st in
  outcome (handle_screen_share_stopped env) st = Ok tt
  /\ is_sharing st' = false
  /\ current_presenter_name st' = None
  /\ Tk.state (share_button st') = "normal"
  /\ Tk.text (share_button st') = "Request Presenter Role"
  /\ Tk.text (sharing_status st') = "Ready to request presenter role"
  /\ Tk.text (screen_label st') = "No screen sharing active"
  /\ screen_label_packed st' = true
  /\ cv_packed (screen_canvas st') = false
  /\ cv_items (screen_canvas st') = []
  /\ cache st' = reset_cache
  /\ local_cache st' = reset_cache.
Proof.
  intros [Hb Hs] [Hl Hc]. break_state st. simpl in Hb, Hs, Hl, Hc.
  subst bl sl ll cl. repeat split.
Qed.

Lemma handle_screen_share_stopped_resets_witness :
  Tk.text (share_button
             (exec (handle_screen_share_stopped narrow_env) showing))
  = "Request Presenter Role"
  /\ cache (exec (handle_screen_share_stopped narrow_env) showing)
     = reset_cache.
Proof.
  destruct (handle_screen_share_stopped_resets narrow_env showing)
    as (_ & _ & _ & _ & Ht & _ & _ & _ & _ & _ & Hc & _).
  - vm_compute. split; reflexivity.
  - vm_compute. split; reflexivity.
  - split; assumption.
Defined.


(** ** [display_screen_frame] and the widgets it touches unguarded *)

Lemma alive_ret {A} (a : A) : stays_alive (ret a).
Proof. intros st H. exact H. Qed.
Lemma alive_raise {A} e : stays_alive (@raise State A e).
Proof. intros st H. exact H. Qed.
Lemma alive_lift {A} (r : result A) : stays_alive (lift r).
Proof. intros st H. exact H. Qed.
Lemma alive_get : stays_alive get.
Proof. intros st H. exact H. Qed.

Lemma alive_bind {A B} (m : M State A) (k : A -> M State B) :
  stays_alive m -> (forall a, stays_alive (k a)) -> stays_alive (bind m k).
Proof.
  intros Hm Hk st H. unfold bind. specialize (Hm st H).
  destruct (m st) as [s' [a|e]]; simpl in *; [now apply Hk|exact Hm].
Qed.

Lemma alive_try_except {A} (body : M State A) handler :
  stays_alive body -> (forall e, stays_alive (handler e)) ->
  stays_alive (try_except body handler).
Proof.
  intros Hm Hk st H. unfold try_except. specialize (Hm st H).
  destruct (body st) as [s' [a|e]]; simpl in *; [exact Hm|now apply Hk].
Qed.

Lemma alive_modify (f : State -> State) :
  (forall st, display_alive st -> display_alive (f st)) ->
  stays_alive (modify f).
Proof. intros Hf st H. now apply Hf. Qed.

Lemma alive_canvas_create item : stays_alive (canvas_create item).
Proof.
  intros st [Hl Hc]. break_state st. simpl in Hl, Hc. subst ll cl.
  split; reflexivity.
Qed.

Ltac alive_step :=
  match goal with
  | |- stays_alive (bind _ _) => apply alive_bind
  | |- stays_alive (try_except _ _) => apply alive_try_except
  | |- stays_alive (ret _) => apply alive_ret
  | |- stays_alive (raise _) => apply alive_raise
  | |- stays_alive (lift _) => apply alive_lift
  | |- stays_alive get => apply alive_get
  | |- stays_alive (canvas_create _) => apply alive_canvas_create
  | |- stays_alive (modify _) =>
      apply alive_modify;
      let st := fresh "st" in let H1 := fresh "H" in let H2 := fresh "H" in
      intros st [H1 H2]; split; simpl; rewrite ?safe_label_live; assumption
  | |- stays_alive (if ?b then _ else _) => destruct b
  | |- stays_alive (match ?x with _ => _ end) => destruct x
  | |- forall _, _ => intro
  end.

Ltac alive_tac := repeat alive_step.

Create HintDb alive.

Lemma alive_button_update s t : stays_alive (button_update s t).
Proof. unfold button_update. alive_tac. Qed.
Lemma alive_status_update s t : stays_alive (status_update s t).
Proof. unfold status_update. alive_tac. Qed.
Lemma alive_screen_label_update t : stays_alive (screen_label_update t).
Proof. unfold screen_label_update. alive_tac. Qed.
Lemma alive_canvas_call {A} (a : A) : stays_alive (canvas_call a).
Proof. unfold canvas_call. alive_tac. Qed.
Lemma alive_label_call {A} (a : A) : stays_alive (label_call a).
Proof. unfold label_call. alive_tac. Qed.

#[local] Hint Resolve alive_button_update alive_status_update
  alive_screen_label_update alive_canvas_call alive_label_call : alive.

Lemma alive_canvas_pack : stays_alive canvas_pack.
Proof. unfold canvas_pack. alive_tac; auto with alive. Qed.
Lemma alive_canvas_pack_forget : stays_alive canvas_pack_forget.
Proof. unfold canvas_pack_forget. alive_tac; auto with alive. Qed.
Lemma alive_label_pack : stays_alive label_pack.
Proof. unfold label_pack. alive_tac; auto with alive. Qed.
Lemma alive_label_pack_forget : stays_alive label_pack_forget.
Proof. unfold label_pack_forget. alive_tac; auto with alive. Qed.
Lemma alive_canvas_delete_all : stays_alive canvas_delete_all.
Proof. unfold canvas_delete_all. alive_tac; auto with alive. Qed.
Lemma alive_canvas_update_image id x y w h :
  stays_alive (canvas_update_image id x y w h).
Proof. unfold canvas_update_image. alive_tac; auto with alive. Qed.

#[local] Hint Resolve alive_canvas_pack alive_canvas_pack_forget
  alive_label_pack alive_label_pack_forget alive_canvas_delete_all
  alive_canvas_update_image : alive.

Lemma alive_update_presenter env p : stays_alive (update_presenter env p).
Proof. unfold update_presenter. alive_tac; auto with alive. Qed.
Lemma alive_show_black_screen env : stays_alive (_show_black_screen env).
Proof. unfold _show_black_screen. alive_tac; auto with alive. Qed.
Lemma alive_canvas_size env : stays_alive (canvas_size env).
Proof. unfold canvas_size. alive_tac; auto with alive. Qed.
Lemma alive_compute_and_cache iw ih cw ch :
  stays_alive (compute_and_cache iw ih cw ch).
Proof. unfold compute_and_cache. alive_tac; auto with alive. Qed.

#[local] Hint Resolve alive_update_presenter alive_show_black_screen
  alive_canvas_size alive_compute_and_cache : alive.

Lemma alive_scaled_dimensions iw ih cw ch :
  stays_alive (scaled_dimensions iw ih cw ch).
Proof. unfold scaled_dimensions. alive_tac; auto with alive. Qed.
Lemma alive_draw_image cw ch w h : stays_alive (draw_image cw ch w h).
Proof. unfold draw_image. alive_tac; auto with alive. Qed.

#[local] Hint Resolve alive_scaled_dimensions alive_draw_image : alive.

(** The two parts of [display_screen_frame]: what is tried, and the
    [except] clause. *)
Lemma display_screen_frame_parts env frame_data presenter_name :
  exists body handler,
    display_screen_frame env frame_data presenter_name
    = try_except body (fun _ => handler)
    /\ stays_alive body
    /\ (frame_data = Some Undecodable ->
        forall st, exists e, snd (body st) = Raise e)
    /\ (forall st,
          display_alive st ->
          snd (handler st) = Ok tt
          /\ display_alive (fst (handler st))
          /\ Tk.text (screen_label (fst (handler st)))
             = ("Error displaying screen from " ++ presenter_name)%string
          /\ _cached_canvas_size (cache (fst (handler st))) = Present None
          /\ _cached_scale (cache (fst (handler st))) = Present None
          /\ _last_image_id (cache (fst (handler st))) = Present None).
Proof.
  unfold display_screen_frame. eexists. eexists.
  split; [reflexivity|]. split; [|split].
  - alive_tac; auto with alive.
  - intros -> st. unfold bind, modify, get, lift. simpl.
    match goal with
    | |- context [if ?b then _ else _] => destruct b
    end.
    + match goal with
      | |- context [update_presenter ?e ?p ?s] =>
          destruct (update_presenter e p s) as [s' [[]|e']]
      end; simpl; eauto.
    + simpl. eauto.
  - intros st [Hl Hc]. break_state st. simpl in Hl, Hc. subst ll cl.
    destruct env as [cv lv ww wh ok]. destruct lv; repeat split.
Qed.

(** X14: with the screen label and the canvas in existence,
    [display_screen_frame] returns normally for every frame and leaves
    both in existence; for frame bytes that cannot be decoded the screen
    label then reads "Error displaying screen from <presenter>" and the
    cached canvas size, scale and image id are reset to [None]. *)
Theorem display_screen_frame_survives
    (env : Env) (frame_data : option FrameData) (presenter_name : string)
    (st : State) :
  display_alive st ->
  let st' := exec (display_screen_frame env frame_data presenter_name) st in
  outcome (display_screen_frame env frame_data presenter_name) st = Ok tt
  /\ display_alive st'
  /\ (frame_data = Some Undecodable ->
      Tk.text (screen_label st')
      = ("Error displaying screen from " ++ presenter_name)%string
      /\ _cached_canvas_size (cache st') = Present None
      /\ _cached_scale (cache st') = Present None
      /\ _last_image_id (cache st') = Present None).
Proof.
  intros Halive st'. subst st'.
  destruct (display_screen_frame_parts env frame_data presenter_name)
    as (body & handler & -> & Hbody & Hraise & Hhandler).
  unfold outcome, exec, try_except.
  specialize (Hbody st Halive).
  destruct (body st) as [s1 [[]|e]] eqn:Eb; simpl in *.
  - split; [reflexivity|]. split; [exact Hbody|].
    intros Hf. destruct (Hraise Hf st) as (e & He). rewrite Eb in He.
    discriminate.
  - destruct (Hhandler s1 Hbody) as (Hok & Hal & Ht & H1 & H2 & H3).
    split; [exact Hok|]. split; [exact Hal|]. intros _. now repeat split.
Qed.

Lemma display_screen_frame_survives_witness :
  outcome (display_screen_frame narrow_env (Some Undecodable) "ann") init
  = Ok tt
  /\ Tk.text (screen_label
                (exec (display_screen_frame narrow_env (Some Undecodable)
                                            "ann") init))
     = "Error displaying screen from ann".
Proof.
  destruct (display_screen_frame_survives narrow_env (Some Undecodable) "ann"
              init) as (Hok & _ & Herr).
  - split; reflexivity.
  - split; [exact Hok|]. now destruct (Herr eq_refl).
Defined.


(** ** The sizes kept in the cache *)

Lemma usable_ret {A} (a : A) : keeps_usable (ret a).
Proof. intros st H. exact H. Qed.
Lemma usable_raise {A} e : keeps_usable (@raise State A e).
Proof. intros st H. exact H. Qed.
Lemma usable_lift {A} (r : result A) : keeps_usable (lift r).
Proof. intros st H. exact H. Qed.
Lemma usable_get : keeps_usable get.
Proof. intros st H. exact H. Qed.

Lemma usable_bind {A B} (m : M State A) (k : A -> M State B) :
  keeps_usable m -> (forall a, keeps_usable (k a)) -> keeps_usable (bind m k).
Proof.
  intros Hm Hk st H. unfold bind. specialize (Hm st H).
  destruct (m st) as [s' [a|e]]; simpl in *; [now apply Hk|exact Hm].
Qed.

Lemma usable_try_except {A} (body : M State A) handler :
  keeps_usable body -> (forall e, keeps_usable (handler e)) ->
  keeps_usable (try_except body handler).
Proof.
  intros Hm Hk st H. unfold try_except. specialize (Hm st H).
  destruct (body st) as [s' [a|e]]; simpl in *; [exact Hm|now apply Hk].
Qed.

Lemma usable_modify (f : State -> State) :
  (forall st, sizes_usable (cache st) -> sizes_usable (cache (f st))) ->
  keeps_usable (modify f).
Proof. intros Hf st H. now apply Hf. Qed.

Lemma usable_reset : sizes_usable reset_cache.
Proof. split; intros w h H; discriminate. Qed.

Lemma compute_dimensions_at_least iw ih cw ch scale w h :
  compute_dimensions iw ih cw ch = Ok (scale, (w, h)) ->
  (200 <= w /\ 150 <= h)%Z.
Proof.
  unfold compute_dimensions.
  destruct (int_of_float _) as [nw|?]; [|discriminate].
  destruct (int_of_float _) as [nh|?]; [|discriminate].
  intros H. inversion H; subst. lia.
Qed.

Lemma usable_compute_and_cache iw ih cw ch :
  keeps_usable (compute_and_cache iw ih cw ch).
Proof.
  intros st [Hsize Hdims]. unfold compute_and_cache, bind, lift, modify.
  destruct (compute_dimensions iw ih cw ch) as [[scale [w h]]|e] eqn:E; simpl;
    [|now split].
  split.
  - exact Hsize.
  - intros w' h' H. inversion H; subst.
    now apply (compute_dimensions_at_least iw ih cw ch scale).
Qed.

(** The fallback of [display_screen_frame] for a canvas that has no size
    yet. *)
Lemma fallback_size_usable (w h : Z) :
  let small := ((w <=? 10) || (h <=? 10))%Z in
  (10 < (if small then Z.max w 1000 else w)
   /\ 10 < (if small then Z.max h 650 else h))%Z.
Proof.
  simpl. destruct (Z.leb_spec w 10), (Z.leb_spec h 10); simpl; lia.
Qed.

Ltac usable_step :=
  match goal with
  | |- keeps_usable (bind _ _) => apply usable_bind
  | |- keeps_usable (try_except _ _) => apply usable_try_except
  | |- keeps_usable (ret _) => apply usable_ret
  | |- keeps_usable (raise _) => apply usable_raise
  | |- keeps_usable (lift _) => apply usable_lift
  | |- keeps_usable get => apply usable_get
  | |- keeps_usable (compute_and_cache _ _ _ _) =>
      apply usable_compute_and_cache
  | |- keeps_usable (modify _) =>
      apply usable_modify;
      let st := fresh "st" in let H := fresh "H" in
      intros st H;
      first [ exact H
            | exact usable_reset
            | destruct H as [H ?]; split;
              [intros ? ? ?; discriminate|assumption] ]
  | |- keeps_usable (if ?b then _ else _) => destruct b
  | |- keeps_usable (match ?x with _ => _ end) => destruct x
  | |- forall _, _ => intro
  end.

Ltac usable_tac := repeat usable_step.

Create HintDb usable.

Lemma usable_button_update s t : keeps_usable (button_update s t).
Proof. unfold button_update. usable_tac. Qed.
Lemma usable_status_update s t : keeps_usable (status_update s t).
Proof. unfold status_update. usable_tac. Qed.
Lemma usable_screen_label_update t : keeps_usable (screen_label_update t).
Proof. unfold screen_label_update. usable_tac. Qed.
Lemma usable_canvas_call {A} (a : A) : keeps_usable (canvas_call a).
Proof. unfold canvas_call. usable_tac. Qed.
Lemma usable_label_call {A} (a : A) : keeps_usable (label_call a).
Proof. unfold label_call. usable_tac. Qed.

#[local] Hint Resolve usable_button_update usable_status_update
  usable_screen_label_update usable_canvas_call usable_label_call : usable.

Lemma usable_canvas_pack : keeps_usable canvas_pack.
Proof. unfold canvas_pack. usable_tac; auto with usable. Qed.
Lemma usable_canvas_pack_forget : keeps_usable canvas_pack_forget.
Proof. unfold canvas_pack_forget. usable_tac; auto with usable. Qed.
Lemma usable_label_pack : keeps_usable label_pack.
Proof. unfold label_pack. usable_tac; auto with usable. Qed.
Lemma usable_label_pack_forget : keeps_usable label_pack_forget.
Proof. unfold label_pack_forget. usable_tac; auto with usable. Qed.
Lemma usable_canvas_delete_all : keeps_usable canvas_delete_all.
Proof. unfold canvas_delete_all. usable_tac; auto with usable. Qed.
Lemma usable_canvas_create item : keeps_usable (canvas_create item).
Proof. unfold canvas_create. usable_tac; auto with usable. Qed.
Lemma usable_canvas_update_image id x y w h :
  keeps_usable (canvas_update_image id x y w h).
Proof. unfold canvas_update_image. usable_tac; auto with usable. Qed.
Lemma usable_invoke_callback b : keeps_usable (invoke_callback b).
Proof. unfold invoke_callback. usable_tac. Qed.
Lemma usable_schedule ms f : keeps_usable (schedule ms f).
Proof. unfold schedule. usable_tac. Qed.

#[local] Hint Resolve usable_canvas_pack usable_canvas_pack_forget
  usable_label_pack usable_label_pack_forget usable_canvas_delete_all
  usable_canvas_create usable_canvas_update_image usable_invoke_callback
  usable_schedule : usable.

Lemma usable_toggle_screen_share : keeps_usable _toggle_screen_share.
Proof. unfold _toggle_screen_share. usable_tac; auto with usable. Qed.

Lemma usable_run_deferred f : keeps_usable (run_deferred f).
Proof.
  destruct f; simpl; [unfold _reset_presenter_request_timeout|];
    usable_tac; auto with usable.
Qed.

Lemma usable_update_presenter env p : keeps_usable (update_presenter env p).
Proof. unfold update_presenter. usable_tac; auto with usable. Qed.

Lemma usable_set_presenter_status b p :
  keeps_usable (set_presenter_status b p).
Proof. unfold set_presenter_status. usable_tac; auto with usable. Qed.

Lemma usable_reset_screen_sharing_button :
  keeps_usable reset_screen_sharing_button.
Proof. unfold reset_screen_sharing_button. usable_tac; auto with usable. Qed.

Lemma usable_reset_screen_cache : keeps_usable _reset_screen_cache.
Proof. unfold _reset_screen_cache. usable_tac; auto with usable. Qed.

Lemma usable_show_black_screen env : keeps_usable (_show_black_screen env).
Proof. unfold _show_black_screen. usable_tac; auto with usable. Qed.

Lemma usable_show_local_sharing_preview env :
  keeps_usable (_show_local_sharing_preview env).
Proof. unfold _show_local_sharing_preview. usable_tac; auto with usable. Qed.

#[local] Hint Resolve usable_update_presenter usable_reset_screen_cache
  usable_show_black_screen usable_show_local_sharing_preview : usable.

Lemma usable_set_sharing_status env b :
  keeps_usable (set_sharing_status env b).
Proof. unfold set_sharing_status. usable_tac; auto with usable. Qed.

Lemma usable_canvas_size env : keeps_usable (canvas_size env).
Proof.
  assert (Hfresh : keeps_usable
    (canvas_width <- canvas_call (winfo_width env) ;;
     canvas_height <- canvas_call (winfo_height env) ;;
     let small := ((canvas_width <=? 10) || (canvas_height <=? 10))%Z in
     let canvas_width :=
       if small then Z.max canvas_width 1000 else canvas_width in
     let canvas_height :=
       if small then Z.max canvas_height 650 else canvas_height in
     modify (fun st =>
               set_cache
                 (set_cached_canvas_size
                    (Present (Some (canvas_width, canvas_height)))
                    (cache st)) st) ;;;
     ret (canvas_width, canvas_height))).
  { apply usable_bind; [apply usable_canvas_call|intros w].
    apply usable_bind; [apply usable_canvas_call|intros h].
    apply usable_bind; [|intros; apply usable_ret].
    apply usable_modify. intros st [Hsize Hdims]. split.
    - intros w' h' H. simpl in H. inversion H; subst.
      apply fallback_size_usable.
    - exact Hdims. }
  unfold canvas_size. apply usable_bind; [apply usable_get|intros st].
  destruct (_cached_canvas_size (cache st)) as [|[size|]];
    [exact Hfresh|apply usable_ret|exact Hfresh].
Qed.

Lemma usable_scaled_dimensions iw ih cw ch :
  keeps_usable (scaled_dimensions iw ih cw ch).
Proof. unfold scaled_dimensions. usable_tac; auto with usable. Qed.

Lemma usable_draw_image cw ch w h : keeps_usable (draw_image cw ch w h).
Proof. unfold draw_image. usable_tac; auto with usable. Qed.

#[local] Hint Resolve usable_canvas_size usable_scaled_dimensions
  usable_draw_image : usable.

Lemma usable_display_screen_frame env f p :
  keeps_usable (display_screen_frame env f p).
Proof. unfold display_screen_frame. usable_tac; auto with usable. Qed.

Lemma reachable_usable st : reachable st -> sizes_usable (cache st).
Proof.
  induction 1 as [|st op _ IH].
  - split; intros w h H; discriminate.
  - destruct op; unfold run_op, exec;
      first [ exact IH
            | now apply usable_toggle_screen_share
            | now apply usable_run_deferred
            | now apply usable_update_presenter
            | now apply usable_set_presenter_status
            | now apply usable_reset_screen_sharing_button
            | now apply usable_set_sharing_status
            | now apply usable_reset_screen_cache
            | now apply usable_show_black_screen
            | now apply usable_display_screen_frame ].
Qed.

(** X15: whatever has been done with the frame, a canvas size kept in the
    cache exceeds 10 in both directions and cached dimensions are at least
    200 x 150; so is every size [display_screen_frame] obtains for its
    canvas and for the picture it draws, taken from the cache or computed. *)
Theorem cached_sizes_usable (st : State) (env : Env) (iw ih : Z) :
  reachable st ->
  sizes_usable (cache st)
  /\ (forall cw ch,
        outcome (canvas_size env) st = Ok (cw, ch) -> (10 < cw /\ 10 < ch)%Z)
  /\ (forall cw ch w h,
        outcome (scaled_dimensions iw ih cw ch) st = Ok (w, h) ->
        (200 <= w /\ 150 <= h)%Z).
Proof.
  intros Hreach. pose proof (reachable_usable st Hreach) as [Hsize Hdims].
  split; [now split|]. split.
  - intros cw ch. unfold outcome, canvas_size, bind, get. simpl.
    assert (Hfresh : forall st0 : State,
      snd ((canvas_width <- canvas_call (winfo_width env) ;;
            canvas_height <- canvas_call (winfo_height env) ;;
            let small := ((canvas_width <=? 10) || (canvas_height <=? 10))%Z in
            let canvas_width :=
              if small then Z.max canvas_width 1000 else canvas_width in
            let canvas_height :=
              if small then Z.max canvas_height 650 else canvas_height in
            modify (fun st =>
                      set_cache
                        (set_cached_canvas_size
                           (Present (Some (canvas_width, canvas_height)))
                           (cache st)) st) ;;;
            ret (canvas_width, canvas_height)) st0) = Ok (cw, ch) ->
      (10 < cw /\ 10 < ch)%Z).
    { intros st0. unfold canvas_call, bind, get, lift, modify, ret. simpl.
      destruct (Tk.call (cv_live (screen_canvas st0)) (winfo_width env))
        as [w|?] eqn:Ew; simpl; [|discriminate].
      destruct (Tk.call (cv_live (screen_canvas st0)) (winfo_height env))
        as [h|?] eqn:Eh; simpl; [|discriminate].
      intros H. inversion H; subst. apply fallback_size_usable. }
    destruct (_cached_canvas_size (cache st)) as [|[[w h]|]] eqn:E.
    + apply Hfresh.
    + unfold ret. simpl. intros H. inversion H; subst. now apply Hsize.
    + apply Hfresh.
  - intros cw ch w h. unfold outcome, scaled_dimensions, bind, get. simpl.
    assert (Hfresh :
      snd (compute_and_cache iw ih cw ch st) = Ok (w, h) ->
      (200 <= w /\ 150 <= h)%Z).
    { unfold compute_and_cache, bind, lift, modify, ret.
      destruct (compute_dimensions iw ih cw ch) as [[scale [w' h']]|e] eqn:E;
        simpl; [|discriminate].
      intros H. inversion H; subst.
      now apply (compute_dimensions_at_least iw ih cw ch scale). }
    destruct (_cached_scale (cache st)); [exact Hfresh|].
    destruct (_cached_scale_key (cache st)) as [|key];
      [unfold raise; simpl; discriminate|].
    destruct (negb _); [exact Hfresh|].
    destruct (_cached_dimensions (cache st)) as [|[[w' h']|]] eqn:E;
      unfold raise, ret; simpl; try discriminate.
    intros H. inversion H; subst. now apply Hdims.
Qed.

Lemma cached_sizes_usable_witness :
  sizes_usable (cache showing)
  /\ _cached_canvas_size (cache showing) = Present (Some (1000, 650)%Z).
Proof.
  split.
  - exact (proj1 (cached_sizes_usable showing narrow_env 1920 1080
                    showing_reachable)).
  - reflexivity.
Defined.

(** ** [handle_screen_share_started] *)

(** X21: when the widgets exist, [handle_screen_share_started] returns;
    for the presenter "You" it changes nothing; for anyone else it
    records the presenter and the screen label reads "<name> is sharing
    their screen"; unless this client is sharing itself, the button is
    then disabled with "<name> is sharing", the status says the same, and
    a canvas that was not visible is shown in place of the label.  While
    this client is sharing, button and status stay as they are. *)
Theorem handle_screen_share_started_shows_presenter
    (env : Env) (presenter_name : string) (st : State) :
  controls_alive st -> display_alive st ->
  let st' := exec (handle_screen_share_started env presenter_name) st in
  outcome (handle_screen_share_started env presenter_name) st = Ok tt
  /\ (presenter_name = "You" -> st' = st)
  /\ (presenter_name <> "You" ->
      current_presenter_name st' = Some presenter_name
      /\ Tk.text (screen_label st')
         = (presenter_name ++ " is sharing their screen")%string
      /\ is_sharing st' = is_sharing st
      /\ (is_sharing st = true ->
          share_button st' = share_button st
          /\ sharing_status st' = sharing_status st)
      /\ (is_sharing st = false -> presenter_name <> "" ->
          Tk.state (share_button st') = "disabled"
          /\ Tk.text (share_button st')
             = (presenter_name ++ " is sharing")%string
          /\ Tk.text (sharing_status st')
             = (presenter_name ++ " is sharing")%string
          /\ (canvas_viewable env = false ->
              cv_packed (screen_canvas st') = true
              /\ screen_label_packed st' = false))).
Proof.
  intros [Hb Hs] [Hl Hc]. break_state st. simpl in Hb, Hs, Hl, Hc.
  subst bl sl ll cl. destruct env as [cv lv ww wh ok].
  unfold handle_screen_share_started, outcome, exec.
  destruct (String.eqb_spec presenter_name "You") as [->|Hne]; simpl.
  { split; [reflexivity|]. split; [reflexivity|]. intros H. now elim H. }
  destruct presenter_name as [|c name]; destruct sh, cv; simpl;
    (split; [reflexivity|]); (split; [intros H; now elim Hne|]); intros _;
    repeat split; intros; try reflexivity; try discriminate; try congruence.
Qed.

Lemma handle_screen_share_started_shows_presenter_witness :
  Tk.text (share_button (exec (handle_screen_share_started narrow_env "bob")
                              init))
  = "bob is sharing"
  /\ Tk.text (screen_label (exec (handle_screen_share_started narrow_env "bob")
                                 init))
     = "bob is sharing their screen".
Proof.
  destruct (handle_screen_share_started_shows_presenter narrow_env "bob" init)
    as (_ & _ & H).
  - split; reflexivity.
  - split; reflexivity.
  - destruct H as (_ & Hl & _ & _ & Hb); [discriminate|].
    destruct Hb as (_ & Hb & _); [reflexivity|discriminate|].
    split; [exact Hb|exact Hl].
Defined.

End ScreenShareFrameMore.

(* ================================================================== *)
(** * FileTransferFrame: downloads *)
(* ================================================================== *)

Module FileDownloadFacts.
Import Py PyNotations PyMore FileTransferFrame FileDownload PyFacts
       FileTransferFrameFacts.

Lemma dict_get_nth_error {V} (d : list (string * V)) i k v :
  NoDup (dict_keys d) -> nth_error d i = Some (k, v) -> dict_get d k = Some v.
Proof.
  unfold dict_keys. revert i. induction d as [|[k0 v0] d IH]; intros i Hnd H.
  - destruct i; discriminate.
  - inversion Hnd as [|x l Hnotin Hnd']; subst. destruct i as [|i]; simpl in *.
    + inversion H; subst. now rewrite String.eqb_refl.
    + destruct (String.eqb_spec k0 k) as [->|Hne].
      * exfalso. apply Hnotin. apply nth_error_In in H.
        now apply (in_map fst) in H.
      * now apply (IH i).
Qed.

(** X16: in a frame filled by [add_shared_file], with a download callback
    set and a line of the listbox selected, [_download_file] returns
    normally; the file it asks for is the one whose line is selected, and
    it asks for it once, unless the file is larger than 10 MB and the user
    declines; a large file is preceded by the question, and an exception
    of the callback ends in the "Download Error" dialog with its text.
    (File sizes below 2^53, where the quotient by 1048576 is the one
    Python computes.  The listbox holds the selected line: it is short of
    lines only after an [add_shared_file] that raised.) *)
Theorem download_file_requests_selected
    (p : Panel) (answer : bool) (i : nat) (rest : list nat)
    (cb : string -> result unit) (file_id : string) (info : FileInfo) :
  FileTransferFrame.reachable (files p) ->
  curselection p = i :: rest ->
  i < List.length (file_listbox (files p)) ->
  file_download_callback p = Some cb ->
  nth_error (shared_files (files p)) i = Some (file_id, info) ->
  (Z.abs (filesize info) < 2 ^ 53)%Z ->
  let p' := exec (_download_file answer) p in
  let declined := is_large (filesize info) && negb answer in
  option_map Ok (nth_error (file_listbox (files p)) i)
  = Some (display_text info)
  /\ dict_get (shared_files (files p)) file_id = Some info
  /\ outcome (_download_file answer) p = Ok tt
  /\ files p' = files p
  /\ downloads p'
     = downloads p ++ (if declined then [] else [file_id])
  /\ dialogs p'
     = dialogs p
       ++ (if is_large (filesize info)
           then [large_file_question (filename info) (filesize info)]
           else [])
       ++ (if declined then []
           else match cb file_id with
                | Ok _ => []
                | Raise e =>
                    [ShowError "Download Error"
                       ("Failed to start download: " ++ str_of_exn e)]
                end).
Proof.
  intros Hreach Hsel Hline Hcb Hnth _ p' declined. subst p' declined.
  split.
  { rewrite (reachable_listbox _ Hreach) in Hline |- *.
    apply nth_error_Some in Hline.
    destruct (nth_error (rendered (shared_files (files p))) i) as [line|]
      eqn:E; [|congruence].
    destruct (nth_error_rendered _ _ _ E) as (k & info' & Hk & Ht).
    rewrite Hnth in Hk. inversion Hk; subst. simpl. now rewrite Ht. }
  split.
  { apply (dict_get_nth_error _ i); [|exact Hnth].
    now apply reachable_keys_NoDup. }
  unfold outcome, exec, _download_file, bind, get. simpl.
  rewrite Hsel, Hcb. unfold try_except. rewrite Hnth.
  destruct p as [fs sel cb0 dl dn]. simpl in *.
  unfold show, call_download, bind, modify, lift, ret. simpl.
  destruct (is_large (filesize info)); simpl.
  - destruct answer; simpl.
    + destruct (cb file_id) as [[]|e]; simpl;
        rewrite <- ?app_assoc; repeat split; reflexivity.
    + rewrite ?app_nil_r. repeat split; reflexivity.
  - destruct (cb file_id) as [[]|e]; simpl;
      rewrite ?app_nil_r; repeat split; reflexivity.
Qed.

Lemma download_file_requests_selected_witness :
  nth_error (file_listbox one_file) 0 = Some "notes.txt (900 B) - ann"
  /\ downloads (exec (_download_file false)
                     (picking (fun _ => Raise (OtherException "offline"))))
     = ["f1"]
  /\ dialogs (exec (_download_file false)
                   (picking (fun _ => Raise (OtherException "offline"))))
     = [ShowError "Download Error" "Failed to start download: offline"].
Proof.
  destruct (download_file_requests_selected
              (picking (fun _ => Raise (OtherException "offline"))) false
              0 [] (fun _ => Raise (OtherException "offline"))
              "f1" (mkFileInfo "notes.txt" 900 "ann"))
    as (_ & _ & _ & _ & Hdown & Hdial).
  - exact one_file_reachable.
  - reflexivity.
  - apply Nat.ltb_lt. reflexivity.
  - reflexivity.
  - reflexivity.
  - simpl. lia.
  - split; [|split; [exact Hdown|exact Hdial]].
    vm_compute. reflexivity.
Defined.

(** X17: without a selection, without a callback, or with a selection
    past the last file, [_download_file] asks for no file and tells the
    user why, in this order of precedence; it never raises, whatever the
    callback does. *)
Theorem download_file_refusals (p : Panel) (answer : bool) :
  let p' := exec (_download_file answer) p in
  outcome (_download_file answer) p = Ok tt
  /\ files p' = files p
  /\ (curselection p = [] ->
      downloads p' = downloads p
      /\ dialogs p'
         = dialogs p
           ++ [ShowWarning "No Selection" "Please select a file to download."])
  /\ (curselection p <> [] -> file_download_callback p = None ->
      downloads p' = downloads p
      /\ dialogs p'
         = dialogs p
           ++ [ShowError "Error" "Download functionality not available."])
  /\ (forall i rest,
        curselection p = i :: rest -> file_download_callback p <> None ->
        List.length (shared_files (files p)) <= i ->
        downloads p' = downloads p
        /\ dialogs p'
           = dialogs p ++ [ShowError "Error" "Invalid file selection."]).
Proof.
  destruct p as [fs sel cb dl dn]. simpl.
  unfold outcome, exec, _download_file, bind, get. simpl.
  destruct sel as [|i rest]; simpl.
  { repeat split; try reflexivity; try congruence; intros; discriminate. }
  destruct cb as [cb|]; simpl.
  2:{ repeat split; try reflexivity; try congruence; intros; discriminate. }
  unfold try_except.
  destruct (nth_error (shared_files fs) i) as [[file_id info]|] eqn:Hnth.
  - assert (Hlt : i < List.length (shared_files fs)).
    { apply nth_error_Some. congruence. }
    unfold show, call_download, bind, modify, lift, ret. simpl.
    destruct (is_large (filesize info)); simpl;
      [destruct answer; simpl|];
      try (destruct (cb file_id) as [[]|e]; simpl);
      (split; [reflexivity|]); (split; [reflexivity|]);
      (split; [intros; discriminate|]);
      (split; [intros _ H; discriminate|]);
      intros i' rest' Heq _ Hle; inversion Heq; subst; lia.
  - simpl. split; [reflexivity|]. split; [reflexivity|].
    split; [intros; discriminate|]. split; [intros _ H; discriminate|].
    intros i' rest' _ _ _. split; reflexivity.
Qed.

End FileDownloadFacts.

(* ================================================================== *)
(** * TabbedGUIManager: connecting and closing *)
(* ================================================================== *)

Module TabbedGUIManagerFacts.
Import Py PyNotations PyMore TabbedGUIManager PyFacts.

(** ** [str.strip] *)

Lemma rstrip_idem s : rstrip (rstrip s) = rstrip s.
Proof.
  induction s as [|c s IH]; [reflexivity|]. simpl.
  destruct (rstrip s) as [|c' r] eqn:E.
  - destruct (isspace c) eqn:Ec; simpl; [reflexivity|now rewrite Ec].
  - simpl in *. now rewrite IH.
Qed.

Lemma lstrip_no_leading_space s : no_leading_space (lstrip s).
Proof.
  induction s as [|c s IH]; simpl; [exact I|].
  destruct (isspace c) eqn:E; [exact IH|exact E].
Qed.

Lemma lstrip_fixed s : no_leading_space s -> lstrip s = s.
Proof. destruct s as [|c s]; simpl; [reflexivity|]. now intros ->. Qed.

Lemma rstrip_no_leading_space s :
  no_leading_space s -> no_leading_space (rstrip s).
Proof.
  destruct s as [|c s]; simpl; [trivial|]. intros Hc.
  destruct (rstrip s); [now rewrite Hc|exact Hc].
Qed.

Lemma strip_idem s : strip (strip s) = strip s.
Proof.
  unfold strip. rewrite (lstrip_fixed (rstrip (lstrip s))).
  - apply rstrip_idem.
  - apply rstrip_no_leading_space, lstrip_no_leading_space.
Qed.

Lemma str_truthy_true s : str_truthy s = true <-> s <> "".
Proof. destruct s; simpl; split; congruence. Qed.

(** ** The connection controls *)

Ltac break_manager st :=
  destruct st as [se ue sl cbn dbn cn ccb dcb dl cl rq rd].

(** X18: with the window in existence, [_connect_clicked] shows the error
    dialog and calls nothing when the server or the username entry is
    blank; otherwise it shows nothing and passes the username, stripped
    of surrounding white space, to the connect callback if one is set,
    and the callback's outcome is its own. *)
Theorem connect_clicked_passes_trimmed_name (st : State) :
  root_destroyed st = false ->
  let server := strip (server_entry st) in
  let username := strip (username_entry st) in
  let st' := exec _connect_clicked st in
  ((server = "" \/ username = "") ->
   outcome _connect_clicked st = Ok tt
   /\ calls st' = calls st
   /\ dialogs st'
      = dialogs st
        ++ [ShowError "Error" "Please enter server address and username"])
  /\ (server <> "" -> username <> "" ->
      dialogs st' = dialogs st
      /\ strip username = username
      /\ match connect_callback st with
         | Some cb =>
             calls st' = calls st ++ [Connect username]
             /\ outcome _connect_clicked st = cb username
         | None =>
             calls st' = calls st /\ outcome _connect_clicked st = Ok tt
         end).
Proof.
  intros Hlive server username st'. subst server username st'.
  break_manager st. simpl in Hlive. subst rd.
  unfold outcome, exec, _connect_clicked, widget_call, bind, get, ret.
  simpl. split.
  - intros Hblank.
    assert (E : negb (str_truthy (strip se)) || negb (str_truthy (strip ue))
                = true).
    { destruct Hblank as [-> | ->]; simpl; [reflexivity|].
      apply orb_true_r. }
    rewrite E. repeat split.
  - intros Hs Hu.
    apply str_truthy_true in Hs. apply str_truthy_true in Hu.
    rewrite Hs, Hu. simpl. split; [|split].
    + destruct ccb as [cb|]; [|reflexivity].
      unfold modify, lift. simpl. now destruct (cb (strip ue)).
    + apply strip_idem.
    + destruct ccb as [cb|]; [|split; reflexivity].
      unfold modify, lift. simpl. now destruct (cb (strip ue)).
Qed.

Lemma connect_clicked_passes_trimmed_name_witness :
  calls (exec _connect_clicked filled) = [Connect "ann"]
  /\ outcome _connect_clicked filled = Ok tt.
Proof.
  destruct (connect_clicked_passes_trimmed_name filled) as [_ H].
  - reflexivity.
  - destruct H as (_ & _ & Hcalls & Hout).
    + vm_compute. discriminate.
    + vm_compute. discriminate.
    + split; [exact Hcalls|exact Hout].
Defined.

(** X19: with the window in existence, [_on_closing] returns normally and
    the window is destroyed, whatever the disconnect callback does; the
    callback is called once if the manager is connected and has one, and
    not otherwise; the main loop is asked to quit unless the callback
    raised. *)
Theorem on_closing_destroys_window (st : State) :
  root_destroyed st = false ->
  let st' := exec _on_closing st in
  outcome _on_closing st = Ok tt
  /\ root_destroyed st' = true
  /\ calls st'
     = calls st ++ (match connected st, disconnect_callback st with
                    | true, Some _ => [Disconnect]
                    | _, _ => []
                    end)
  /\ root_quit st'
     = (root_quit st
        || match connected st, disconnect_callback st with
           | true, Some (Raise _) => false
           | _, _ => true
           end)
  /\ dialogs st' = dialogs st.
Proof.
  intros Hlive st'. subst st'.
  break_manager st. simpl in Hlive. subst rd.
  unfold outcome, exec, _on_closing, root_destroy, widget_call, try_except,
    bind, get, ret, modify, lift.
  simpl.
  destruct cn; [destruct dcb as [[[]|e]|]|]; simpl;
    rewrite ?app_nil_r, ?orb_true_r, ?orb_false_r; repeat split.
Qed.

Lemma on_closing_destroys_window_witness :
  outcome _on_closing flaky = Ok tt
  /\ root_destroyed (exec _on_closing flaky) = true
  /\ calls (exec _on_closing flaky) = [Disconnect]
  /\ root_quit (exec _on_closing flaky) = false.
Proof.
  destruct (on_closing_destroys_window flaky)
    as (Hout & Hgone & Hcalls & Hquit & _).
  - reflexivity.
  - split; [exact Hout|]. split; [exact Hgone|].
    split; [exact Hcalls|exact Hquit].
Defined.

(** ** What all states of the manager have in common *)

Lemma inv_init : inv init.
Proof.
  split; [split; reflexivity|]. split; [intros u []|discriminate].
Qed.

Ltac inv_done Hb Hn Hq :=
  split;
  [ first [exact Hb | split; reflexivity]
  | split;
    [ exact Hn
    | first [exact Hq | intros _; reflexivity | intros; assumption] ] ].

Lemma names_trimmed_app cl c :
  (forall u, In (Connect u) cl -> u <> "" /\ strip u = u) ->
  (forall u, c = Connect u -> u <> "" /\ strip u = u) ->
  forall u, In (Connect u) (cl ++ [c]) -> u <> "" /\ strip u = u.
Proof.
  intros Hn Hc u Hin. apply in_app_or in Hin.
  destruct Hin as [Hin|[Heq|[]]]; [now apply Hn|now apply Hc].
Qed.

Lemma inv_run_op op st : inv st -> inv (run_op op st).
Proof.
  intros (Hb & Hn & Hq). break_manager st.
  unfold inv, buttons_follow, names_trimmed in *. simpl in *.
  assert (Hd : forall u, In (Connect u) (cl ++ [Disconnect]) ->
                         u <> "" /\ strip u = u).
  { apply names_trimmed_app; [exact Hn|discriminate]. }
  destruct op as [c d|server username| | |status|]; simpl.
  - inv_done Hb Hn Hq.
  - inv_done Hb Hn Hq.
  - unfold exec, _connect_clicked, widget_call, bind, get, ret. simpl.
    destruct rd; simpl; [inv_done Hb Hn Hq|].
    destruct (strip se) as [|a s] eqn:Es; simpl; [inv_done Hb Hn Hq|].
    destruct (strip ue) as [|b u] eqn:Eu; simpl; [inv_done Hb Hn Hq|].
    destruct ccb as [cb|]; simpl; [|inv_done Hb Hn Hq].
    unfold modify, lift. simpl.
    assert (Hn' : forall u0, In (Connect u0) (cl ++ [Connect (String b u)]) ->
                             u0 <> "" /\ strip u0 = u0).
    { apply names_trimmed_app; [exact Hn|].
      intros u0 Heq. inversion Heq; subst u0. split; [discriminate|].
      rewrite <- Eu. apply strip_idem. }
    destruct (cb (String b u)); simpl; inv_done Hb Hn' Hq.
  - unfold exec, _disconnect_clicked, bind, get, modify, lift. simpl.
    destruct dcb as [[[]|e]|]; simpl;
      first [inv_done Hb Hd Hq | inv_done Hb Hn Hq].
  - unfold exec, update_connection_status, widget_call, bind, get, ret,
      modify.
    simpl. destruct rd; simpl; inv_done Hb Hn Hq.
  - unfold exec, _on_closing, root_destroy, widget_call, try_except,
      bind, get, ret, modify, lift.
    simpl.
    destruct cn; [destruct dcb as [[[]|e]|]|]; destruct rd; simpl;
      first [inv_done Hb Hd Hq | inv_done Hb Hn Hq].
Qed.

(** X20: whatever has been done with the manager, the Connect button is
    disabled and the Disconnect button enabled exactly while it counts
    as connected; every username the connect callback was given is
    non-empty and has no surrounding white space; and the main loop was
    asked to quit only where the window was destroyed as well. *)
Theorem manager_invariants (st : State) :
  reachable st ->
  buttons_follow st
  /\ (forall u, In (Connect u) (calls st) -> u <> "" /\ strip u = u)
  /\ (root_quit st = true -> root_destroyed st = true).
Proof.
  induction 1 as [|st op _ IH]; [exact inv_init|].
  now apply inv_run_op.
Qed.

Lemma manager_invariants_witness :
  connect_button flaky = "disabled" /\ disconnect_button flaky = "normal".
Proof.
  destruct (manager_invariants flaky) as [[Hc Hd] _].
  - unfold flaky. apply (reach_step _ (OpUpdateConnectionStatus "Connected")).
    apply (reach_step _ (OpSetConnectionCallbacks _ _)). apply reach_init.
  - split; [exact Hc|exact Hd].
Defined.

End TabbedGUIManagerFacts.
